(** * Book Handle: a shallow embedding of the parsers and the exporter

    The JavaScript sources embedded here are
    - [src/parser.js]            ([createDocumentStructure], [generateUniqueId],
                                  [isValidChapter], [chapterNameToFileName],
                                  [generateBookInfoFiles]),
    - [src/parsers/txtParser.js] ([extractStructureFromText], [isLikelyHeading],
                                  [estimateHeadingLevel]),
    - [src/parsers/epubParser.js] ([extractParagraphsFromHTML], [stripHTML],
                                  [extractContent], [extractTOC]),
    - [src/parsers/pdfParser.js] ([safeParseDate], [extractParagraphs],
                                  [isHeading], [estimateHeadingLevel],
                                  [extractTOC]),
    - [uniqueId.js]              (the standalone [generateUniqueId]).

    A JavaScript string is the list of its UTF-16 code units; regular
    expressions are kept as syntax trees and run by a backtracking matcher,
    so that every pattern of the sources can be read off next to its
    embedding (where a pattern quoted in a comment has a star before a
    closing parenthesis, a blank is written between the two). *)

From Stdlib Require Import ZArith NArith List Bool Lia Ascii String.
From Stdlib Require Import DecimalString DecimalN DecimalFacts.
From stdpp Require Import gmap list.

Local Open Scope N_scope.

(** ** JavaScript strings *)

Module JS.

(** A string is its sequence of UTF-16 code units. *)
Abbreviation jsstring := (list N).

(** Literals: a Rocq string of ASCII characters, one code unit each. *)
Fixpoint js (s : String.string) : jsstring :=
  match s with
  | EmptyString => []
  | String c r => N_of_ascii c :: js r
  end.

#[global] Arguments js : simpl never.

Definition in_range (lo hi c : N) : bool := (lo <=? c) && (c <=? hi).

(** [\d] *)
Definition is_digit (c : N) : bool := in_range 48 57 c.

(** ECMAScript WhiteSpace and LineTerminator code points: what [\s] matches
    and what [String.prototype.trim] removes. *)
Definition is_space (c : N) : bool :=
  in_range 9 13 c || (c =? 32) || (c =? 160) || (c =? 0x1680)
  || in_range 0x2000 0x200A c || (c =? 0x2028) || (c =? 0x2029)
  || (c =? 0x202F) || (c =? 0x205F) || (c =? 0x3000) || (c =? 0xFEFF).

(** LineTerminator: what [.] does not match. *)
Definition is_line_terminator (c : N) : bool :=
  (c =? 10) || (c =? 13) || (c =? 0x2028) || (c =? 0x2029).

Definition is_upper (c : N) : bool := in_range 65 90 c.
Definition is_lower (c : N) : bool := in_range 97 122 c.

Fixpoint drop_spaces (s : jsstring) : jsstring :=
  match s with
  | c :: t => if is_space c then drop_spaces t else s
  | [] => []
  end.

(** [s.trim()] *)
Definition trim (s : jsstring) : jsstring :=
  rev (drop_spaces (rev (drop_spaces s))).

Fixpoint eqb (a b : jsstring) : bool :=
  match a, b with
  | [], [] => true
  | x :: a', y :: b' => (x =? y) && eqb a' b'
  | _, _ => false
  end.

Fixpoint starts_with (p s : jsstring) : bool :=
  match p, s with
  | [], _ => true
  | x :: p', y :: s' => (x =? y) && starts_with p' s'
  | _ :: _, [] => false
  end.

(** [s.includes(p)] *)
Fixpoint includes (s p : jsstring) : bool :=
  starts_with p s ||
  match s with
  | [] => false
  | _ :: t => includes t p
  end.

(** [s.split(sep)] for a separator of one code unit, as in [split('\n')]. *)
Fixpoint split_char (sep : N) (s : jsstring) : list jsstring :=
  match s with
  | [] => [[]]
  | c :: t =>
      if c =? sep then [] :: split_char sep t
      else match split_char sep t with
           | w :: ws => (c :: w) :: ws
           | [] => [[c]]
           end
  end.

(** [s.slice(a, b)] and [s.substring(a, b)] for [0 <= a <= b]. *)
Definition slice (a b : nat) (s : jsstring) : jsstring :=
  firstn (b - a) (skipn a s).

(** [s.slice(-n)]: the last [n] code units, the whole string when it is
    shorter. *)
Definition slice_last (n : nat) (s : jsstring) : jsstring :=
  skipn (length s - n) s.

(** [s.padStart(n, c)] and [s.padEnd(n, c)] with a one-unit filler. *)
Definition padStart (n : nat) (c : N) (s : jsstring) : jsstring :=
  repeat c (n - length s) ++ s.
Definition padEnd (n : nat) (c : N) (s : jsstring) : jsstring :=
  s ++ repeat c (n - length s).

(** [String(n)] for a non-negative integer. *)
Definition of_N (n : N) : jsstring := js (NilEmpty.string_of_uint (N.to_uint n)).
Definition of_nat (n : nat) : jsstring := of_N (N.of_nat n).

(** The integer that a string of decimal digits denotes. It is
    [parseInt(s)] when it is below 2^53, where a double holds every
    integer: the callers below read one digit, or four. *)
Definition parseInt (s : jsstring) : N :=
  fold_left (fun acc c => 10 * acc + (c - 48)) s 0.

(** A number that is a non-negative integer, or Infinity. *)
Inductive number : Type :=
| Finite (n : N)
| Infinity.

(** The double nearest to a non-negative integer, a tie going to the even
    significand: an integer of more than 53 binary digits keeps its first
    53, rounded on the [e] digits dropped; from 2^1024 - 2^970 on the
    result is Infinity. *)
Definition to_double (n : N) : number :=
  let e := N.size n - 53 in
  let q := N.shiftr n e in
  let r := n - N.shiftl q e in
  let half := N.shiftl 1 (e - 1) in
  let up := (0 <? e) && ((half <? r) || ((r =? half) && N.odd q)) in
  let v := N.shiftl (if up then q + 1 else q) e in
  if 2 ^ 1024 <=? v then Infinity else Finite v.

(** [parseInt(s)] on a string of decimal digits of any length: the double
    nearest to the integer the digits denote. *)
Definition parseInt_double (s : jsstring) : number := to_double (parseInt s).

(** [s.toLowerCase()]. The callers compare the result with Basic Latin
    text only ([includes] of an ASCII keyword, the class [[a-z0-9\s]]), so
    the code units whose lower-case mapping holds no Basic Latin letter are
    kept as they are; U+212A KELVIN SIGN maps to k and U+0130 to i followed
    by U+0307, the two mappings from outside Basic Latin into it. *)
Definition lower_unit (c : N) : jsstring :=
  if is_upper c then [c + 32]
  else if c =? 0x212A then [107]
  else if c =? 0x0130 then [105; 0x0307]
  else [c].
Definition toLowerCase (s : jsstring) : jsstring := flat_map lower_unit s.

(** Truthiness of a string: [""] is falsy. *)
Definition truthy (s : jsstring) : bool :=
  match s with [] => false | _ => true end.

(** [a || b] on strings. *)
Definition or_else (a b : jsstring) : jsstring := if truthy a then a else b.

End JS.

(** ** Regular expressions

    The patterns of the sources as syntax trees, and the backtracking
    matcher of ECMAScript (without the [u] flag) over code units. *)

Module Re.

Inductive regex : Type :=
| Eps                                             (* the empty pattern *)
| Cls (p : N -> bool)                             (* one unit of a class *)
| Seq (r1 r2 : regex)
| Alt (r1 r2 : regex)                             (* r1|r2 *)
| Rep (greedy : bool) (lo : nat) (hi : option nat) (r : regex)
| Grp (i : nat) (r : regex)                       (* capture group i *)
| Bol                                             (* ^ *)
| Eol.                                            (* $ *)

(** Matcher state: the index reached, the input still to read and the
    captures (group 0 is the whole match). *)
Record mstate : Type := MState {
  pos : nat;
  rest : JS.jsstring;
  caps : list (option JS.jsstring)
}.

Definition or_try {A} (a b : option A) : option A :=
  match a with Some _ => a | None => b end.

(** The iterations of a quantifier whose body is matched by [body]: [n]
    iterations are done, [k] is what follows. An iteration that reads
    nothing once [lo] iterations are done is rejected, as in ECMAScript's
    RepeatMatcher. *)
Fixpoint rep_loop
  (body : mstate -> (mstate -> option mstate) -> option mstate)
  (greedy : bool) (lo : nat) (hi : option nat)
  (k : mstate -> option mstate) (fuel n : nat) (st : mstate)
  {struct fuel} : option mstate :=
  let stop := if Nat.leb lo n then k st else None in
  let more :=
    match fuel with
    | O => None
    | S fuel' =>
        if match hi with Some h => Nat.leb h n | None => false end
        then None
        else body st (fun st1 =>
               if Nat.leb lo n && Nat.eqb (pos st1) (pos st) then None
               else rep_loop body greedy lo hi k fuel' (S n) st1)
    end in
  if greedy then or_try more stop else or_try stop more.

(** [rmatch r st k]: match [r] at [st], then the continuation [k]; the
    first success in backtracking order. *)
Fixpoint rmatch (r : regex) (st : mstate) (k : mstate -> option mstate)
  {struct r} : option mstate :=
  match r with
  | Eps => k st
  | Cls p =>
      match rest st with
      | c :: t => if p c then k (MState (S (pos st)) t (caps st)) else None
      | [] => None
      end
  | Seq r1 r2 => rmatch r1 st (fun st1 => rmatch r2 st1 k)
  | Alt r1 r2 => or_try (rmatch r1 st k) (rmatch r2 st k)
  | Grp i r1 =>
      rmatch r1 st (fun st1 =>
        k (MState (pos st1) (rest st1)
             (<[i := Some (firstn (pos st1 - pos st) (rest st))]> (caps st1))))
  | Bol => if Nat.eqb (pos st) 0 then k st else None
  | Eol => match rest st with [] => k st | _ :: _ => None end
  | Rep greedy lo hi r1 =>
      rep_loop (rmatch r1) greedy lo hi k (S (lo + length (rest st))) O st
  end.

(** Quantifiers. *)
Definition star := Rep true 0 None.
Definition plus := Rep true 1 None.
Definition opt := Rep true 0 (Some 1%nat).
Definition lazy_star := Rep false 0 None.
Definition lazy_plus := Rep false 1 None.

(** Classes. *)
Definition chr (c : N) : regex := Cls (N.eqb c).
(** A Basic Latin letter under the [i] flag. *)
Definition chr_i (c : N) : regex :=
  Cls (fun x => (x =? c) || (JS.is_upper x && (x + 32 =? c))
                || (JS.is_lower x && (x =? c + 32))).
Definition digit := Cls JS.is_digit.                              (* \d *)
Definition space := Cls JS.is_space.                              (* \s *)
Definition dot := Cls (fun c => negb (JS.is_line_terminator c)).  (* . *)
Definition any := Cls (fun _ => true).                            (* [\s\S] *)
Definition none_of (l : list N) : regex :=
  Cls (fun c => negb (existsb (N.eqb c) l)).
Definition one_of (l : list N) : regex := Cls (fun c => existsb (N.eqb c) l).

(** A literal, and a literal under the [i] flag. *)
Fixpoint lit (s : JS.jsstring) : regex :=
  match s with
  | [] => Eps
  | [c] => chr c
  | c :: t => Seq (chr c) (lit t)
  end.
Fixpoint lit_i (s : JS.jsstring) : regex :=
  match s with
  | [] => Eps
  | [c] => chr_i c
  | c :: t => Seq (chr_i c) (lit_i t)
  end.

(** A sequence of patterns. *)
Definition seq (l : list regex) : regex := fold_right Seq Eps l.

(** A match: where it starts and ends, and the groups ([groups !! 0] is
    the matched text). *)
Record rmatch_result : Type := Match {
  m_index : nat;
  m_end : nat;
  m_groups : list (option JS.jsstring)
}.

(** Group [i] of a match as a string; an unset group reads as [""] where
    the sources use it. *)
Definition group (i : nat) (m : rmatch_result) : JS.jsstring :=
  match m_groups m !! i with Some (Some s) => s | _ => [] end.

(** Number of capture groups of a pattern. *)
Fixpoint ngroups (r : regex) : nat :=
  match r with
  | Seq a b | Alt a b => Nat.max (ngroups a) (ngroups b)
  | Rep _ _ _ a => ngroups a
  | Grp i a => Nat.max i (ngroups a)
  | _ => O
  end.

(** Match [r] at index [i], where [s] is the input from [i] on. *)
Definition match_at (r : regex) (i : nat) (s : JS.jsstring)
  : option rmatch_result :=
  match rmatch r (MState i s (repeat None (S (ngroups r)))) Some with
  | Some st =>
      Some (Match i (pos st)
              (<[O := Some (firstn (pos st - i) s)]> (caps st)))
  | None => None
  end.

(** The first match at or after index [i]. *)
Fixpoint search_from (r : regex) (i : nat) (s : JS.jsstring)
  : option rmatch_result :=
  match match_at r i s with
  | Some m => Some m
  | None =>
      match s with
      | [] => None
      | _ :: t => search_from r (S i) t
      end
  end.

(** [s.match(r)] and [r.exec(s)] without the [g] flag. *)
Definition exec (r : regex) (s : JS.jsstring) : option rmatch_result :=
  search_from r 0 s.

(** [r.test(s)] *)
Definition test (r : regex) (s : JS.jsstring) : bool :=
  match exec r s with Some _ => true | None => false end.

(** [s.matchAll(r)] with the [g] flag: successive matches, the scan
    moving one unit further after an empty match. *)
Fixpoint matchAll_from (fuel : nat) (r : regex) (i : nat) (s : JS.jsstring)
  : list rmatch_result :=
  match fuel with
  | O => []
  | S fuel' =>
      match search_from r i s with
      | None => []
      | Some m =>
          let next := if Nat.eqb (m_end m) (m_index m) then S (m_end m)
                      else m_end m in
          m :: (if Nat.ltb (i + length s) next then []
                else matchAll_from fuel' r next (skipn (next - i) s))
      end
  end.
Definition matchAll (r : regex) (s : JS.jsstring) : list rmatch_result :=
  matchAll_from (S (length s)) r 0 s.

(** [s.replace(r, f)] with the [g] flag, [f] computing the replacement of
    a match. *)
Fixpoint replace_matches (f : rmatch_result -> JS.jsstring) (i : nat)
  (s : JS.jsstring) (ms : list rmatch_result) : JS.jsstring :=
  match ms with
  | [] => s
  | m :: ms' =>
      firstn (m_index m - i) s ++ f m
        ++ replace_matches f (m_end m) (skipn (m_end m - i) s) ms'
  end.
Definition replace_all (r : regex) (f : rmatch_result -> JS.jsstring)
  (s : JS.jsstring) : JS.jsstring :=
  replace_matches f 0 s (matchAll r s).

(** [s.replace(r, f)] without the [g] flag: the first match only. *)
Definition replace_first (r : regex) (f : rmatch_result -> JS.jsstring)
  (s : JS.jsstring) : JS.jsstring :=
  match exec r s with
  | Some m => firstn (m_index m) s ++ f m ++ skipn (m_end m) s
  | None => s
  end.

(** [s.split(r)] for a pattern without groups: ECMAScript's loop over the
    index [q], [p] being the end of the last separator; [s] is the input
    from [q] on, [w] the units between [p] and [q] (reversed) and [skip]
    the units of the separator still to pass. *)
Fixpoint split_from (r : regex) (p q : nat) (w : JS.jsstring) (skip : nat)
  (s : JS.jsstring) : list JS.jsstring :=
  match s with
  | [] => [rev w]
  | c :: t =>
      match skip with
      | S k => split_from r p (S q) w k t
      | O =>
          match match_at r q s with
          | Some m =>
              if Nat.eqb (m_end m) p then split_from r p (S q) (c :: w) 0 t
              else if Nat.eqb (m_end m) q
                   then rev w :: split_from r q (S q) [c] 0 t
                   else rev w
                          :: split_from r (m_end m) (S q) [] (m_end m - q - 1) t
          | None => split_from r p (S q) (c :: w) 0 t
          end
      end
  end.
Definition split (r : regex) (s : JS.jsstring) : list JS.jsstring :=
  match s with
  | [] => match match_at r 0 [] with Some _ => [] | None => [[]] end
  | _ :: _ => split_from r 0 0 [] 0 s
  end.

End Re.

(** ** Data model *)

Inductive block_type : Type := heading | paragraph.

(** A content block. [blk_level] is set on headings only; [blk_chapter]
    and [blk_chapterIndex] are set by the markup extractor only. A block
    without a [text] property behaves in every use below as one whose text
    is [""]. *)
Record block : Type := Block {
  blk_id : JS.jsstring;
  blk_type : block_type;
  blk_text : JS.jsstring;
  blk_level : option nat;
  blk_chapter : option JS.jsstring;
  blk_chapterIndex : option nat
}.

(** A table-of-contents entry. *)
Record tocEntry : Type := TocEntry {
  toc_title : JS.jsstring;
  toc_page : option JS.number;
  toc_level : nat;
  toc_id : option JS.jsstring;
  toc_order : option nat
}.

(** An image reference. *)
Record imageRef : Type := ImageRef {
  img_id : JS.jsstring;
  img_href : JS.jsstring;
  img_mediaType : JS.jsstring
}.

(** Code units of the CJK characters the patterns name. *)
Module U.
Definition mu : N := 0x76EE.        (* 目 *)
Definition lu : N := 0x5F55.        (* 录 *)
Definition di : N := 0x7B2C.        (* 第 *)
Definition zhang : N := 0x7AE0.     (* 章 *)
Definition jie : N := 0x8282.       (* 节 *)
Definition bu : N := 0x90E8.        (* 部 *)
Definition fen : N := 0x5206.       (* 分 *)
Definition pian : N := 0x7BC7.      (* 篇 *)
Definition juan : N := 0x5377.      (* 卷 *)
Definition bai : N := 0x767E.       (* 百 *)
Definition dunhao : N := 0x3001.    (* 、 *)
Definition juhao : N := 0x3002.     (* 。 *)
Definition douhao : N := 0xFF0C.    (* ， *)
(** 一二三四五六七八九十 *)
Definition numerals : list N :=
  [0x4E00; 0x4E8C; 0x4E09; 0x56DB; 0x4E94; 0x516D; 0x4E03; 0x516B; 0x4E5D;
   0x5341].
Definition full_stop : N := 46.     (* . *)
End U.

(** ** The plain-text segmenter ([txtParser.js]) *)

Module Txt.
Import Re.

(** [/^(\d+[\.、]\s* )+/] *)
Definition re_number_prefix : regex :=
  seq [Bol; plus (Grp 1 (seq [plus digit; one_of [U.full_stop; U.dunhao];
                              star space]))].

(** [/^第[一二三四五六七八九十\d]+([章节部分篇卷])/i] *)
Definition re_chapter : regex :=
  seq [Bol; chr U.di;
       plus (Cls (fun c => existsb (N.eqb c) U.numerals || JS.is_digit c));
       Grp 1 (one_of [U.zhang; U.jie; U.bu; U.fen; U.pian; U.juan])].

(** [/[\.、]/] *)
Definition re_outline_sep : regex := one_of [U.full_stop; U.dunhao].

(** [estimateHeadingLevel(text)]. The comparison of the captured unit
    with the two-unit string 部分 never holds, so 部 and 分 fall through to
    the length buckets. *)
Definition estimateHeadingLevel (text : JS.jsstring) : nat :=
  match exec re_number_prefix text with
  | Some m => length (split re_outline_sep (group 0 m)) - 1
  | None =>
      let by_length :=
        if Nat.ltb (length text) 20 then 1%nat
        else if Nat.ltb (length text) 40 then 2%nat else 3%nat in
      match exec re_chapter text with
      | Some m =>
          let type := group 1 m in
          if JS.eqb type [U.zhang] || JS.eqb type [U.juan] then 1%nat
          else if JS.eqb type [U.jie] || JS.eqb type [U.pian] then 2%nat
          else if JS.eqb type [U.bu; U.fen] then 3%nat
          else by_length
      | None => by_length
      end
  end.

(** [/^[A-Z\s]+$/] *)
Definition re_all_caps : regex :=
  seq [Bol; plus (Cls (fun c => JS.is_upper c || JS.is_space c)); Eol].

(** [/^\d+[\.、]\s*/] *)
Definition re_numbered : regex :=
  seq [Bol; plus digit; one_of [U.full_stop; U.dunhao]; star space].

(** [isLikelyHeading(line, nextLine)]; [nextLine] is [None] past the last
    line ([undefined]), and an empty next line is falsy as well. *)
Definition isLikelyHeading (line : JS.jsstring) (nextLine : option JS.jsstring)
  : bool :=
  if Nat.ltb 100 (length line) then false
  else if test re_all_caps line && Nat.ltb (length line) 50
          && Nat.ltb 3 (length line) then true
  else if test re_numbered line then true
  else if test re_chapter line then true
  else if match nextLine with
          | Some n => JS.truthy n && Nat.eqb (length (JS.trim n)) 0
          | None => false
          end then true
  else if Nat.ltb (length line) 50 && negb (JS.includes line [U.juhao])
          && negb (JS.includes line [U.douhao]) then true
  else false.

(** [/^[目目录录]{1,2}$/i] and [/^目\s*录$/i] *)
Definition re_toc_marker1 : regex :=
  seq [Bol; Rep true 1 (Some 2%nat) (one_of [U.mu; U.mu; U.lu; U.lu]); Eol].
Definition re_toc_marker2 : regex :=
  seq [Bol; chr U.mu; star space; chr U.lu; Eol].

(** [/^(.+?)\s+\.{3,}\s*(\d+)$/] and [/^(\d+[\.、]\s*.+?)$/] *)
Definition re_toc_dotted : regex :=
  seq [Bol; Grp 1 (lazy_plus dot); plus space;
       Rep true 3 None (chr U.full_stop); star space; Grp 2 (plus digit); Eol].
Definition re_toc_numbered : regex :=
  seq [Bol; Grp 1 (seq [plus digit; one_of [U.full_stop; U.dunhao];
                        star space; lazy_plus dot]); Eol].

(** The variables of the loop of [extractStructureFromText]. *)
Record state : Type := State {
  paragraphs : list block;
  toc : list tocEntry;
  currentParagraph : JS.jsstring;
  paragraphIndex : nat;
  inTOCSection : bool
}.

Definition para_id (n : nat) : JS.jsstring := JS.js "para_" ++ JS.of_nat n.
Definition heading_id (n : nat) : JS.jsstring :=
  JS.js "heading_" ++ JS.of_nat n.

(** The flush of the pending paragraph: pushed, trimmed, when its trimmed
    text is not empty. *)
Definition flush (s : state) : state :=
  if Nat.ltb 0 (length (JS.trim (currentParagraph s))) then
    State (paragraphs s
             ++ [Block (para_id (paragraphIndex s)) paragraph
                   (JS.trim (currentParagraph s)) None None None])
          (toc s) [] (S (paragraphIndex s)) (inTOCSection s)
  else s.

(** The body-text part of one iteration (source lines 120-150). *)
Definition body_step (line : JS.jsstring) (next : option JS.jsstring)
  (s : state) : state :=
  if Nat.eqb (length line) 0 then flush s
  else if isLikelyHeading line next then
    let s1 := flush s in
    State (paragraphs s1
             ++ [Block (heading_id (paragraphIndex s1)) heading line
                   (Some (estimateHeadingLevel line)) None None])
          (toc s1) (currentParagraph s1) (S (paragraphIndex s1))
          (inTOCSection s1)
  else
    State (paragraphs s) (toc s)
          (currentParagraph s
             ++ (if JS.truthy (currentParagraph s) then [32] else []) ++ line)
          (paragraphIndex s) (inTOCSection s).

(** One iteration of the loop on [lines[i]], [next] being [lines[i + 1]]. *)
Definition step (raw : JS.jsstring) (next : option JS.jsstring) (s : state)
  : state :=
  let line := JS.trim raw in
  if test re_toc_marker1 line || test re_toc_marker2 line then
    State (paragraphs s) (toc s) (currentParagraph s) (paragraphIndex s) true
  else
    let tocMatch :=
      if inTOCSection s
      then or_try (exec re_toc_dotted line) (exec re_toc_numbered line)
      else None in
    match tocMatch with
    | Some m =>
        let title := JS.or_else (group 1 m) (group 0 m) in
        State (paragraphs s)
              (toc s
                 ++ [TocEntry title
                       (if JS.truthy (group 2 m)
                        then Some (JS.parseInt_double (group 2 m))
                        else None)
                       (estimateHeadingLevel title) None None])
              (currentParagraph s) (paragraphIndex s) (inTOCSection s)
    | None =>
        let leave := Nat.eqb (length line) 0 || Nat.ltb 50 (length line) in
        body_step line next
          (State (paragraphs s) (toc s) (currentParagraph s)
                 (paragraphIndex s) (inTOCSection s && negb leave))
    end.

Fixpoint loop (lines : list JS.jsstring) (s : state) : state :=
  match lines with
  | [] => s
  | raw :: rest => loop rest (step raw (head rest) s)
  end.

(** [extractStructureFromText(text)]: the pair [{ paragraphs, toc }]. *)
Definition extractStructureFromText (text : JS.jsstring)
  : list block * list tocEntry :=
  let s := flush (loop (JS.split_char 10 text) (State [] [] [] 0 false)) in
  (paragraphs s, toc s).

End Txt.

(** ** The page-text extractor ([pdfParser.js]) *)

Module Pdf.
Import Re.

(** 一二三四五六七八九十百 *)
Definition numerals : list N := U.numerals ++ [U.bai].

(** [/^(第[一二三四五六七八九十百]+章|第\d+节|Chapter\s+\d+)/] *)
Definition re_marker : regex :=
  seq [Bol;
       Grp 1 (Alt (seq [chr U.di; plus (one_of numerals); chr U.zhang])
                (Alt (seq [chr U.di; plus digit; chr U.jie])
                   (seq [lit (JS.js "Chapter"); plus space; plus digit])))].

(** [/^[A-Z\s]+$/] *)
Definition re_all_caps : regex :=
  seq [Bol; plus (Cls (fun c => JS.is_upper c || JS.is_space c)); Eol].

(** [/^\d+(\.|、)\s*/] *)
Definition re_numbered : regex :=
  seq [Bol; plus digit; Grp 1 (Alt (chr U.full_stop) (chr U.dunhao));
       star space].

(** [isHeading(line, next)] *)
Definition isHeading (line next : JS.jsstring) : bool :=
  if test re_marker line then true
  else if test re_all_caps line && Nat.ltb (length line) 50 then true
  else if test re_numbered line then true
  else if Nat.eqb (length next) 0 then true
  else false.

(** [/第[一二三四五六七八九十百]+章/], [/第\d+节/], [/^(\d+(\.|、))+?/]
    and [/\.|、/] *)
Definition re_zhang : regex :=
  seq [chr U.di; plus (one_of numerals); chr U.zhang].
Definition re_jie : regex := seq [chr U.di; plus digit; chr U.jie].
Definition re_outline : regex :=
  seq [Bol;
       lazy_plus (Grp 1 (seq [plus digit;
                              Grp 2 (Alt (chr U.full_stop) (chr U.dunhao))]))].
Definition re_outline_sep : regex := Alt (chr U.full_stop) (chr U.dunhao).

(** [estimateHeadingLevel(line)] *)
Definition estimateHeadingLevel (line : JS.jsstring) : nat :=
  if test re_zhang line then 1%nat
  else if test re_jie line then 2%nat
  else match exec re_outline line with
       | Some m => length (split re_outline_sep (group 0 m))
       | None => 3%nat
       end.

(** The variables of the loop of [extractParagraphs]. *)
Record state : Type := State {
  paragraphs : list block;
  current : JS.jsstring;
  id : nat
}.

Definition flush (s : state) : state :=
  if JS.truthy (current s) then
    State (paragraphs s
             ++ [Block (Txt.para_id (id s)) paragraph (current s)
                   None None None])
          [] (S (id s))
  else s.

(** One iteration on [lines[i]], [next] being [lines[i + 1]] if any. *)
Definition step (raw : JS.jsstring) (next : option JS.jsstring) (s : state)
  : state :=
  let line := JS.trim raw in
  if negb (JS.truthy line) then s
  else
    let next := match next with Some n => JS.trim n | None => [] end in
    if isHeading line next then
      let s1 := flush s in
      State (paragraphs s1
               ++ [Block (Txt.heading_id (id s1)) heading line
                     (Some (estimateHeadingLevel line)) None None])
            (current s1) (S (id s1))
    else
      State (paragraphs s)
            (current s ++ (if JS.truthy (current s) then [32] else [])
               ++ line)
            (id s).

Fixpoint loop (lines : list JS.jsstring) (s : state) : state :=
  match lines with
  | [] => s
  | raw :: rest => loop rest (step raw (head rest) s)
  end.

(** [/\r?\n/] *)
Definition re_newline : regex := seq [opt (chr 13); chr 10].

(** [extractParagraphs(text)] *)
Definition extractParagraphs (text : JS.jsstring) : list block :=
  paragraphs (flush (loop (split re_newline text) (State [] [] 0))).

(** *** The table of contents of a page text (source lines 140-163) *)

(** [/^(.+?)\s+\.{3,}\s*(\d+)$/] *)
Definition re_toc : regex :=
  seq [Bol; Grp 1 (lazy_plus dot); plus space;
       Rep true 3 None (chr U.full_stop); star space; Grp 2 (plus digit); Eol].

(** One iteration of the loop of [extractTOC] on [line]. *)
Definition toc_step (toc : list tocEntry) (line : JS.jsstring)
  : list tocEntry :=
  let trimmed := JS.trim line in
  match exec re_toc trimmed with
  | Some tocMatch =>
      toc ++ [TocEntry (group 1 tocMatch)
                (Some (JS.parseInt_double (group 2 tocMatch)))
                (estimateHeadingLevel (group 1 tocMatch)) None None]
  | None =>
      if isHeading trimmed []
      then toc ++ [TocEntry trimmed None (estimateHeadingLevel trimmed)
                     None None]
      else toc
  end.

(** [extractTOC(text)] *)
Definition extractTOC (text : JS.jsstring) : list tocEntry :=
  fold_left toc_step (split re_newline text) [].

End Pdf.

(** ** The markup extractor ([epubParser.js]) *)

Module Epub.
Import Re.

Definition lt : N := 60.   (* < *)
Definition gt : N := 62.   (* > *)

(** [stripHTML(html)] *)
Definition stripHTML (html : JS.jsstring) : JS.jsstring :=
  let t := replace_all (seq [chr lt; plus (none_of [gt]); chr gt])
             (fun _ => JS.js " ") html in                  (* /<[^>]+>/g *)
  let t := replace_all (lit (JS.js "&nbsp;")) (fun _ => JS.js " ") t in
  let t := replace_all (lit (JS.js "&quot;")) (fun _ => [34]) t in
  let t := replace_all (lit (JS.js "&amp;")) (fun _ => JS.js "&") t in
  let t := replace_all (lit (JS.js "&lt;")) (fun _ => JS.js "<") t in
  let t := replace_all (lit (JS.js "&gt;")) (fun _ => JS.js ">") t in
  let t := replace_all (plus space) (fun _ => JS.js " ") t in   (* /\s+/g *)
  JS.trim t.

(** [/<script[^>]*>[\s\S]*?<\/script>/gi] and the same for [style] *)
Definition re_element (name : JS.jsstring) : regex :=
  seq [chr lt; lit_i name; star (none_of [gt]); chr gt; lazy_star any;
       lit (JS.js "</"); lit_i name; chr gt].

(** [/<h([1-6])[^>]*>(.*?)<\/h[1-6]>/gi] *)
Definition re_heading : regex :=
  seq [chr lt; chr_i 104; Grp 1 (Cls (JS.in_range 49 54));
       star (none_of [gt]); chr gt; Grp 2 (lazy_star dot);
       lit (JS.js "</"); chr_i 104; Cls (JS.in_range 49 54); chr gt].

(** [/<p[^>]*>(.*?)<\/p>/gi] *)
Definition re_paragraph : regex :=
  seq [chr lt; chr_i 112; star (none_of [gt]); chr gt; Grp 1 (lazy_star dot);
       lit (JS.js "</"); chr_i 112; chr gt].

Definition heading_id (chapterId : JS.jsstring) (n : nat) : JS.jsstring :=
  chapterId ++ JS.js "_heading_" ++ JS.of_nat n.
Definition para_id (chapterId : JS.jsstring) (n : nat) : JS.jsstring :=
  chapterId ++ JS.js "_para_" ++ JS.of_nat n.

(** The first loop: one heading block per match, none left out. *)
Definition push_heading (chapterId : JS.jsstring) (chapterIndex : nat)
  (paragraphs : list block) (m : rmatch_result) : list block :=
  paragraphs
    ++ [Block (heading_id chapterId (length paragraphs)) heading
          (stripHTML (group 2 m)) (Some (N.to_nat (JS.parseInt (group 1 m))))
          (Some chapterId) (Some chapterIndex)].

(** The second loop: a paragraph block for each match whose stripped text
    is not empty. *)
Definition push_paragraph (chapterId : JS.jsstring) (chapterIndex : nat)
  (paragraphs : list block) (m : rmatch_result) : list block :=
  let paraText := stripHTML (group 1 m) in
  if Nat.ltb 0 (length (JS.trim paraText)) then
    paragraphs
      ++ [Block (para_id chapterId (length paragraphs)) paragraph
            (JS.trim paraText) None (Some chapterId) (Some chapterIndex)]
  else paragraphs.

(** The rescue path: each non-blank line of the stripped text. *)
Definition fallback (chapterId : JS.jsstring) (chapterIndex : nat)
  (text : JS.jsstring) : list block :=
  let lines :=
    List.filter (fun line => Nat.ltb 0 (length (JS.trim line)))
      (JS.split_char 10 (stripHTML text)) in
  flat_map (fun '(idx, line) =>
              if Nat.ltb 0 (length (JS.trim line)) then
                [Block (para_id chapterId idx) paragraph (JS.trim line) None
                   (Some chapterId) (Some chapterIndex)]
              else [])
    (combine (List.seq 0%nat (length lines)) lines).

(** [extractParagraphsFromHTML(html, chapterId, chapterIndex)] *)
Definition extractParagraphsFromHTML (html chapterId : JS.jsstring)
  (chapterIndex : nat) : list block :=
  let text := replace_all (re_element (JS.js "script")) (fun _ => []) html in
  let text := replace_all (re_element (JS.js "style")) (fun _ => []) text in
  let paragraphs :=
    fold_left (push_heading chapterId chapterIndex)
      (matchAll re_heading text) [] in
  let paragraphs :=
    fold_left (push_paragraph chapterId chapterIndex)
      (matchAll re_paragraph text) paragraphs in
  if Nat.eqb (length paragraphs) 0
  then fallback chapterId chapterIndex text
  else paragraphs.

(** [extractContent(epub)], the callbacks of [getChapter] running in the
    order of the flow: [getChapter id] is the markup of the chapter, or
    [None] when reading it fails. The promise resolves when the flow is
    empty or its last chapter is read; the result is [None] when it never
    does. [EpubCallbacks] below takes the callbacks in any order. *)
Fixpoint extractContent_loop (getChapter : JS.jsstring -> option JS.jsstring)
  (flow : list JS.jsstring) (content : list block) (chapterIndex : nat)
  : option (list block) :=
  match flow with
  | [] => Some content
  | chapterId :: rest =>
      match getChapter chapterId with
      | Some text =>
          extractContent_loop getChapter rest
            (content ++ extractParagraphsFromHTML text chapterId chapterIndex)
            (S chapterIndex)
      | None =>
          match rest with
          | [] => None
          | _ :: _ => extractContent_loop getChapter rest content chapterIndex
          end
      end
  end.
Definition extractContent (getChapter : JS.jsstring -> option JS.jsstring)
  (flow : list JS.jsstring) : option (list block) :=
  extractContent_loop getChapter flow [] 0.

(** *** The table of contents of the reading order (source lines 77-96) *)

(** An item of the reading order [epub.flow]; a property is [None] when
    the item does not have it. *)
Record flowItem : Type := FlowItem {
  fl_id : option JS.jsstring;
  fl_title : option JS.jsstring;
  fl_level : option nat
}.

(** The callback of [flow.forEach] in [extractTOC]. *)
Definition toc_item (toc : list tocEntry) (index : nat) (item : flowItem)
  : list tocEntry :=
  if JS.truthy (default [] (fl_title item)) then
    toc ++ [TocEntry (default [] (fl_title item)) None
              (match fl_level item with Some (S n) => S n | _ => 1%nat end)
              (Some (JS.or_else (default [] (fl_id item))
                       (JS.js "chapter_" ++ JS.of_nat index)))
              (Some index)]
  else toc.

Fixpoint toc_loop (flow : list flowItem) (index : nat) (toc : list tocEntry)
  : list tocEntry :=
  match flow with
  | [] => toc
  | item :: rest => toc_loop rest (S index) (toc_item toc index item)
  end.

(** [extractTOC(flow)]; [flow] is [None] when it is not an array. *)
Definition extractTOC (flow : option (list flowItem)) : list tocEntry :=
  match flow with
  | None => []
  | Some flow => toc_loop flow 0 []
  end.

End Epub.

(** ** The callbacks of [extractContent] ([epubParser.js], lines 101-128)

    [getChapter] hands the markup of a chapter to its callback once the
    library has read it, so the callbacks run one at a time in an order
    that the library and the file system decide, not the source:
    [schedule] lists the positions of the chapters in the flow in the
    order in which their callbacks run. All the callbacks fill the one
    array [content] and share the counter [chapterIndex]; the promise
    resolves with that array when the callback of the last position of
    the flow runs without error, and the callbacks that run later go on
    filling it. *)

Module EpubCallbacks.

(** The variables the callbacks share: [resolved] is what the array holds
    at the moment the promise resolves, [None] while it is pending. *)
Record state : Type := State {
  content : list block;
  chapterIndex : nat;
  resolved : option (list block)
}.

(** The callback of [getChapter] for the chapter at position [index]. *)
Definition callback (getChapter : JS.jsstring -> option JS.jsstring)
  (flow : list JS.jsstring) (st : state) (index : nat) : state :=
  match flow !! index with
  | None => st
  | Some chapterId =>
      match getChapter chapterId with
      | None => st
      | Some text =>
          let paragraphs :=
            Epub.extractParagraphsFromHTML text chapterId (chapterIndex st) in
          let content := content st ++ paragraphs in
          State content (S (chapterIndex st))
            (match resolved st with
             | Some seen => Some seen
             | None =>
                 if Nat.eqb index (length flow - 1) then Some content
                 else None
             end)
      end
  end.

(** [extractContent(epub)] once the callbacks of [schedule] have run. An
    empty flow resolves at once, with the empty array. *)
Definition extractContent (getChapter : JS.jsstring -> option JS.jsstring)
  (flow : list JS.jsstring) (schedule : list nat) : state :=
  let st := fold_left (callback getChapter flow) schedule (State [] 0 None) in
  if Nat.eqb (length flow) 0
  then State (content st) (chapterIndex st) (Some (content st))
  else st.

End EpubCallbacks.

(** ** JavaScript values and objects *)

(** The values a metadata property can hold (numbers are the integers). *)
Inductive value : Type :=
| VUndefined
| VNull
| VBool (b : bool)
| VNum (n : Z)
| VStr (s : JS.jsstring).

Definition truthy (v : value) : bool :=
  match v with
  | VUndefined | VNull => false
  | VBool b => b
  | VNum n => negb (Z.eqb n 0)
  | VStr s => JS.truthy s
  end.

(** [a || b] *)
Definition or_value (a b : value) : value := if truthy a then a else b.

(** [o.k]: [undefined] when the object has no such property. *)
Definition get (o : gmap JS.jsstring value) (k : String.string) : value :=
  default VUndefined (o !! JS.js k).

(** [{ ...base, ...o }]: the properties of [o] override those of [base]. *)
Definition spread_over (base o : gmap JS.jsstring value)
  : gmap JS.jsstring value := o ∪ base.

(** ** The document builder and the exporter ([parser.js]) *)

Module Parser.
Import Re.

Record stats : Type := Stats {
  totalParagraphs : nat;
  totalImages : nat;
  totalTocItems : nat;
  totalWords : nat
}.

Record document : Type := Document {
  metadata : gmap JS.jsstring value;
  tableOfContents : list tocEntry;
  content : list block;
  images : list imageRef;
  doc_stats : stats
}.

(** [item.text ? item.text.split(/\s+/).length : 0] *)
Definition wordCount (item : block) : nat :=
  if JS.truthy (blk_text item)
  then length (split (plus space) (blk_text item))
  else 0%nat.

(** The metadata object literal before the spread of the caller's record. *)
Definition metadata_defaults (metadata : gmap JS.jsstring value)
  : gmap JS.jsstring value :=
  list_to_map
    [(JS.js "title", or_value (get metadata "title") (VStr []));
     (JS.js "author", or_value (get metadata "author") (VStr []));
     (JS.js "creator", or_value (get metadata "creator") (VStr []));
     (JS.js "subject", or_value (get metadata "subject") (VStr []));
     (JS.js "keywords", or_value (get metadata "keywords") (VStr []));
     (JS.js "creationDate", or_value (get metadata "creationDate") VNull);
     (JS.js "modificationDate",
        or_value (get metadata "modificationDate") VNull);
     (JS.js "language",
        or_value (get metadata "language") (VStr (JS.js "zh-CN")))].

(** [createDocumentStructure(metadata, content, images, toc)] *)
Definition createDocumentStructure (metadata : gmap JS.jsstring value)
  (content : list block) (images : list imageRef) (toc : list tocEntry)
  : document :=
  Document (spread_over (metadata_defaults metadata) metadata)
    toc content images
    (Stats (length content) (length images) (length toc)
       (fold_left (fun sum item => (sum + wordCount item)%nat) content 0%nat)).

(** [generateUniqueId()]: [timestamp] is the reading of [Date.now()], the
    global [idCounter] is passed in and out. *)
Definition generateUniqueId (timestamp idCounter : N) : JS.jsstring * N :=
  let idCounter := (idCounter + 1) mod 10000 in
  let timestampPart := JS.slice_last 12 (JS.of_N timestamp) in
  let counterPart := JS.padStart 4 48 (JS.of_N idCounter) in
  (timestampPart ++ counterPart, idCounter).

(** [generateBookId()], [uuid] being the result of [randomUUID()]. *)
Definition generateBookId (uuid : JS.jsstring) : JS.jsstring :=
  replace_all (chr 45) (fun _ => []) uuid.

Definition excludeKeywords : list JS.jsstring :=
  map JS.js ["cover"; "title page"; "copyright"; "contents"; "toc";
             "dedication"; "preview"; "special preview"]%string.
Definition excludeIds : list JS.jsstring :=
  map JS.js ["cvi"; "cvt"; "tp"; "cop"; "toc"; "ded"; "fm1"; "fm2"; "fm3";
             "bm1"; "c011"]%string.

(** [isValidChapter(tocItem)] *)
Definition isValidChapter (tocItem : tocEntry) : bool :=
  let title := JS.toLowerCase (toc_title tocItem) in
  let id := JS.toLowerCase (default [] (toc_id tocItem)) in
  if existsb (JS.eqb id) excludeIds then false
  else negb (existsb (fun keyword => JS.includes title keyword)
               excludeKeywords).

(** [chapterNameToFileName(name)] *)
Definition chapterNameToFileName (name : JS.jsstring) : JS.jsstring :=
  let t := JS.toLowerCase name in
  let t := replace_all                                 (* /[^a-z0-9\s]/g *)
             (Cls (fun c => negb (JS.is_lower c || JS.is_digit c
                                  || JS.is_space c)))
             (fun _ => []) t in
  let t := replace_all (plus space) (fun _ => JS.js "_") t in   (* /\s+/g *)
  let t := replace_first                        (* /^chapter\s*(\d+)/i *)
             (seq [Bol; lit_i (JS.js "chapter"); star space;
                   Grp 1 (plus digit)])
             (fun m => JS.js "chapter_" ++ group 1 m) t in
  JS.slice 0 50 t.

(** A chapter of the export. *)
Record chapter : Type := Chapter {
  ch_name : JS.jsstring;
  ch_file : JS.jsstring;
  ch_index : nat;
  ch_zh : JS.jsstring;
  ch_tocId : option JS.jsstring
}.

(** An entry of a page, a chapter file and the book manifest. *)
Record pageEntry : Type := PageEntry {
  en : JS.jsstring;
  zh : JS.jsstring;
  entry_id : JS.jsstring
}.
Record chapterData : Type := ChapterData {
  cd_name : JS.jsstring;
  cd_zh : JS.jsstring;
  pages : list (list pageEntry)
}.
Record bookInfo : Type := BookInfo {
  bi_name : value;
  bi_zh : JS.jsstring;
  bi_summary : value;
  bi_cover : JS.jsstring;
  bi_chapters : list (JS.jsstring * JS.jsstring * nat * JS.jsstring);
  bi_filePath : JS.jsstring;
  bi_bookId : JS.jsstring
}.

(** What [fs.writeFile] is given: the object that is serialised. *)
Inductive fileData : Type :=
| BookInfoFile (b : bookInfo)
| ChapterFile (c : chapterData).

(** [path.join(dir, name)] for a resolved directory and a plain file name. *)
Definition path_join (dir name : JS.jsstring) : JS.jsstring :=
  if JS.eqb dir (JS.js "/") then dir ++ name else dir ++ JS.js "/" ++ name.

(** The chapters made from the table of contents (source lines 501-511). *)
Definition chapterOfToc (index : nat) (tocItem : tocEntry) : chapter :=
  Chapter
    (JS.or_else (toc_title tocItem) (JS.js "Chapter " ++ JS.of_nat (index + 1)))
    (JS.or_else (chapterNameToFileName (toc_title tocItem))
       (JS.js "chapter_" ++ JS.of_nat (index + 1)))
    (index + 1) [] (toc_id tocItem).

(** The chapters found on the content blocks (source lines 516-529):
    [chapterMap] as the list of its entries, in insertion order. *)
Definition chapterMap_has (chapterMap : list (JS.jsstring * chapter))
  (key : JS.jsstring) : bool :=
  existsb (fun e => JS.eqb (fst e) key) chapterMap.

Definition collectChapter (chapterMap : list (JS.jsstring * chapter))
  (item : block) : list (JS.jsstring * chapter) :=
  match blk_chapter item with
  | Some c =>
      if JS.truthy c && negb (chapterMap_has chapterMap c) then
        let size := length chapterMap in
        let chapterName :=
          JS.or_else (blk_text item)
            (JS.js "Chapter "
               ++ JS.of_nat (match blk_chapterIndex item with
                             | Some (S n) => S n
                             | _ => size + 1
                             end)) in
        let fileName :=
          JS.or_else (chapterNameToFileName chapterName)
            (JS.js "chapter_" ++ JS.of_nat (size + 1)) in
        chapterMap ++ [(c, Chapter chapterName fileName (size + 1) [] (Some c))]
      else chapterMap
  | None => chapterMap
  end.

Definition defaultChapter : chapter :=
  Chapter (JS.js "Chapter 1") (JS.js "chapter_1") 1 [] (Some (JS.js "default")).

(** [validChapters] (source lines 501-542). *)
Definition validChapters (tableOfContents : list tocEntry)
  (content : list block) : list chapter :=
  let allTocItems := List.filter isValidChapter tableOfContents in
  let chapters := imap chapterOfToc allTocItems in
  let chapters :=
    if Nat.eqb (length chapters) 0
    then chapters ++ map snd (fold_left collectChapter content [])
    else chapters in
  if Nat.eqb (length chapters) 0 then chapters ++ [defaultChapter]
  else chapters.

(** [contentByChapter] (source lines 565-585): a [Map] from [tocId]
    ([None] is the key [undefined]) to the blocks of the chapter. *)
Definition assignItem (chapters : list chapter)
  (contentByChapter : gmap (option JS.jsstring) (list block)) (item : block)
  : gmap (option JS.jsstring) (list block) :=
  let chapterId :=
    Some (JS.or_else (default [] (blk_chapter item)) (JS.js "default")) in
  match contentByChapter !! chapterId with
  | Some items => <[chapterId := items ++ [item]]> contentByChapter
  | None =>
      let defaultChapterId :=
        match head chapters with
        | Some ch =>
            Some (JS.or_else (default [] (ch_tocId ch)) (JS.js "default"))
        | None => Some (JS.js "default")
        end in
      let m :=
        match contentByChapter !! defaultChapterId with
        | Some _ => contentByChapter
        | None => <[defaultChapterId := []]> contentByChapter
        end in
      <[defaultChapterId := default [] (m !! defaultChapterId) ++ [item]]> m
  end.

Definition contentByChapter (chapters : list chapter) (content : list block)
  : gmap (option JS.jsstring) (list block) :=
  fold_left (assignItem chapters) content
    (fold_left (fun m ch => <[ch_tocId ch := []]> m) chapters ∅).

(** The clock and the counter behind [generateUniqueId]: [now n] is the
    reading of [Date.now()] at the [n]-th call of the export. *)
Record idState : Type := IdState { idCounter : N; calls : nat }.

Section Exporter.
Variable now : nat -> N.

(** One block of a chapter (source lines 597-606). *)
Definition pushEntry (acc : list pageEntry * idState) (item : block)
  : list pageEntry * idState :=
  let '(currentPage, st) := acc in
  if JS.truthy (blk_text item) && JS.truthy (JS.trim (blk_text item)) then
    let '(id, c) := generateUniqueId (now (calls st)) (idCounter st) in
    (currentPage ++ [PageEntry (JS.trim (blk_text item)) [] id],
     IdState c (S (calls st)))
  else acc.

(** The pages of one chapter (source lines 590-614). *)
Definition chapterPages (chapterContent : list block) (st : idState)
  : list (list pageEntry) * idState :=
  let '(currentPage, st') := fold_left pushEntry chapterContent ([], st) in
  (if Nat.ltb 0 (length currentPage) then [currentPage] else [[]], st').

(** What the export returns, with the files it wrote, in order of writing. *)
Record exportResult : Type := ExportResult {
  bookInfoPath : JS.jsstring;
  chapterFiles : list JS.jsstring;
  bookId : JS.jsstring;
  written : list (JS.jsstring * fileData);
  final : idState
}.

(** The loop over the chapters (source lines 589-627). *)
Definition writeChapter (fullOutputDir : JS.jsstring)
  (byChapter : gmap (option JS.jsstring) (list block))
  (acc : list JS.jsstring * list (JS.jsstring * fileData) * idState)
  (ch : chapter)
  : list JS.jsstring * list (JS.jsstring * fileData) * idState :=
  let '(files, writes, st) := acc in
  let chapterContent := default [] (byChapter !! ch_tocId ch) in
  let '(pages, st') := chapterPages chapterContent st in
  let chapterFilePath :=
    path_join fullOutputDir (ch_file ch ++ JS.js ".json") in
  (files ++ [chapterFilePath],
   writes ++ [(chapterFilePath, ChapterFile (ChapterData (ch_name ch) [] pages))],
   st').

(** [generateBookInfoFiles(document, outputDir, filePath)]:
    [fullOutputDir] is [path.resolve(outputDir)], [uuid] the result of
    [randomUUID()] and [st] the state of the identifier generator. *)
Definition generateBookInfoFiles (doc : document)
  (fullOutputDir filePath uuid : JS.jsstring) (st : idState) : exportResult :=
  let bookId := generateBookId uuid in
  let chapters := validChapters (tableOfContents doc) (content doc) in
  let info :=
    BookInfo (or_value (get (metadata doc) "title") (VStr (JS.js "Untitled")))
      [] (or_value (get (metadata doc) "description") (VStr []))
      []
      (map (fun ch => (ch_name ch, ch_file ch, ch_index ch, ch_zh ch)) chapters)
      filePath bookId in
  let bookInfoPath := path_join fullOutputDir (JS.js "bookinfo.json") in
  let byChapter := contentByChapter chapters (content doc) in
  let '(files, writes, st') :=
    fold_left (writeChapter fullOutputDir byChapter) chapters
      ([], [(bookInfoPath, BookInfoFile info)], st) in
  ExportResult bookInfoPath files bookId writes st'.

End Exporter.

End Parser.

(** ** The standalone generator ([uniqueId.js]) *)

Module UniqueId.

(** [generateUniqueId()]: [timestamp] is the reading of [Date.now()] and
    [random] the value of [Math.floor(Math.random() * 10)], a digit. *)
Definition generateUniqueId (timestamp random : N) : JS.jsstring :=
  let idCounter := (random + 1) mod 10000 in
  let timestampPart := JS.slice_last 12 (JS.of_N timestamp) in
  let counterPart := JS.padStart 4 48 (JS.of_N idCounter) in
  timestampPart ++ counterPart.

End UniqueId.

(** ** Exceptions *)

Inductive error : Type := TypeError | RangeError.

(** The completion of a computation: a value, or a thrown error. *)
Inductive completion (A : Type) : Type :=
| Normal (a : A)
| Throw (e : error).
Arguments Normal {A} a.
Arguments Throw {A} e.

Definition bind {A B} (c : completion A) (f : A -> completion B)
  : completion B :=
  match c with Normal a => f a | Throw e => Throw e end.

(** [try { body } catch { handler }] *)
Definition try_catch {A} (body : completion A) (handler : completion A)
  : completion A :=
  match body with Normal a => Normal a | Throw _ => handler end.

(** ** The built-in [Date] (as in V8, the engine of Node.js) *)

Module JSDate.
Local Open Scope Z_scope.

Definition msPerDay : Z := 86400000.

(** ECMAScript's day number of the first day of a year, and leap years. *)
Definition DayFromYear (y : Z) : Z :=
  365 * (y - 1970) + (y - 1969) / 4 - (y - 1901) / 100 + (y - 1601) / 400.
Definition InLeapYear (y : Z) : bool :=
  (y mod 4 =? 0) && (negb (y mod 100 =? 0) || (y mod 400 =? 0)).

(** The day within the year of the first day of month [m] (0 to 11). *)
Definition month_start (leap : bool) (m : Z) : Z :=
  nth (Z.to_nat m) [0; 31; 59; 90; 120; 151; 181; 212; 243; 273; 304; 334] 0
  + (if leap && (2 <=? m) then 1 else 0).

(** [MakeDay(year, month, date)] for a month from 0 to 11, [MakeTime] and
    [MakeDate]. *)
Definition MakeDay (year month date : Z) : Z :=
  DayFromYear year + month_start (InLeapYear year) month + date - 1.
Definition MakeTime (hour min sec ms : Z) : Z :=
  hour * 3600000 + min * 60000 + sec * 1000 + ms.
Definition MakeDate (day time : Z) : Z := day * msPerDay + time.

(** [TimeClip]: [None] is NaN, the time value of an invalid date. *)
Definition TimeClip (t : Z) : option Z :=
  if Z.abs t <=? 8640000000000000 then Some t else None.

Definition digit_value (c : N) : Z := Z.of_N c - 48.
Definition two (a b : N) : Z := 10 * digit_value a + digit_value b.

(** [new Date(s)] for a string of the complete form
    [YYYY-MM-DDTHH:mm:ssZ], the only one [safeParseDate] builds: the time
    value, or [None] for an invalid date. The month must be 01 to 12, the
    day 01 to 31 (a day past the end of the month rolls over into the next
    month), the hour 00 to 23, or 24 with minutes and seconds 00, the
    minutes and seconds 00 to 59. *)
Definition parse (s : JS.jsstring) : option Z :=
  match s with
  | [y1; y2; y3; y4; p1; m1; m2; p2; a1; a2; pT; h1; h2; q1; n1; n2; q2;
     s1; s2; pZ] =>
      if JS.eqb [p1; p2; pT; q1; q2; pZ] (JS.js "--T::Z")
         && forallb JS.is_digit [y1; y2; y3; y4; m1; m2; a1; a2; h1; h2;
                                 n1; n2; s1; s2]
      then
        let year := 100 * two y1 y2 + two y3 y4 in
        let month := two m1 m2 in
        let day := two a1 a2 in
        let hour := two h1 h2 in
        let min := two n1 n2 in
        let sec := two s1 s2 in
        if (1 <=? month) && (month <=? 12) && (1 <=? day) && (day <=? 31)
           && (hour <=? 24) && (min <=? 59) && (sec <=? 59)
           && ((hour <? 24) || ((min =? 0) && (sec =? 0)))
        then TimeClip (MakeDate (MakeDay year (month - 1) day)
                         (MakeTime hour min sec 0))
        else None
      else None
  | _ => None
  end.

(** The civil date of a day number: year, month (1 to 12) and day of the
    month; [from_doe] is the part that depends on the day of the 400-year
    era only (the year of the era, counted from March). *)
Definition from_doe (doe : Z) : Z * Z * Z :=
  let yoe := (doe - doe / 1460 + doe / 36524 - doe / 146096) / 365 in
  let doy := doe - (365 * yoe + yoe / 4 - yoe / 100) in
  let mp := (5 * doy + 2) / 153 in
  let d := doy - (153 * mp + 2) / 5 + 1 in
  let m := if mp <? 10 then mp + 3 else mp - 9 in
  (yoe, m, d).
Definition civil (day : Z) : Z * Z * Z :=
  let z := day + 719468 in
  let '(yoe, m, d) := from_doe (z mod 146097) in
  (yoe + z / 146097 * 400 + (if m <=? 2 then 1 else 0), m, d).

(** A number padded with zeros to [n] digits. *)
Definition pad (n : nat) (v : Z) : JS.jsstring :=
  JS.padStart n 48 (JS.of_N (Z.to_N v)).

(** The year of an ISO string: four digits from 0 to 9999, otherwise a
    sign and six digits. *)
Definition year_string (y : Z) : JS.jsstring :=
  if (0 <=? y) && (y <=? 9999) then pad 4 y
  else (if y <? 0 then JS.js "-" else JS.js "+") ++ pad 6 (Z.abs y).

(** [d.toISOString()]: a RangeError for an invalid date. *)
Definition toISOString (d : option Z) : completion JS.jsstring :=
  match d with
  | None => Throw RangeError
  | Some t =>
      let '(y, m, dd) := civil (t / msPerDay) in
      let time := t mod msPerDay in
      Normal (year_string y ++ JS.js "-" ++ pad 2 m ++ JS.js "-" ++ pad 2 dd
                ++ JS.js "T" ++ pad 2 (time / 3600000) ++ JS.js ":"
                ++ pad 2 (time / 60000 mod 60) ++ JS.js ":"
                ++ pad 2 (time / 1000 mod 60) ++ JS.js "."
                ++ pad 3 (time mod 1000) ++ JS.js "Z")
  end.

End JSDate.

(** ** Dates of the PDF metadata ([pdfParser.js]) *)

Module PdfDate.
Import Re.

(** The string handed to [new Date] (source lines 12-13). *)
Definition cleaned (dateStr : JS.jsstring) : JS.jsstring :=
  JS.padEnd 14 48
    (replace_all (Cls (fun c => negb (JS.is_digit c))) (fun _ => []) (* /[^\d]/g *)
       (replace_first (seq [Bol; lit (JS.js "D:")]) (fun _ => [])   (* /^D:/ *)
          dateStr)).
Definition iso (dateStr : JS.jsstring) : JS.jsstring :=
  let c := cleaned dateStr in
  JS.slice 0 4 c ++ JS.js "-" ++ JS.slice 4 6 c ++ JS.js "-" ++ JS.slice 6 8 c
    ++ JS.js "T" ++ JS.slice 8 10 c ++ JS.js ":" ++ JS.slice 10 12 c
    ++ JS.js ":" ++ JS.slice 12 14 c ++ JS.js "Z".

(** [safeParseDate(dateStr)]. A value that is not a string has no
    [replace] method: calling it throws a TypeError. *)
Definition safeParseDate (dateStr : value) : completion value :=
  if negb (truthy dateStr) then Normal VNull
  else
    try_catch
      (bind (match dateStr with
             | VStr s => Normal s
             | _ => Throw TypeError
             end) (fun s =>
       bind (JSDate.toISOString (JSDate.parse (iso s))) (fun r =>
       Normal (VStr r))))
      (Normal VNull).

End PdfDate.

(** * Properties *)

(** ** The plain-text segmenter on a small input *)

Module TxtExample.

(** ["Chapter 1\n\nHello world.\n\nChapter 2\n\nBye."] *)
Definition input : JS.jsstring :=
  JS.js "Chapter 1" ++ [10; 10] ++ JS.js "Hello world." ++ [10; 10]
    ++ JS.js "Chapter 2" ++ [10; 10] ++ JS.js "Bye.".

(** What is read of a block: its type, text and level. *)
Definition view (b : block) : block_type * JS.jsstring * option nat :=
  (blk_type b, blk_text b, blk_level b).

(** The blocks the specification expects. *)
Definition expected : list (block_type * JS.jsstring * option nat) :=
  [(heading, JS.js "Chapter 1", Some 1%nat);
   (paragraph, JS.js "Hello world.", None);
   (heading, JS.js "Chapter 2", Some 1%nat);
   (paragraph, JS.js "Bye.", None)].

(** The lines after the two chapter titles are short and hold neither 。
    nor ，: the last test of [isLikelyHeading] takes them for headings, an
    empty next line being falsy in the test before it. *)
Example hello_is_heading :
  Txt.isLikelyHeading (JS.js "Hello world.") (Some []) = true.
Proof. reflexivity. Qed.

Example bye_is_heading : Txt.isLikelyHeading (JS.js "Bye.") None = true.
Proof. reflexivity. Qed.

(** C2, as stated, fails: the segmenter does not produce the two
    paragraphs. *)
Lemma segmenter_example_not_expected :
  map view (fst (Txt.extractStructureFromText input)) <> expected.
Proof. vm_compute. discriminate. Qed.

(** C2 (amended): on this input the segmenter produces exactly four blocks,
    in order, all of them headings of level 1: "Chapter 1", "Hello world.",
    "Chapter 2" and "Bye.", with the identifiers heading_0 to heading_3;
    the table of contents is empty. *)
Theorem segmenter_example :
  Txt.extractStructureFromText input =
    ([Block (JS.js "heading_0") heading (JS.js "Chapter 1") (Some 1%nat)
        None None;
      Block (JS.js "heading_1") heading (JS.js "Hello world.") (Some 1%nat)
        None None;
      Block (JS.js "heading_2") heading (JS.js "Chapter 2") (Some 1%nat)
        None None;
      Block (JS.js "heading_3") heading (JS.js "Bye.") (Some 1%nat)
        None None],
     []).
Proof. vm_compute. reflexivity. Qed.

End TxtExample.

(** ** Empty blocks *)

Module EmptyBlocks.

(** C3: the markup extractor, on the fragment [<h1></h1>], emits a heading
    whose text is empty: the heading loop has no test of the stripped
    text, where the paragraph loop and the rescue path have one. *)
Theorem empty_heading_emitted :
  Epub.extractParagraphsFromHTML (JS.js "<h1></h1>") (JS.js "ch1") 0 =
    [Block (JS.js "ch1_heading_0") heading [] (Some 1%nat)
       (Some (JS.js "ch1")) (Some 0%nat)]
  /\ Forall (fun b => length (JS.trim (blk_text b)) = 0%nat)
       (Epub.extractParagraphsFromHTML (JS.js "<h1></h1>") (JS.js "ch1") 0).
Proof.
  vm_compute. split; [reflexivity|]. constructor; [reflexivity | constructor].
Qed.

End EmptyBlocks.

(** ** Order of the blocks of a fragment *)

Module FragmentOrder.
Import Re.

(** The markup of a fragment once the script and style elements are
    removed: what the two scans read. *)
Definition scanned (html : JS.jsstring) : JS.jsstring :=
  replace_all (Epub.re_element (JS.js "style")) (fun _ => [])
    (replace_all (Epub.re_element (JS.js "script")) (fun _ => []) html).

(** The texts of the heading spans and of the non-empty paragraph spans,
    each in the order of the matches. *)
Definition heading_texts (html : JS.jsstring) : list JS.jsstring :=
  map (fun m => Epub.stripHTML (group 2 m))
    (matchAll Epub.re_heading (scanned html)).
Definition paragraph_texts (html : JS.jsstring) : list JS.jsstring :=
  List.filter (fun t => Nat.ltb 0 (length t))
    (map (fun m => JS.trim (Epub.stripHTML (group 1 m)))
       (matchAll Epub.re_paragraph (scanned html))).

Definition view (b : block) : block_type * JS.jsstring :=
  (blk_type b, blk_text b).

Lemma fold_push_heading c i ms acc :
  map view (fold_left (Epub.push_heading c i) ms acc) =
    map view acc
      ++ map (fun m => (heading, Epub.stripHTML (group 2 m))) ms.
Proof.
  revert acc. induction ms as [|m ms IH]; intros acc; cbn [fold_left map].
  - now rewrite app_nil_r.
  - rewrite IH. unfold Epub.push_heading. rewrite map_app, <- app_assoc.
    reflexivity.
Qed.

Lemma fold_push_paragraph c i ms acc :
  map view (fold_left (Epub.push_paragraph c i) ms acc) =
    map view acc
      ++ map (pair paragraph)
           (List.filter (fun t => Nat.ltb 0 (length t))
              (map (fun m => JS.trim (Epub.stripHTML (group 1 m))) ms)).
Proof.
  revert acc. induction ms as [|m ms IH]; intros acc;
    cbn [fold_left map List.filter].
  - now rewrite app_nil_r.
  - rewrite IH. unfold Epub.push_paragraph.
    destruct (Nat.ltb 0 (length (JS.trim (Epub.stripHTML (group 1 m))))).
    + rewrite map_app, <- app_assoc. reflexivity.
    + reflexivity.
Qed.

(** The fragment [<p>Text.</p><h1>Intro</h1>]: the paragraph span starts at
    index 0 and the heading span at index 12. *)
Definition para_first : JS.jsstring := JS.js "<p>Text.</p><h1>Intro</h1>".

(** C7, as stated, fails: the paragraph span comes first in the markup
    and the heading is emitted first. *)
Lemma paragraph_before_heading_swapped :
  map m_index (matchAll Epub.re_paragraph para_first) = [0%nat]
  /\ map m_index (matchAll Epub.re_heading para_first) = [12%nat]
  /\ map view (Epub.extractParagraphsFromHTML para_first (JS.js "ch1") 0) =
       [(heading, JS.js "Intro"); (paragraph, JS.js "Text.")].
Proof. vm_compute. split; [|split]; reflexivity. Qed.

(** C7 (amended): the blocks of a fragment are its heading spans, in the
    order of the markup, followed by its non-empty paragraph spans, in the
    order of the markup; when there is none of either, they are the
    paragraphs of the rescue path. A heading keeps its place before a
    paragraph that follows it, and a paragraph that comes before a heading
    in the markup is emitted after it. *)
Theorem headings_then_paragraphs html c i :
  map view (Epub.extractParagraphsFromHTML html c i) =
    match heading_texts html, paragraph_texts html with
    | [], [] => map view (Epub.fallback c i (scanned html))
    | hs, ps => map (pair heading) hs ++ map (pair paragraph) ps
    end.
Proof.
  unfold Epub.extractParagraphsFromHTML. fold (scanned html).
  set (blocks := fold_left (Epub.push_paragraph c i) _ _).
  assert (Hv : map view blocks =
            map (pair heading) (heading_texts html)
              ++ map (pair paragraph) (paragraph_texts html)).
  { unfold blocks. rewrite fold_push_paragraph, fold_push_heading. simpl.
    unfold heading_texts. now rewrite map_map. }
  assert (Hl : length blocks =
            (length (heading_texts html) + length (paragraph_texts html))%nat).
  { rewrite <- (length_map view blocks), Hv, length_app, !length_map.
    reflexivity. }
  destruct (heading_texts html) as [|h hs], (paragraph_texts html) as [|p ps];
    simpl in Hl.
  - rewrite Hl. reflexivity.
  - rewrite Hl. simpl. exact Hv.
  - rewrite Hl. simpl. exact Hv.
  - rewrite Hl. simpl. exact Hv.
Qed.

End FragmentOrder.

(** ** The metadata of a built document *)

Module MetadataDefaults.

(** The eight fields the builder fills in, each with the value it takes
    when the caller's record has no such property. *)
Definition field_defaults : list (String.string * value) :=
  [("title", VStr []); ("author", VStr []); ("creator", VStr []);
   ("subject", VStr []); ("keywords", VStr []); ("creationDate", VNull);
   ("modificationDate", VNull); ("language", VStr (JS.js "zh-CN"))]%string.

(** The value of field [k] in the built metadata. *)
Definition built_field (metadata : gmap JS.jsstring value)
  (content : list block) (images : list imageRef) (toc : list tocEntry)
  (k : String.string) : option value :=
  Parser.metadata (Parser.createDocumentStructure metadata content images toc)
    !! JS.js k.

Ltac lookup_literal :=
  repeat (rewrite lookup_insert_ne by (vm_compute; discriminate));
  rewrite lookup_insert_eq.

Lemma defaults_lookup (metadata : gmap JS.jsstring value) :
  Forall (fun '(k, d) =>
            Parser.metadata_defaults metadata !! JS.js k =
              Some (or_value (get metadata k) d))
    field_defaults.
Proof.
  unfold Parser.metadata_defaults, field_defaults. simpl list_to_map.
  repeat constructor; lookup_literal; reflexivity.
Qed.

(** C9, as stated, fails: with no property supplied, [language] is
    "zh-CN", which is neither the empty string nor null. *)
Lemma language_default_not_empty :
  built_field ∅ [] [] [] "language" = Some (VStr (JS.js "zh-CN"))
  /\ VStr (JS.js "zh-CN") <> VStr [] /\ VStr (JS.js "zh-CN") <> VNull.
Proof.
  split; [|split; discriminate].
  unfold built_field, Parser.createDocumentStructure, spread_over. simpl.
  rewrite lookup_union_r by apply lookup_empty.
  pose proof (defaults_lookup ∅) as H. rewrite Forall_lookup in H.
  exact (H 7%nat (_, _) eq_refl).
Qed.

(** C9 (amended): in every document built by [createDocumentStructure],
    the fields title, author, creator, subject, keywords, creationDate,
    modificationDate and language are all present; a field the caller's
    record has holds the caller's value, and a field it has not holds the
    default: the empty string for title, author, creator, subject and
    keywords, null for creationDate and modificationDate, and "zh-CN" for
    language. *)
Theorem metadata_fields_present (metadata : gmap JS.jsstring value)
  (content : list block) (images : list imageRef) (toc : list tocEntry) :
  Forall (fun '(k, d) =>
            built_field metadata content images toc k =
              Some (default d (metadata !! JS.js k)))
    field_defaults.
Proof.
  pose proof (defaults_lookup metadata) as H.
  eapply Forall_impl; [exact H|]. intros [k d] Hk.
  unfold built_field, Parser.createDocumentStructure, spread_over. simpl.
  destruct (metadata !! JS.js k) as [v|] eqn:E.
  - now apply lookup_union_Some_l.
  - rewrite lookup_union_r by exact E. rewrite Hk.
    unfold get. rewrite E. reflexivity.
Qed.

End MetadataDefaults.

(** ** The statistics of a built document *)

Module Stats.
Import Re.

(** The number of whitespace-separated tokens of a text, in the words of
    the specification: the maximal runs of units that are not whitespace.
    [inside] tells whether the unit before belongs to a token. *)
Fixpoint tokens_from (inside : bool) (s : JS.jsstring) : nat :=
  match s with
  | [] => 0
  | c :: t =>
      if JS.is_space c then tokens_from false t
      else ((if inside then 0 else 1) + tokens_from true t)%nat
  end.
Definition tokenCount (s : JS.jsstring) : nat := tokens_from false s.

(** Whether a text starts, or ends, with whitespace. *)
Definition starts_with_space (s : JS.jsstring) : bool :=
  match s with c :: _ => JS.is_space c | [] => false end.
Definition ends_with_space (s : JS.jsstring) : bool :=
  match s with [] => false | _ :: _ => JS.is_space (List.last s 0) end.

(** The number of leading whitespace units. *)
Fixpoint lead (s : JS.jsstring) : nat :=
  match s with
  | c :: t => if JS.is_space c then S (lead t) else 0
  | [] => 0
  end.

(** The number of maximal runs of whitespace, [after] telling whether the
    unit before is whitespace. *)
Fixpoint runs_from (after : bool) (s : JS.jsstring) : nat :=
  match s with
  | [] => 0
  | c :: t =>
      if JS.is_space c then ((if after then 0 else 1) + runs_from true t)%nat
      else runs_from false t
  end.

Lemma lead_le_length s : (lead s <= length s)%nat.
Proof. induction s as [|c t IH]; simpl; [|destruct (JS.is_space c)]; lia. Qed.

Lemma rep_loop_step body greedy lo hi k fuel n st :
  rep_loop body greedy lo hi k (S fuel) n st =
    let stop := if Nat.leb lo n then k st else None in
    let more :=
      if match hi with Some h => Nat.leb h n | None => false end
      then None
      else body st (fun st1 =>
             if Nat.leb lo n && Nat.eqb (pos st1) (pos st) then None
             else rep_loop body greedy lo hi k fuel (S n) st1) in
    if greedy then or_try more stop else or_try stop more.
Proof. reflexivity. Qed.

Lemma rmatch_rep greedy lo hi r st k :
  rmatch (Rep greedy lo hi r) st k =
    rep_loop (rmatch r) greedy lo hi k (S (lo + length (rest st))) O st.
Proof. reflexivity. Qed.

Lemma rmatch_cls p st k :
  rmatch (Cls p) st k =
    match rest st with
    | c :: t => if p c then k (MState (S (pos st)) t (caps st)) else None
    | [] => None
    end.
Proof. reflexivity. Qed.

(** [\s+] with nothing after it reads the whole run of whitespace. *)
Lemma rep_space_greedy s : forall p cs n fuel,
  (lead s < fuel)%nat ->
  rep_loop (rmatch space) true 1 None Some fuel n (MState p s cs) =
    match lead s with
    | O => if Nat.leb 1 n then Some (MState p s cs) else None
    | S _ => Some (MState (p + lead s) (skipn (lead s) s) cs)
    end.
Proof.
  induction s as [|c t IH]; intros p cs n fuel Hf;
    (destruct fuel as [|f]; [lia|]);
    rewrite rep_loop_step; unfold space at 1; rewrite rmatch_cls;
    cbn [rest pos caps lead].
  - destruct (Nat.leb 1 n); reflexivity.
  - cbn [lead] in Hf. destruct (JS.is_space c) eqn:Hc.
    + replace (Nat.eqb (S p) p) with false
        by (symmetry; apply Nat.eqb_neq; lia).
      rewrite andb_false_r. fold space. rewrite IH by lia.
      replace (p + S (lead t))%nat with (S p + lead t)%nat by lia.
      destruct (lead t) eqn:Hl; cbn [skipn or_try Nat.leb].
      * now rewrite Nat.add_0_r.
      * reflexivity.
    + destruct (Nat.leb 1 n); reflexivity.
Qed.

Lemma match_at_spaces q s :
  match match_at (plus space) q s with
  | Some m => lead s <> 0%nat /\ m_end m = (q + lead s)%nat
  | None => lead s = 0%nat
  end.
Proof.
  unfold match_at, plus. rewrite rmatch_rep. cbn [rest].
  rewrite rep_space_greedy by (pose proof (lead_le_length s); lia).
  destruct (lead s); cbn [Nat.leb pos m_end];
    [reflexivity | split; [lia | reflexivity]].
Qed.

(** The pieces of [split(/\s+/)]: one more than the runs of whitespace. *)
Lemma split_from_length s :
  (forall p q w, (p <= q)%nat ->
     length (split_from (plus space) p q w 0 s) = S (runs_from false s))
  /\ (forall p q w, (p <= q + lead s)%nat ->
        length (split_from (plus space) p q w (lead s) s) =
          S (runs_from true s)).
Proof.
  induction s as [|c t [IHa IHb]]; [split; reflexivity|].
  assert (Ha : forall p q w, (p <= q)%nat ->
            length (split_from (plus space) p q w 0 (c :: t)) =
              S (runs_from false (c :: t))).
  { intros p q w Hpq. cbn [split_from runs_from Nat.add].
    pose proof (match_at_spaces q (c :: t)) as Hm. cbn [lead] in Hm.
    destruct (JS.is_space c) eqn:Hc;
      destruct (match_at (plus space) q (c :: t)) as [m|].
    - destruct Hm as [_ He].
      replace (Nat.eqb (m_end m) p) with false
        by (symmetry; apply Nat.eqb_neq; lia).
      replace (Nat.eqb (m_end m) q) with false
        by (symmetry; apply Nat.eqb_neq; lia).
      cbn [length]. replace (m_end m - q - 1)%nat with (lead t) by lia.
      rewrite IHb by lia. reflexivity.
    - discriminate.
    - destruct Hm as [Hm _]. now contradict Hm.
    - apply IHa. lia. }
  split; [exact Ha|].
  intros p q w. cbn [lead runs_from].
  destruct (JS.is_space c) eqn:Hc; intros Hp.
  - cbn [split_from Nat.add]. apply IHb. lia.
  - rewrite Ha by lia. cbn [runs_from]. now rewrite Hc.
Qed.

Lemma runs_after s :
  (runs_from true s + Nat.b2n (starts_with_space s))%nat = runs_from false s.
Proof. destruct s as [|c t]; simpl; [|destruct (JS.is_space c)]; simpl; lia. Qed.

Lemma tokens_inside c t :
  (tokens_from true (c :: t) + Nat.b2n (negb (JS.is_space c)))%nat =
    tokens_from false (c :: t).
Proof. simpl. destruct (JS.is_space c); simpl; lia. Qed.

(** Runs of whitespace and tokens alternate. *)
Lemma runs_tokens t : forall c,
  S (runs_from false (c :: t)) =
    (tokenCount (c :: t) + Nat.b2n (starts_with_space (c :: t))
       + Nat.b2n (ends_with_space (c :: t)))%nat.
Proof.
  unfold tokenCount. induction t as [|d u IH]; intros c.
  - simpl. destruct (JS.is_space c); reflexivity.
  - specialize (IH d).
    pose proof (runs_after (d :: u)) as Hr.
    pose proof (tokens_inside d u) as Ht.
    change (ends_with_space (c :: d :: u)) with (ends_with_space (d :: u)).
    cbn [runs_from tokens_from starts_with_space] in *.
    destruct (JS.is_space c), (JS.is_space d); simpl in *; lia.
Qed.

(** [item.text.split(/\s+/).length] for a text that is not empty. *)
Lemma split_length c t :
  length (split (plus space) (c :: t)) =
    (tokenCount (c :: t) + Nat.b2n (starts_with_space (c :: t))
       + Nat.b2n (ends_with_space (c :: t)))%nat.
Proof.
  unfold split. rewrite (proj1 (split_from_length (c :: t))) by lia.
  apply runs_tokens.
Qed.

(** The words [totalWords] counts for one block: none for an empty text,
    otherwise the tokens of the text, and one more for whitespace at its
    start and one more for whitespace at its end. *)
Definition counted (s : JS.jsstring) : nat :=
  match s with
  | [] => 0
  | _ :: _ =>
      (tokenCount s + Nat.b2n (starts_with_space s)
         + Nat.b2n (ends_with_space s))%nat
  end.

Lemma wordCount_counted b : Parser.wordCount b = counted (blk_text b).
Proof.
  unfold Parser.wordCount, counted. destruct (blk_text b) as [|c t].
  - reflexivity.
  - cbn [JS.truthy]. apply split_length.
Qed.

Lemma fold_sum (f : block -> nat) l : forall acc,
  fold_left (fun sum item => (sum + f item)%nat) l acc =
    (acc + list_sum (map f l))%nat.
Proof.
  induction l as [|x l IH]; intros acc; simpl; [lia|]. rewrite IH. lia.
Qed.

(** A block whose text starts with a blank. *)
Definition padded : block :=
  Block (JS.js "para_0") paragraph (JS.js " a") None None None.

(** C5, as stated, fails: the text " a" has one token and counts for two
    words. *)
Lemma leading_space_counted_twice :
  Parser.totalWords
    (Parser.doc_stats (Parser.createDocumentStructure ∅ [padded] [] []))
    = 2%nat
  /\ list_sum (map (fun b => tokenCount (blk_text b)) [padded]) = 1%nat.
Proof. split; reflexivity. Qed.

(** C5 (amended): for every metadata record, content array, images array
    and toc array, the document built by [createDocumentStructure] has
    totalParagraphs = content.length, totalImages = images.length,
    totalTocItems = tableOfContents.length, and totalWords = the sum over
    the content blocks of the length of [text.split(/\s+/)]: nothing for
    an empty text, otherwise the number of whitespace-separated tokens of
    the text, plus one when the text starts with whitespace and plus one
    when it ends with whitespace. *)
Theorem stats_derived (metadata : gmap JS.jsstring value)
  (content : list block) (images : list imageRef) (toc : list tocEntry) :
  let st :=
    Parser.doc_stats
      (Parser.createDocumentStructure metadata content images toc) in
  Parser.totalParagraphs st = length content
  /\ Parser.totalImages st = length images
  /\ Parser.totalTocItems st = length toc
  /\ Parser.totalWords st =
       list_sum (map (fun b => counted (blk_text b)) content).
Proof.
  cbn. repeat split. rewrite fold_sum. cbn.
  f_equal. apply map_ext. exact wordCount_counted.
Qed.

End Stats.

(** ** The files of an export *)

Module ExportFiles.
Import Parser.

Section Files.
Variable now : nat -> N.

(** The path of the file of a chapter. *)
Definition chapter_path (dir : JS.jsstring) (ch : chapter) : JS.jsstring :=
  path_join dir (ch_file ch ++ JS.js ".json").

Lemma path_join_inj dir a b : path_join dir a = path_join dir b -> a = b.
Proof.
  unfold path_join. destruct (JS.eqb dir (JS.js "/")); intros H.
  - now apply app_inv_head in H.
  - now do 2 apply app_inv_head in H.
Qed.

(** The loop over the chapters, one component at a time. *)
Lemma writeChapter_files dir byChapter chapters : forall files writes st,
  (fold_left (writeChapter now dir byChapter) chapters (files, writes, st)).1.1
    = files ++ map (chapter_path dir) chapters.
Proof.
  induction chapters as [|ch chapters IH]; intros files writes st; simpl.
  - now rewrite app_nil_r.
  - destruct (chapterPages now _ st) as [pages st'] eqn:E.
    rewrite IH, <- app_assoc. reflexivity.
Qed.

Lemma chapterFiles_eq doc dir filePath uuid st :
  chapterFiles (generateBookInfoFiles now doc dir filePath uuid st) =
    map (chapter_path dir)
      (validChapters (tableOfContents doc) (content doc)).
Proof.
  unfold generateBookInfoFiles.
  match goal with
  | |- context [fold_left ?f ?l ?a] =>
      pose proof (writeChapter_files dir
                    (contentByChapter
                       (validChapters (tableOfContents doc) (content doc))
                       (content doc))
                    l [] (snd (fst a)) st) as H;
      destruct (fold_left f l a) as [[files writes] st'] eqn:E
  end.
  cbn [snd fst] in H. rewrite E in H. exact H.
Qed.

End Files.

(** Two entries of a table of contents whose titles differ by a final
    exclamation mark. *)
Definition twin_toc : list tocEntry :=
  [TocEntry (JS.js "Part One") None 1 (Some (JS.js "part1")) (Some 0%nat);
   TocEntry (JS.js "Part One!") None 1 (Some (JS.js "part2")) (Some 1%nat)].
Definition twin_doc : document :=
  createDocumentStructure ∅ [] [] twin_toc.


(** A chapter made from a title at its index (source lines 502-510 and
    518-526): its name is the title, or Chapter <index> for an empty
    title; its slug is [chapterNameToFileName] of the title, or
    chapter_<index> when that is empty, and nothing is added to it. *)
Definition made_from (title : JS.jsstring) (ch : chapter) : Prop :=
  ch_name ch =
    JS.or_else title (JS.js "Chapter " ++ JS.of_nat (ch_index ch))
  /\ ch_file ch =
       JS.or_else (chapterNameToFileName title)
         (JS.js "chapter_" ++ JS.of_nat (ch_index ch)).

Lemma chapterOfToc_made index tocItem :
  made_from (toc_title tocItem) (chapterOfToc index tocItem).
Proof. split; reflexivity. Qed.

Lemma imap_made (f : nat -> tocEntry -> chapter) l :
  (forall i t, exists title, made_from title (f i t)) ->
  Forall (fun ch => exists title, made_from title ch) (imap f l).
Proof.
  revert f. induction l as [|t l IH]; intros f Hf; [apply Forall_nil_2|].
  cbn [imap]. apply Forall_cons. split; [apply Hf|].
  apply IH. intros i t'. apply Hf.
Qed.

Lemma collectChapter_made chapterMap item :
  Forall (fun e => exists title, made_from title (snd e)) chapterMap ->
  Forall (fun e => exists title, made_from title (snd e))
    (collectChapter chapterMap item).
Proof.
  intros H. unfold collectChapter.
  destruct (blk_chapter item) as [c|]; [|exact H].
  destruct (_ && _); [|exact H]. cbv zeta.
  apply Forall_app. split; [exact H|].
  apply Forall_cons. split; [|apply Forall_nil_2]. cbn [snd].
  eexists. split; [|reflexivity]. cbn [ch_name ch_index].
  set (name := JS.or_else (blk_text item) _).
  assert (Hname : JS.truthy name = true).
  { subst name. unfold JS.or_else.
    destruct (JS.truthy (blk_text item)) eqn:E; [exact E | reflexivity]. }
  unfold JS.or_else at 1. now rewrite Hname.
Qed.

Lemma collect_made content : forall chapterMap,
  Forall (fun e => exists title, made_from title (snd e)) chapterMap ->
  Forall (fun e => exists title, made_from title (snd e))
    (fold_left collectChapter content chapterMap).
Proof.
  induction content as [|b content IH]; intros m H; [exact H|].
  apply IH, collectChapter_made, H.
Qed.

Lemma validChapters_made toc content :
  Forall (fun ch => exists title, made_from title ch)
    (validChapters toc content).
Proof.
  unfold validChapters.
  assert (Htoc : Forall (fun ch => exists title, made_from title ch)
                   (imap chapterOfToc (List.filter isValidChapter toc))).
  { apply imap_made. intros i t. eexists. apply chapterOfToc_made. }
  destruct (imap chapterOfToc (List.filter isValidChapter toc)) as [|ch chs];
    [|exact Htoc].
  cbn [length Nat.eqb app].
  pose proof (collect_made content [] (Forall_nil_2 _)) as Hc.
  destruct (map snd (fold_left collectChapter content [])) as [|c cs] eqn:E.
  - cbn [length Nat.eqb app]. apply Forall_cons. split; [|apply Forall_nil_2].
    exists []. split; reflexivity.
  - cbn [length Nat.eqb]. rewrite <- E. now apply Forall_fmap.
Qed.


End ExportFiles.

(** ** The export of a document without chapters *)

Module DefaultChapter.
Import Parser.

(** A block that carries no chapter identifier: the property is absent
    or is the empty string. *)
Definition chapterless (b : block) : Prop :=
  JS.truthy (default [] (blk_chapter b)) = false.

(** A block with non-empty trimmed text. *)
Definition has_text (b : block) : bool :=
  Nat.ltb 0 (length (JS.trim (blk_text b))).

Lemma trim_nil : JS.trim [] = [].
Proof. reflexivity. Qed.

(** The test of the page loop, [item.text && item.text.trim()]. *)
Lemma page_test b :
  JS.truthy (blk_text b) && JS.truthy (JS.trim (blk_text b)) = has_text b.
Proof.
  unfold has_text. destruct (blk_text b) as [|c t]; [reflexivity|].
  cbn [JS.truthy andb]. now destruct (JS.trim (c :: t)).
Qed.

Lemma collect_chapterless content : forall chapterMap,
  Forall chapterless content ->
  fold_left collectChapter content chapterMap = chapterMap.
Proof.
  induction content as [|b content IH]; intros chapterMap H; [reflexivity|].
  apply Forall_cons_1 in H as [Hb H]. simpl. rewrite <- (IH chapterMap H) at 2.
  f_equal. unfold collectChapter. unfold chapterless in Hb.
  destruct (blk_chapter b) as [c|]; [|reflexivity].
  simpl in Hb. now rewrite Hb.
Qed.

Lemma validChapters_default content :
  Forall chapterless content -> validChapters [] content = [defaultChapter].
Proof.
  intros H. unfold validChapters. cbn [List.filter imap length Nat.eqb app].
  now rewrite collect_chapterless.
Qed.

Definition default_key : option JS.jsstring := Some (JS.js "default").

Lemma assign_chapterless content :
  forall (m : gmap (option JS.jsstring) (list block)) items,
  Forall chapterless content ->
  m !! default_key = Some items ->
  fold_left (assignItem [defaultChapter]) content m !! default_key =
    Some (items ++ content).
Proof.
  induction content as [|b content IH]; intros m items H Hm.
  - now rewrite app_nil_r.
  - apply Forall_cons_1 in H as [Hb H]. cbn [fold_left].
    rewrite (IH _ (items ++ [b]) H).
    + now rewrite <- app_assoc.
    + unfold assignItem, JS.or_else. rewrite Hb. fold default_key.
      rewrite Hm. apply lookup_insert_eq.
Qed.

Section Pages.
Variable now : nat -> N.

Lemma pushEntry_en content : forall page st,
  map en (fold_left (pushEntry now) content (page, st)).1 =
    map en page
      ++ map (fun b => JS.trim (blk_text b)) (List.filter has_text content).
Proof.
  induction content as [|b content IH]; intros page st; cbn [fold_left].
  - now rewrite app_nil_r.
  - unfold pushEntry at 2. rewrite page_test.
    cbn [List.filter]. destruct (has_text b).
    + destruct (generateUniqueId _ _) as [id c].
      rewrite IH, map_app, <- app_assoc. reflexivity.
    + apply IH.
Qed.

(** A chapter always has exactly one page. *)
Lemma chapterPages_single content st :
  exists page,
    (chapterPages now content st).1 = [page]
    /\ map en page =
         map (fun b => JS.trim (blk_text b)) (List.filter has_text content).
Proof.
  unfold chapterPages.
  pose proof (pushEntry_en content [] st) as H.
  destruct (fold_left (pushEntry now) content ([], st)) as [page st'].
  cbn [fst map app] in H. exists page. split; [|exact H].
  destruct page; reflexivity.
Qed.

End Pages.

(** C8: if the table of contents of the document is empty and no content
    block carries a chapter identifier, the export has exactly one
    chapter, the synthesized default chapter "Chapter 1" with the slug
    chapter_1; its file is the only chapter file written and has a single
    page, whose entries are, in order, the trimmed texts of the content
    blocks with non-empty trimmed text. *)
Theorem default_chapter_export (now : nat -> N) (doc : document)
  (dir filePath uuid : JS.jsstring) (st : idState)
  (Htoc : tableOfContents doc = [])
  (Hcontent : Forall chapterless (content doc)) :
  let r := generateBookInfoFiles now doc dir filePath uuid st in
  let path := path_join dir (JS.js "chapter_1.json") in
  validChapters (tableOfContents doc) (content doc) = [defaultChapter]
  /\ chapterFiles r = [path]
  /\ exists info page,
       written r =
         [(bookInfoPath r, BookInfoFile info);
          (path, ChapterFile (ChapterData (JS.js "Chapter 1") [] [page]))]
       /\ bi_chapters info =
            [(JS.js "Chapter 1", JS.js "chapter_1", 1%nat, [])]
       /\ map en page =
            map (fun b => JS.trim (blk_text b))
              (List.filter has_text (content doc)).
Proof.
  intros r path. subst r.
  pose proof (validChapters_default _ Hcontent) as Hv.
  rewrite Htoc. split; [exact Hv|].
  unfold generateBookInfoFiles. rewrite Htoc, Hv.
  cbn [fold_left map]. unfold writeChapter.
  assert (Hb : contentByChapter [defaultChapter] (content doc)
                 !! ch_tocId defaultChapter = Some (content doc)).
  { unfold contentByChapter. cbn [fold_left].
    now rewrite (assign_chapterless _ _ [] Hcontent)
      by apply lookup_insert_eq. }
  rewrite Hb. change (default [] (Some (content doc))) with (content doc).
  destruct (chapterPages_single now (content doc) st) as (page & Hp & Hen).
  destruct (chapterPages now (content doc) st) as [pages st'].
  cbn [fst] in Hp. subst pages. cbn [chapterFiles written bookInfoPath app].
  split; [reflexivity|]. eexists _, page. repeat split. exact Hen.
Qed.

(** A document with an empty table of contents and three blocks without
    chapter identifier, the second one blank. *)
Definition plain_doc : document :=
  createDocumentStructure ∅
    [Block (JS.js "heading_0") heading (JS.js "Preface") (Some 1%nat)
       None None;
     Block (JS.js "para_1") paragraph (JS.js "  ") None None None;
     Block (JS.js "para_2") paragraph (JS.js " Hello world. ") None
       (Some []) None]
    [] [].

Lemma default_chapter_export_witness :
  tableOfContents plain_doc = []
  /\ Forall chapterless (content plain_doc)
  /\ chapterFiles
       (generateBookInfoFiles (fun _ => 1700000000000) plain_doc
          (JS.js "/out") (JS.js "book.txt") (JS.js "u-1") (IdState 0 0)) =
       [path_join (JS.js "/out") (JS.js "chapter_1.json")].
Proof.
  assert (Htoc : tableOfContents plain_doc = []) by reflexivity.
  assert (Hc : Forall chapterless (content plain_doc))
    by (repeat constructor).
  split; [exact Htoc|]. split; [exact Hc|].
  exact (proj1 (proj2 (default_chapter_export (fun _ => 1700000000000)
                         plain_doc (JS.js "/out") (JS.js "book.txt")
                         (JS.js "u-1") (IdState 0 0) Htoc Hc))).
Defined.

End DefaultChapter.

(** ** Block identifiers *)

Module Ids.

(** *** Decimal numerals *)

Lemma js_inj a : forall b, JS.js a = JS.js b -> a = b.
Proof.
  induction a as [|c a IH]; intros [|d b] H; simpl in H; try discriminate.
  - reflexivity.
  - injection H as Hc Hab. f_equal; [|now apply IH].
    rewrite <- (ascii_N_embedding c), <- (ascii_N_embedding d). now f_equal.
Qed.

Lemma of_nat_inj n m : JS.of_nat n = JS.of_nat m -> n = m.
Proof.
  unfold JS.of_nat, JS.of_N. intros H. apply js_inj in H.
  apply Nat2N.inj, DecimalN.Unsigned.to_uint_inj.
  pose proof (NilEmpty.usu (N.to_uint (N.of_nat n))) as Hn.
  pose proof (NilEmpty.usu (N.to_uint (N.of_nat m))) as Hm.
  rewrite H in Hn. congruence.
Qed.

Lemma uint_digits d :
  Forall (fun c => JS.is_digit c = true) (JS.js (NilEmpty.string_of_uint d)).
Proof. induction d; simpl; constructor; (reflexivity || assumption). Qed.

Lemma of_nat_digits n : Forall (fun c => JS.is_digit c = true) (JS.of_nat n).
Proof. apply uint_digits. Qed.

(** A numeral is read back from the end of a string up to the first unit
    that is not a digit. *)
Lemma digits_then_sep_inj (x : N) (a1 : JS.jsstring) :
  JS.is_digit x = false ->
  forall a2 r1 r2,
  Forall (fun c => JS.is_digit c = true) a1 ->
  Forall (fun c => JS.is_digit c = true) a2 ->
  a1 ++ x :: r1 = a2 ++ x :: r2 -> a1 = a2 /\ r1 = r2.
Proof.
  intros Hx. induction a1 as [|c a1 IH]; intros [|d a2] r1 r2 H1 H2 H;
    simpl in H.
  - split; congruence.
  - apply Forall_cons_1 in H2 as [Hd _]. congruence.
  - apply Forall_cons_1 in H1 as [Hd _]. congruence.
  - injection H as Hc H. subst d. apply Forall_cons_1 in H1 as [_ H1].
    apply Forall_cons_1 in H2 as [_ H2].
    destruct (IH a2 r1 r2 H1 H2 H) as [-> ->]. now split.
Qed.

(** The identifier made of a prefix, an underscore and a number. *)
Definition numbered_id (p : JS.jsstring) (n : nat) : JS.jsstring :=
  p ++ [95] ++ JS.of_nat n.

Lemma numbered_id_inj p1 p2 n1 n2 :
  numbered_id p1 n1 = numbered_id p2 n2 -> p1 = p2 /\ n1 = n2.
Proof.
  unfold numbered_id. intros H. apply (f_equal (@rev N)) in H.
  rewrite !rev_app_distr in H. cbn [rev app] in H. rewrite <- !app_assoc in H.
  cbn [app] in H.
  apply (digits_then_sep_inj 95) in H as [Hn Hp];
    [|reflexivity|apply Forall_rev, of_nat_digits..].
  split.
  - rewrite <- (rev_involutive p1), <- (rev_involutive p2). now f_equal.
  - apply of_nat_inj. rewrite <- (rev_involutive (JS.of_nat n1)),
      <- (rev_involutive (JS.of_nat n2)). now f_equal.
Qed.

(** *** Lists of identifiers numbered by position *)

(** The identifier at position [i] is a prefix of [ps] numbered [i]. *)
Definition numbered (ps : list JS.jsstring) (ids : list JS.jsstring) : Prop :=
  forall i x, ids !! i = Some x -> exists p, In p ps /\ x = numbered_id p i.

Lemma numbered_nil ps : numbered ps [].
Proof. intros i x H. discriminate. Qed.

Lemma numbered_snoc ps ids p :
  numbered ps ids -> In p ps ->
  numbered ps (ids ++ [numbered_id p (length ids)]).
Proof.
  intros Hn Hp i x H. destruct (decide (i < length ids)%nat) as [Hi|Hi].
  - rewrite lookup_app_l in H by exact Hi. now apply Hn.
  - rewrite lookup_app_r in H by lia.
    destruct (i - length ids)%nat as [|k] eqn:E; [|discriminate].
    injection H as <-. exists p. split; [exact Hp|]. f_equal. lia.
Qed.

Lemma numbered_NoDup ps ids : numbered ps ids -> NoDup ids.
Proof.
  intros Hn. apply NoDup_alt. intros i j x Hi Hj.
  destruct (Hn i x Hi) as (p & _ & ->). destruct (Hn j _ Hj) as (q & _ & E).
  now apply numbered_id_inj in E as [_ E].
Qed.

(** *** The plain-text segmenter *)

Definition txt_prefixes : list JS.jsstring := [JS.js "para"; JS.js "heading"].

Definition txt_inv (s : Txt.state) : Prop :=
  Txt.paragraphIndex s = length (Txt.paragraphs s)
  /\ numbered txt_prefixes (map blk_id (Txt.paragraphs s)).

Lemma txt_push s (b : block) p :
  txt_inv s -> In p txt_prefixes ->
  blk_id b = numbered_id p (Txt.paragraphIndex s) ->
  Txt.paragraphIndex s = length (Txt.paragraphs s)
  /\ numbered txt_prefixes (map blk_id (Txt.paragraphs s ++ [b])).
Proof.
  intros [Hi Hn] Hp Hb. split; [exact Hi|].
  rewrite map_app. cbn [map]. rewrite Hb, Hi, <- (length_map blk_id).
  now apply numbered_snoc.
Qed.

Lemma txt_flush s : txt_inv s -> txt_inv (Txt.flush s).
Proof.
  intros H. unfold Txt.flush. destruct (Nat.ltb 0 _); [|exact H].
  destruct (txt_push s (Block (Txt.para_id (Txt.paragraphIndex s)) paragraph
                          (JS.trim (Txt.currentParagraph s)) None None None)
              (JS.js "para") H) as [Hi Hn]; [now left | reflexivity |].
  split; [|exact Hn]. cbn [Txt.paragraphIndex Txt.paragraphs].
  rewrite length_app, Hi. cbn [length]. lia.
Qed.

Lemma txt_body_step line next s :
  txt_inv s -> txt_inv (Txt.body_step line next s).
Proof.
  intros H. unfold Txt.body_step.
  destruct (Nat.eqb (length line) 0); [now apply txt_flush|].
  destruct (Txt.isLikelyHeading line next); [|exact H].
  apply txt_flush in H. set (s1 := Txt.flush s) in *.
  destruct (txt_push s1 (Block (Txt.heading_id (Txt.paragraphIndex s1))
                           heading line
                           (Some (Txt.estimateHeadingLevel line)) None None)
              (JS.js "heading") H) as [Hi Hn];
    [right; now left | reflexivity |].
  split; [|exact Hn]. cbn [Txt.paragraphIndex Txt.paragraphs].
  rewrite length_app, Hi. cbn [length]. lia.
Qed.

Lemma txt_step raw next s : txt_inv s -> txt_inv (Txt.step raw next s).
Proof.
  intros H. unfold Txt.step. destruct (_ || _); [exact H|].
  destruct (if Txt.inTOCSection s then _ else _); [exact H|].
  apply txt_body_step. exact H.
Qed.

Lemma txt_loop lines : forall s, txt_inv s -> txt_inv (Txt.loop lines s).
Proof.
  induction lines as [|raw rest IH]; intros s H; [exact H|].
  apply IH, txt_step, H.
Qed.

Lemma txt_ids_NoDup text :
  NoDup (map blk_id (fst (Txt.extractStructureFromText text))).
Proof.
  unfold Txt.extractStructureFromText. cbn [fst].
  eapply numbered_NoDup, txt_flush, txt_loop.
  split; [reflexivity | apply numbered_nil].
Qed.

(** *** The page-text extractor *)

Definition pdf_inv (s : Pdf.state) : Prop :=
  Pdf.id s = length (Pdf.paragraphs s)
  /\ numbered txt_prefixes (map blk_id (Pdf.paragraphs s)).

Lemma pdf_push s (b : block) p :
  pdf_inv s -> In p txt_prefixes ->
  blk_id b = numbered_id p (Pdf.id s) ->
  forall c, pdf_inv (Pdf.State (Pdf.paragraphs s ++ [b]) c (S (Pdf.id s))).
Proof.
  intros [Hi Hn] Hp Hb c. split; cbn [Pdf.id Pdf.paragraphs].
  - rewrite length_app, Hi. cbn [length]. lia.
  - rewrite map_app. cbn [map]. rewrite Hb, Hi, <- (length_map blk_id).
    now apply numbered_snoc.
Qed.

Lemma pdf_flush s : pdf_inv s -> pdf_inv (Pdf.flush s).
Proof.
  intros H. unfold Pdf.flush. destruct (JS.truthy _); [|exact H].
  apply (pdf_push s _ (JS.js "para") H); [now left | reflexivity].
Qed.

Lemma pdf_step raw next s : pdf_inv s -> pdf_inv (Pdf.step raw next s).
Proof.
  intros H. unfold Pdf.step. destruct (negb _); [exact H|].
  destruct (Pdf.isHeading _ _); [|exact H].
  apply (pdf_push _ _ (JS.js "heading") (pdf_flush s H));
    [right; now left | reflexivity].
Qed.

Lemma pdf_loop lines : forall s, pdf_inv s -> pdf_inv (Pdf.loop lines s).
Proof.
  induction lines as [|raw rest IH]; intros s H; [exact H|].
  apply IH, pdf_step, H.
Qed.

Lemma pdf_ids_NoDup text : NoDup (map blk_id (Pdf.extractParagraphs text)).
Proof.
  unfold Pdf.extractParagraphs.
  eapply numbered_NoDup, pdf_flush, pdf_loop.
  split; [reflexivity | apply numbered_nil].
Qed.

(** *** The markup extractor, one fragment *)

Definition epub_prefixes (c : JS.jsstring) : list JS.jsstring :=
  [c ++ JS.js "_para"; c ++ JS.js "_heading"].

Lemma epub_para_id c n :
  Epub.para_id c n = numbered_id (c ++ JS.js "_para") n.
Proof. unfold Epub.para_id, numbered_id. now rewrite <- app_assoc. Qed.

Lemma epub_heading_id c n :
  Epub.heading_id c n = numbered_id (c ++ JS.js "_heading") n.
Proof. unfold Epub.heading_id, numbered_id. now rewrite <- app_assoc. Qed.

Lemma epub_push_heading c i ms : forall acc,
  numbered (epub_prefixes c) (map blk_id acc) ->
  numbered (epub_prefixes c)
    (map blk_id (fold_left (Epub.push_heading c i) ms acc)).
Proof.
  induction ms as [|m ms IH]; intros acc H; [exact H|].
  cbn [fold_left]. apply IH. unfold Epub.push_heading.
  rewrite map_app. cbn [map blk_id].
  rewrite epub_heading_id, <- (length_map blk_id).
  apply numbered_snoc; [exact H | right; now left].
Qed.

Lemma epub_push_paragraph c i ms : forall acc,
  numbered (epub_prefixes c) (map blk_id acc) ->
  numbered (epub_prefixes c)
    (map blk_id (fold_left (Epub.push_paragraph c i) ms acc)).
Proof.
  induction ms as [|m ms IH]; intros acc H; [exact H|].
  cbn [fold_left]. apply IH. unfold Epub.push_paragraph.
  destruct (Nat.ltb 0 _); [|exact H].
  rewrite map_app. cbn [map blk_id].
  rewrite epub_para_id, <- (length_map blk_id).
  apply numbered_snoc; [exact H | now left].
Qed.

(** The rescue path numbers the lines it keeps by their position. *)
Lemma fallback_ids c (f : nat * JS.jsstring -> list block) lines :
  (forall idx line, In line lines ->
     map blk_id (f (idx, line)) = [Epub.para_id c idx]) ->
  forall start,
  map blk_id (flat_map f (combine (List.seq start (length lines)) lines)) =
    map (Epub.para_id c) (List.seq start (length lines)).
Proof.
  induction lines as [|l lines IH]; intros Hf start; [reflexivity|].
  cbn [length List.seq combine flat_map map]. rewrite map_app.
  rewrite Hf by now left. cbn [app]. f_equal.
  apply IH. intros idx line Hl. apply Hf. now right.
Qed.

Lemma epub_fallback c i text :
  numbered (epub_prefixes c) (map blk_id (Epub.fallback c i text)).
Proof.
  unfold Epub.fallback.
  set (lines := List.filter _ _).
  rewrite (fallback_ids c).
  - intros k x H. rewrite list_lookup_fmap in H.
    destruct (List.seq 0 (length lines) !! k) as [n|] eqn:E; [|discriminate].
    apply lookup_seq in E as [-> _]. injection H as <-.
    exists (c ++ JS.js "_para"). split; [now left | apply epub_para_id].
  - intros idx line Hl. apply filter_In in Hl as [_ Hl]. now rewrite Hl.
Qed.

Lemma epub_fragment_numbered html c i :
  numbered (epub_prefixes c)
    (map blk_id (Epub.extractParagraphsFromHTML html c i)).
Proof.
  unfold Epub.extractParagraphsFromHTML.
  destruct (Nat.eqb _ 0); [apply epub_fallback|].
  apply epub_push_paragraph, epub_push_heading, numbered_nil.
Qed.

Lemma epub_fragment_NoDup html c i :
  NoDup (map blk_id (Epub.extractParagraphsFromHTML html c i)).
Proof. eapply numbered_NoDup, epub_fragment_numbered. Qed.

(** *** The markup extractor, all fragments *)

(** An identifier made by the extractor for the fragment [c]. *)
Definition id_of (c x : JS.jsstring) : Prop :=
  exists p n, In p (epub_prefixes c) /\ x = numbered_id p n.

Lemma fragment_id_of html c i :
  Forall (id_of c) (map blk_id (Epub.extractParagraphsFromHTML html c i)).
Proof.
  apply Forall_lookup. intros k x H.
  destruct (epub_fragment_numbered html c i k x H) as (p & Hp & ->).
  now exists p, k.
Qed.

(** An identifier names its fragment. *)
Lemma id_of_fragment c1 c2 x : id_of c1 x -> id_of c2 x -> c1 = c2.
Proof.
  intros (p1 & n1 & H1 & ->) (p2 & n2 & H2 & E).
  apply numbered_id_inj in E as [-> _].
  destruct H1 as [<-|[<-|[]]], H2 as [E|[E|[]]].
  - now apply app_inv_tail in E.
  - apply (f_equal (@rev N)) in E. rewrite !rev_app_distr in E. discriminate.
  - apply (f_equal (@rev N)) in E. rewrite !rev_app_distr in E. discriminate.
  - now apply app_inv_tail in E.
Qed.

Lemma extractContent_loop_NoDup getChapter flow :
  forall content idx result,
  NoDup flow ->
  NoDup (map blk_id content) ->
  (forall x c, In x (map blk_id content) -> In c flow -> ~ id_of c x) ->
  Epub.extractContent_loop getChapter flow content idx = Some result ->
  NoDup (map blk_id result).
Proof.
  induction flow as [|c rest IH]; intros content idx result Hflow Hnd Hfresh H.
  - injection H as <-. exact Hnd.
  - apply NoDup_cons in Hflow as [Hc Hrest]. cbn [Epub.extractContent_loop] in H.
    destruct (getChapter c) as [text|].
    + apply IH in H; [exact H | exact Hrest | |].
      * rewrite map_app. apply NoDup_app. split; [exact Hnd|]. split.
        -- intros x Hx Hx'. apply list_elem_of_In in Hx, Hx'.
           apply (Hfresh x c Hx); [now left|].
           pose proof (fragment_id_of text c idx) as Hf.
           rewrite Forall_forall in Hf. apply Hf. now apply list_elem_of_In.
        -- apply epub_fragment_NoDup.
      * intros x c' Hx Hc' Hid. rewrite map_app in Hx.
        apply in_app_or in Hx as [Hx|Hx].
        -- apply (Hfresh x c' Hx); [now right | exact Hid].
        -- pose proof (fragment_id_of text c idx) as Hf.
           rewrite Forall_forall in Hf.
           apply list_elem_of_In, Hf in Hx.
           rewrite (id_of_fragment _ _ _ Hx Hid) in Hc.
           apply Hc. now apply list_elem_of_In.
    + destruct rest as [|c' rest']; [discriminate|].
      apply IH in H; [exact H | exact Hrest | exact Hnd |].
      intros x c0 Hx Hc0. apply (Hfresh x c0 Hx). now right.
Qed.

(** C4: the identifiers of the blocks of one document's content array are
    pairwise distinct, on each of the three extraction paths: the
    plain-text segmenter, the page-text extractor of the PDF path, the
    markup extractor on one fragment, and the markup extractor over the
    fragments of a flow whose fragment identifiers are pairwise
    distinct. *)
Theorem block_ids_unique (text html chapterId : JS.jsstring)
  (chapterIndex : nat) (getChapter : JS.jsstring -> option JS.jsstring)
  (flow : list JS.jsstring) (content : list block)
  (Hflow : NoDup flow)
  (Hcontent : Epub.extractContent getChapter flow = Some content) :
  NoDup (map blk_id (fst (Txt.extractStructureFromText text)))
  /\ NoDup (map blk_id (Pdf.extractParagraphs text))
  /\ NoDup (map blk_id
              (Epub.extractParagraphsFromHTML html chapterId chapterIndex))
  /\ NoDup (map blk_id content).
Proof.
  split; [apply txt_ids_NoDup|]. split; [apply pdf_ids_NoDup|].
  split; [apply epub_fragment_NoDup|].
  apply (extractContent_loop_NoDup getChapter flow [] 0 content Hflow);
    [apply NoDup_nil_2 | | exact Hcontent].
  intros x c [].
Qed.

(** A flow of two fragments, and a text. *)
Definition sample_flow : list JS.jsstring := [JS.js "ch1"; JS.js "ch1_para"].
Definition sample_getChapter (c : JS.jsstring) : option JS.jsstring :=
  Some (JS.js "<h1>One</h1><p>First.</p><p>Second.</p>").
Definition sample_text : JS.jsstring :=
  JS.js "TITLE" ++ [10] ++ JS.js "1. one" ++ [10] ++ JS.js "body".

Lemma block_ids_unique_witness :
  NoDup sample_flow
  /\ NoDup (map blk_id (fst (Txt.extractStructureFromText sample_text)))
  /\ NoDup (map blk_id (Pdf.extractParagraphs sample_text))
  /\ NoDup (map blk_id
              (default [] (Epub.extractContent sample_getChapter sample_flow))).
Proof.
  assert (Hflow : NoDup sample_flow).
  { apply NoDup_cons. split; [|apply NoDup_singleton].
    intros H. apply list_elem_of_In in H. destruct H as [H|[]].
    discriminate. }
  destruct (Epub.extractContent sample_getChapter sample_flow) as [content|]
    eqn:E; [|discriminate].
  destruct (block_ids_unique sample_text [] [] 0 sample_getChapter
              sample_flow content Hflow E) as (Ht & Hp & _ & Hc).
  exact (conj Hflow (conj Ht (conj Hp Hc))).
Defined.

End Ids.

(** ** Generated identifiers *)

Module Identifiers.

(** The counter of the exporter's generator stays below 10000. *)
Lemma exporter_counter_range timestamp idCounter :
  snd (Parser.generateUniqueId timestamp idCounter) = (idCounter + 1) mod 10000
  /\ snd (Parser.generateUniqueId timestamp idCounter) < 10000.
Proof.
  cbn [Parser.generateUniqueId snd]. split; [reflexivity|]. now apply N.mod_lt.
Qed.

(** The suffix of a counter below 10000: four digits that read back as
    the counter. *)
Definition suffix_ok (c : N) : bool :=
  let s := JS.padStart 4 48 (JS.of_N c) in
  Nat.eqb (length s) 4 && forallb JS.is_digit s && (JS.parseInt s =? c).

Lemma suffix_ok_below :
  forallb suffix_ok (map N.of_nat (List.seq 0 (N.to_nat 10000))) = true.
Proof. vm_compute. reflexivity. Qed.

Lemma counter_suffix c :
  c < 10000 ->
  length (JS.padStart 4 48 (JS.of_N c)) = 4%nat
  /\ JS.parseInt (JS.padStart 4 48 (JS.of_N c)) = c.
Proof.
  intros Hc. pose proof suffix_ok_below as H. rewrite forallb_forall in H.
  specialize (H c). unfold suffix_ok in H.
  rewrite !andb_true_iff, Nat.eqb_eq, N.eqb_eq in H.
  destruct H as [[Hl _] Hp]; [|now split].
  apply in_map_iff. exists (N.to_nat c). split; [apply N2Nat.id|].
  apply in_seq. lia.
Qed.

(** Two calls of the exporter's generator in the same millisecond, at
    counters that step to different values, return the same first part and
    different four-digit suffixes. *)
Lemma exporter_same_ms_differ timestamp c1 c2 :
  (c1 + 1) mod 10000 <> (c2 + 1) mod 10000 ->
  exists prefix s1 s2,
    fst (Parser.generateUniqueId timestamp c1) = prefix ++ s1
    /\ fst (Parser.generateUniqueId timestamp c2) = prefix ++ s2
    /\ length s1 = 4%nat /\ length s2 = 4%nat /\ s1 <> s2.
Proof.
  intros Hne. cbn [Parser.generateUniqueId fst].
  destruct (counter_suffix ((c1 + 1) mod 10000)) as [L1 P1];
    [now apply N.mod_lt|].
  destruct (counter_suffix ((c2 + 1) mod 10000)) as [L2 P2];
    [now apply N.mod_lt|].
  eexists _, _, _. repeat split; [exact L1 | exact L2 |].
  intros E. apply Hne. rewrite <- P1, <- P2, E. reflexivity.
Qed.

(** The 16 digits of an identifier of the exporter at a reading of the
    clock of thirteen digits. *)
Example exporter_id :
  Parser.generateUniqueId 1443767254437 887 = (JS.js "4437672544370888", 888).
Proof. vm_compute. reflexivity. Qed.

(** C6: the standalone generator has no counter: its suffix is the random
    digit plus one, between 0001 and 0010. Two calls in the same
    millisecond that draw the same digit return the same identifier, so
    they do not differ in the suffix; here the clock reads 1700000000000
    and the digit drawn is 3, twice. *)
Theorem standalone_same_ms_collide :
  UniqueId.generateUniqueId 1700000000000 3 = JS.js "7000000000000004"
  /\ ~ NoDup [UniqueId.generateUniqueId 1700000000000 3;
              UniqueId.generateUniqueId 1700000000000 3]
  /\ Forall (fun random =>
               In (JS.slice_last 4
                     (UniqueId.generateUniqueId 1700000000000 random))
                 (map JS.js ["0001"; "0002"; "0003"; "0004"; "0005"; "0006";
                             "0007"; "0008"; "0009"; "0010"]%string))
       [0; 1; 2; 3; 4; 5; 6; 7; 8; 9].
Proof.
  split; [vm_compute; reflexivity|]. split.
  - intros H. apply NoDup_cons_1_1 in H. apply H. left.
  - repeat (apply Forall_cons; split; [vm_compute; intuition reflexivity|]).
    apply Forall_nil_2.
Qed.

End Identifiers.

(** ** Dates of the PDF metadata *)

Module SafeDate.
Import JSDate.
Local Open Scope Z_scope.

(** [n] decimal digits. *)
Definition digits (n : nat) (s : JS.jsstring) : Prop :=
  length s = n /\ Forall (fun c => JS.is_digit c = true) s.

(** The year of an ISO-8601 timestamp: four digits, or a sign and six
    digits (the expanded years of ECMAScript). *)
Definition iso_year (s : JS.jsstring) : Prop :=
  digits 4 s
  \/ exists sign r, s = sign :: r /\ (sign = 43%N \/ sign = 45%N) /\ digits 6 r.

(** An ISO-8601 timestamp [YYYY-MM-DDTHH:mm:ss.sssZ]. *)
Definition iso_timestamp (s : JS.jsstring) : Prop :=
  exists Y M D h m sec ms,
    s = Y ++ JS.js "-" ++ M ++ JS.js "-" ++ D ++ JS.js "T" ++ h ++ JS.js ":"
          ++ m ++ JS.js ":" ++ sec ++ JS.js "." ++ ms ++ JS.js "Z"
    /\ iso_year Y /\ digits 2 M /\ digits 2 D /\ digits 2 h /\ digits 2 m
    /\ digits 2 sec /\ digits 3 ms.

(** A check of all the integers from [v] on, [k] of them. *)
Fixpoint all_from (f : Z -> bool) (k : nat) (v : Z) : bool :=
  match k with
  | O => true
  | S k' => f v && all_from f k' (v + 1)
  end.

Lemma all_from_spec f k : forall v0,
  all_from f k v0 = true ->
  forall v, v0 <= v < v0 + Z.of_nat k -> f v = true.
Proof.
  induction k as [|k IH]; intros v0 H v Hv; [lia|].
  cbn [all_from] in H. apply andb_prop in H as [H0 H].
  destruct (Z.eq_dec v v0) as [->|Hne]; [exact H0|].
  apply (IH (v0 + 1) H). lia.
Qed.

Definition pad_ok (n : nat) (v : Z) : bool :=
  Nat.eqb (length (pad n v)) n && forallb JS.is_digit (pad n v).

Lemma pad_ok_digits n v : pad_ok n v = true -> digits n (pad n v).
Proof.
  unfold pad_ok. intros H. apply andb_prop in H as [Hl Hd].
  split; [now apply Nat.eqb_eq|].
  apply Forall_forall. intros c Hc. rewrite forallb_forall in Hd.
  apply Hd. now apply list_elem_of_In.
Qed.

Lemma pad2_checked : all_from (pad_ok 2) 100 0 = true.
Proof. vm_compute. reflexivity. Qed.
Lemma pad3_checked : all_from (pad_ok 3) 1000 0 = true.
Proof. vm_compute. reflexivity. Qed.
Lemma pad4_checked : all_from (pad_ok 4) (N.to_nat 10000) 0 = true.
Proof. vm_compute. reflexivity. Qed.

Lemma pad2_digits v : 0 <= v < 100 -> digits 2 (pad 2 v).
Proof.
  intros H. apply pad_ok_digits, (all_from_spec _ _ _ pad2_checked). lia.
Qed.
Lemma pad3_digits v : 0 <= v < 1000 -> digits 3 (pad 3 v).
Proof.
  intros H. apply pad_ok_digits, (all_from_spec _ _ _ pad3_checked). lia.
Qed.
Lemma pad4_digits v : 0 <= v < 10000 -> digits 4 (pad 4 v).
Proof.
  intros H. apply pad_ok_digits, (all_from_spec _ _ _ pad4_checked). lia.
Qed.

(** The civil date of each day of an era. *)
Definition from_doe_ok (doe : Z) : bool :=
  let '(yoe, m, d) := from_doe doe in
  (0 <=? yoe) && (yoe <=? 399) && (1 <=? m) && (m <=? 12) && (1 <=? d)
  && (d <=? 31) && ((doe <? 146037) || ((yoe =? 399) && (m <=? 2))).

Lemma from_doe_checked : all_from from_doe_ok (N.to_nat 146097) 0 = true.
Proof. vm_compute. reflexivity. Qed.

Lemma from_doe_bounds doe :
  0 <= doe < 146097 ->
  let '(yoe, m, d) := from_doe doe in
  0 <= yoe <= 399 /\ 1 <= m <= 12 /\ 1 <= d <= 31
  /\ (146037 <= doe -> yoe = 399 /\ m <= 2).
Proof.
  intros H. pose proof (all_from_spec _ _ _ from_doe_checked doe) as Hc.
  unfold from_doe_ok in Hc. destruct (from_doe doe) as [[yoe m] d].
  specialize (Hc ltac:(lia)).
  repeat (apply andb_prop in Hc as [Hc ?]).
  repeat split; lia.
Qed.

Lemma digit_value_range c :
  JS.is_digit c = true -> 0 <= digit_value c <= 9.
Proof.
  unfold JS.is_digit, JS.in_range, digit_value. intros H.
  apply andb_prop in H as [H1%N.leb_le H2%N.leb_le]. lia.
Qed.

(** The earliest and the latest time value [parse] returns: the first
    instant of the year 0 and the end of the second day of the year 10000
    (reached by no date, a bound). *)
Definition t_min : Z := -62167219200000.
Definition t_max : Z := 253402473600000.

Lemma parse_range s t : parse s = Some t -> t_min <= t < t_max.
Proof.
  unfold parse. do 20 (destruct s as [|? s]; [discriminate|]).
  destruct s; [|discriminate].
  match goal with
  | |- (if ?c then _ else _) = _ -> _ => destruct c eqn:E; [|discriminate]
  end.
  apply andb_prop in E as [_ E]. cbn [forallb] in E.
  repeat (apply andb_prop in E as [?%digit_value_range E]).
  match goal with
  | |- (if ?c then _ else _) = _ -> _ => destruct c eqn:C; [|discriminate]
  end.
  unfold TimeClip.
  match goal with
  | |- (if ?c then _ else _) = _ -> _ => destruct c; [|discriminate]
  end.
  intros [= <-].
  repeat (apply andb_prop in C as [C ?]).
  unfold two in *.
  set (year := 100 * _ + _) in *. set (month := 10 * _ + _) in *.
  assert (Hy : 0 <= year <= 9999) by (unfold year; lia).
  assert (Hmo : 1 <= month <= 12) by lia.
  clearbody year month.
  assert (Hm : 0 <= month_start (InLeapYear year) (month - 1) <= 335).
  { unfold month_start. destruct (InLeapYear year);
      assert (Hc : month = 1 \/ month = 2 \/ month = 3 \/ month = 4
                   \/ month = 5 \/ month = 6 \/ month = 7 \/ month = 8
                   \/ month = 9 \/ month = 10 \/ month = 11 \/ month = 12)
        by lia;
      repeat (destruct Hc as [->|Hc]; [split; apply Z.leb_le; reflexivity|]);
      subst; split; apply Z.leb_le; reflexivity. }
  unfold MakeDate, MakeDay, MakeTime, DayFromYear, msPerDay, t_min, t_max.
  Z.div_mod_to_equations. lia.
Qed.

(** The year of a time value in that range is between 0 and 10000. *)
Lemma civil_bounds t :
  t_min <= t < t_max ->
  let '(y, m, d) := civil (t / msPerDay) in
  0 <= y <= 10000 /\ 1 <= m <= 12 /\ 1 <= d <= 31.
Proof.
  intros Ht. unfold civil.
  set (z := t / msPerDay + 719468).
  assert (Hz : -60 <= z < 3652368)
    by (unfold z, t_min, t_max, msPerDay in *; Z.div_mod_to_equations; lia).
  pose proof (from_doe_bounds (z mod 146097)) as Hb.
  destruct (from_doe (z mod 146097)) as [[yoe m] d].
  destruct Hb as (Hy & Hm & Hd & Hlast); [apply Z.mod_pos_bound; lia|].
  split; [|now split].
  destruct (m <=? 2) eqn:Em; Z.div_mod_to_equations; lia.
Qed.

Lemma year_string_iso y : 0 <= y <= 10000 -> iso_year (year_string y).
Proof.
  intros Hy. unfold year_string.
  destruct (Z.eq_dec y 10000) as [->|Hne].
  - right. exists 43%N, (JS.js "010000").
    split; [vm_compute; reflexivity|]. split; [now left|].
    split; [reflexivity | repeat constructor].
  - replace ((0 <=? y) && (y <=? 9999)) with true by lia.
    left. apply pad4_digits. lia.
Qed.

(** The string of a valid date in that range is an ISO-8601 timestamp. *)
Lemma toISOString_iso t :
  t_min <= t < t_max ->
  exists s, toISOString (Some t) = Normal s /\ iso_timestamp s.
Proof.
  intros Ht. unfold toISOString.
  pose proof (civil_bounds t Ht) as Hc.
  destruct (civil (t / msPerDay)) as [[y m] d].
  destruct Hc as (Hy & Hm & Hd).
  eexists. split; [reflexivity|].
  assert (Hday : 0 <= t mod msPerDay < 86400000)
    by (apply Z.mod_pos_bound; reflexivity).
  set (time := t mod msPerDay) in *.
  do 7 eexists. split; [reflexivity|].
  split; [now apply year_string_iso|].
  repeat split; try (apply pad2_digits); try (apply pad3_digits);
    Z.div_mod_to_equations; lia.
Qed.

(** Whether a value is a string that reads as a valid date. *)
Definition parsable (dateStr : value) : bool :=
  match dateStr with
  | VStr s => match parse (PdfDate.iso s) with Some _ => true | None => false end
  | _ => false
  end.

(** The strings of the claim, none of which reads as a date. *)
Example unparsable_inputs :
  map PdfDate.safeParseDate
    [VNull; VUndefined; VStr []; VStr (JS.js "no digits");
     VStr (JS.js "D:20241345"); VNum 20240101; VBool true]
  = repeat (Normal VNull) 7.
Proof. vm_compute. reflexivity. Qed.

Example parsable_input :
  PdfDate.safeParseDate (VStr (JS.js "D:20240115102030+08'00'")) =
    Normal (VStr (JS.js "2024-01-15T10:20:30.000Z")).
Proof. vm_compute. reflexivity. Qed.


End SafeDate.

(** ** Trimmed text *)

Module Trimmed.
Import Stats.

(** A text with no whitespace at either end. *)
Definition clean (s : JS.jsstring) : Prop :=
  starts_with_space s = false /\ ends_with_space s = false.

Lemma drop_spaces_start s : starts_with_space (JS.drop_spaces s) = false.
Proof.
  induction s as [|c t IH]; [reflexivity|]. simpl.
  destruct (JS.is_space c) eqn:E; [exact IH | simpl; exact E].
Qed.

Lemma drop_spaces_fixed s :
  starts_with_space s = false -> JS.drop_spaces s = s.
Proof. destruct s as [|c t]; [reflexivity|]. simpl. now intros ->. Qed.

(** [drop_spaces] keeps the end of a text it does not empty. *)
Lemma drop_spaces_last s :
  JS.drop_spaces s <> [] -> List.last (JS.drop_spaces s) 0 = List.last s 0.
Proof.
  induction s as [|c t IH]; [reflexivity|]. simpl.
  destruct (JS.is_space c); [|reflexivity].
  intros H. rewrite (IH H). destruct t; [now contradict H | reflexivity].
Qed.

Lemma ends_rev s : ends_with_space (rev s) = starts_with_space s.
Proof.
  destruct s as [|c t]; [reflexivity|]. unfold ends_with_space.
  simpl rev. rewrite last_last. destruct (rev t ++ [c]) eqn:E; [|reflexivity].
  now apply app_eq_nil in E as [_ E].
Qed.

Lemma starts_rev s : starts_with_space (rev s) = ends_with_space s.
Proof. rewrite <- (rev_involutive s) at 2. now rewrite ends_rev. Qed.

Lemma trim_clean s : clean (JS.trim s).
Proof.
  unfold clean, JS.trim. rewrite ends_rev, drop_spaces_start. split; [|reflexivity].
  rewrite starts_rev. unfold ends_with_space.
  destruct (JS.drop_spaces (rev (JS.drop_spaces s))) as [|c t] eqn:E;
    [reflexivity|].
  rewrite <- E, drop_spaces_last by (rewrite E; discriminate).
  pose proof (starts_rev (rev (JS.drop_spaces s))) as H.
  rewrite rev_involutive, drop_spaces_start in H.
  unfold ends_with_space in H.
  destruct (rev (JS.drop_spaces s)); [discriminate E | exact (eq_sym H)].
Qed.

Lemma clean_trim s : clean s -> JS.trim s = s.
Proof.
  intros [Hs He]. unfold JS.trim. rewrite (drop_spaces_fixed s Hs).
  rewrite drop_spaces_fixed by now rewrite starts_rev.
  apply rev_involutive.
Qed.

Lemma trim_idempotent s : JS.trim (JS.trim s) = JS.trim s.
Proof. apply clean_trim, trim_clean. Qed.

Lemma last_of_app (l1 l2 : JS.jsstring) d :
  l2 <> [] -> List.last (l1 ++ l2) d = List.last l2 d.
Proof.
  intros H. induction l1 as [|x l1 IH]; [reflexivity|].
  cbn [app]. destruct (l1 ++ l2) eqn:E; [|exact IH].
  now apply app_eq_nil in E as [_ E].
Qed.

(** Two clean texts that are not empty, joined by a blank. *)
Lemma clean_join a b :
  a <> [] -> b <> [] -> clean a -> clean b -> clean (a ++ [32] ++ b).
Proof.
  intros Ha Hb [Hsa _] [_ Heb]. split.
  - destruct a; [now contradict Ha | exact Hsa].
  - unfold ends_with_space in *. destruct b as [|c t]; [now contradict Hb|].
    replace (a ++ [32] ++ c :: t) with ((a ++ [32]) ++ c :: t)
      by now rewrite <- app_assoc.
    destruct ((a ++ [32]) ++ c :: t) eqn:E;
      [now apply app_eq_nil in E as [_ E]|].
    rewrite <- E. rewrite last_of_app by discriminate. exact Heb.
Qed.

(** A block whose text is not empty and has no whitespace at either end. *)
Definition well_formed (b : block) : Prop :=
  blk_text b <> [] /\ clean (blk_text b).

Lemma nonempty_of_length (s : JS.jsstring) :
  Nat.ltb 0 (length s) = true -> s <> [].
Proof. destruct s; [discriminate | discriminate]. Qed.

(** *** The plain-text segmenter *)

Lemma txt_flush_wf s :
  Forall well_formed (Txt.paragraphs s) ->
  Forall well_formed (Txt.paragraphs (Txt.flush s)).
Proof.
  intros H. unfold Txt.flush.
  destruct (Nat.ltb 0 _) eqn:E; [|exact H].
  cbn [Txt.paragraphs]. apply Forall_app. split; [exact H|].
  apply Forall_cons. split; [|apply Forall_nil_2].
  split; [now apply nonempty_of_length | apply trim_clean].
Qed.

Lemma txt_body_step_wf line next s :
  clean line ->
  Forall well_formed (Txt.paragraphs s) ->
  Forall well_formed (Txt.paragraphs (Txt.body_step line next s)).
Proof.
  intros Hl H. unfold Txt.body_step.
  destruct (Nat.eqb (length line) 0) eqn:E; [now apply txt_flush_wf|].
  destruct (Txt.isLikelyHeading line next); [|exact H].
  cbn [Txt.paragraphs]. apply Forall_app. split; [now apply txt_flush_wf|].
  apply Forall_cons. split; [|apply Forall_nil_2].
  split; [|exact Hl]. cbn [blk_text]. intros ->. discriminate E.
Qed.

Lemma txt_step_wf raw next s :
  Forall well_formed (Txt.paragraphs s) ->
  Forall well_formed (Txt.paragraphs (Txt.step raw next s)).
Proof.
  intros H. unfold Txt.step. destruct (_ || _); [exact H|].
  destruct (if Txt.inTOCSection s then _ else _); [exact H|].
  apply txt_body_step_wf; [apply trim_clean | exact H].
Qed.

Lemma txt_loop_wf lines : forall s,
  Forall well_formed (Txt.paragraphs s) ->
  Forall well_formed (Txt.paragraphs (Txt.loop lines s)).
Proof.
  induction lines as [|raw rest IH]; intros s H; [exact H|].
  apply IH, txt_step_wf, H.
Qed.

(** X1: every block of the plain-text segmenter, heading or paragraph, has a
    text that is not empty and has no whitespace at either end. *)
Theorem txt_blocks_well_formed text :
  Forall (fun b => blk_text b <> [] /\ JS.trim (blk_text b) = blk_text b)
    (fst (Txt.extractStructureFromText text)).
Proof.
  unfold Txt.extractStructureFromText. cbn [fst].
  eapply Forall_impl; [apply txt_flush_wf, txt_loop_wf, Forall_nil_2|].
  intros b [Hn Hc]. split; [exact Hn | now apply clean_trim].
Qed.

(** *** The page-text extractor *)

Definition pdf_wf (s : Pdf.state) : Prop :=
  Forall well_formed (Pdf.paragraphs s)
  /\ (Pdf.current s = [] \/ clean (Pdf.current s)).

Lemma truthy_nonempty (s : JS.jsstring) : JS.truthy s = true -> s <> [].
Proof. destruct s; [discriminate | discriminate]. Qed.

Lemma pdf_flush_wf s : pdf_wf s -> pdf_wf (Pdf.flush s).
Proof.
  intros [H Hc]. unfold Pdf.flush.
  destruct (JS.truthy (Pdf.current s)) eqn:E; [|now split].
  split; [|now left]. cbn [Pdf.paragraphs].
  apply Forall_app. split; [exact H|].
  apply Forall_cons. split; [|apply Forall_nil_2].
  pose proof (truthy_nonempty _ E) as Hn.
  split; [exact Hn|]. now destruct Hc.
Qed.

Lemma pdf_step_wf raw next s : pdf_wf s -> pdf_wf (Pdf.step raw next s).
Proof.
  intros H. unfold Pdf.step.
  destruct (JS.truthy (JS.trim raw)) eqn:E; cbn [negb]; [|exact H].
  pose proof (truthy_nonempty _ E) as Hn.
  pose proof (trim_clean raw) as Hl.
  destruct (Pdf.isHeading _ _).
  - destruct (pdf_flush_wf s H) as [Hp Hc]. split; [|exact Hc].
    cbn [Pdf.paragraphs]. apply Forall_app. split; [exact Hp|].
    apply Forall_cons. split; [now split | apply Forall_nil_2].
  - destruct H as [Hp Hc]. split; [exact Hp|]. right. cbn [Pdf.current].
    destruct (JS.truthy (Pdf.current s)) eqn:Et.
    + apply clean_join; [now apply truthy_nonempty | exact Hn | | exact Hl].
      destruct Hc as [Hc|Hc]; [rewrite Hc in Et; discriminate | exact Hc].
    + destruct (Pdf.current s); [exact Hl | discriminate].
Qed.

Lemma pdf_loop_wf lines : forall s, pdf_wf s -> pdf_wf (Pdf.loop lines s).
Proof.
  induction lines as [|raw rest IH]; intros s H; [exact H|].
  apply IH, pdf_step_wf, H.
Qed.

(** X2: every block of the page-text extractor has a text that is not empty
    and has no whitespace at either end. *)
Theorem pdf_blocks_well_formed text :
  Forall (fun b => blk_text b <> [] /\ JS.trim (blk_text b) = blk_text b)
    (Pdf.extractParagraphs text).
Proof.
  unfold Pdf.extractParagraphs.
  eapply Forall_impl;
    [apply pdf_flush_wf, pdf_loop_wf; split; [apply Forall_nil_2 | now left]|].
  intros b [Hn Hc]. split; [exact Hn | now apply clean_trim].
Qed.

(** *** The markup extractor *)

(** The text of a block is clean, and not empty unless the block is a
    heading. *)
Definition epub_wf (b : block) : Prop :=
  clean (blk_text b) /\ (blk_type b = paragraph -> blk_text b <> []).

Lemma stripHTML_clean html : clean (Epub.stripHTML html).
Proof. unfold Epub.stripHTML. apply trim_clean. Qed.

Lemma epub_headings_wf c i ms : forall acc,
  Forall epub_wf acc ->
  Forall epub_wf (fold_left (Epub.push_heading c i) ms acc).
Proof.
  induction ms as [|m ms IH]; intros acc H; [exact H|].
  cbn [fold_left]. apply IH. unfold Epub.push_heading.
  apply Forall_app. split; [exact H|].
  apply Forall_cons. split; [|apply Forall_nil_2].
  split; [apply stripHTML_clean | discriminate].
Qed.

Lemma epub_paragraphs_wf c i ms : forall acc,
  Forall epub_wf acc ->
  Forall epub_wf (fold_left (Epub.push_paragraph c i) ms acc).
Proof.
  induction ms as [|m ms IH]; intros acc H; [exact H|].
  cbn [fold_left]. apply IH. unfold Epub.push_paragraph.
  destruct (Nat.ltb 0 _) eqn:E; [|exact H].
  apply Forall_app. split; [exact H|].
  apply Forall_cons. split; [|apply Forall_nil_2].
  split; [apply trim_clean | intros _; now apply nonempty_of_length].
Qed.

Lemma epub_fallback_wf c i text : Forall epub_wf (Epub.fallback c i text).
Proof.
  unfold Epub.fallback. apply Forall_flat_map, Forall_forall.
  intros [idx line] _.
  destruct (Nat.ltb 0 _) eqn:E; [|apply Forall_nil_2].
  apply Forall_cons. split; [|apply Forall_nil_2].
  split; [apply trim_clean | intros _; now apply nonempty_of_length].
Qed.

(** X3: every block of the markup extractor has a text with no whitespace at
    either end, and every paragraph block has a text that is not empty:
    only a heading can have an empty text. *)
Theorem epub_paragraphs_nonempty html c i :
  Forall (fun b => JS.trim (blk_text b) = blk_text b
                   /\ (blk_type b = paragraph -> blk_text b <> []))
    (Epub.extractParagraphsFromHTML html c i).
Proof.
  eapply Forall_impl with (P := epub_wf).
  - unfold Epub.extractParagraphsFromHTML.
    destruct (Nat.eqb _ 0); [apply epub_fallback_wf|].
    apply epub_paragraphs_wf, epub_headings_wf, Forall_nil_2.
  - intros b [Hc Hn]. split; [now apply clean_trim | exact Hn].
Qed.

(** *** Word counts of extracted documents *)

Lemma counted_clean s : clean s -> counted s = tokenCount s.
Proof.
  intros [Hs He]. unfold counted. destruct s as [|c t]; [reflexivity|].
  rewrite Hs, He. cbn [Nat.b2n]. lia.
Qed.

Lemma totalWords_clean metadata content images toc :
  Forall (fun b => clean (blk_text b)) content ->
  Parser.totalWords
    (Parser.doc_stats
       (Parser.createDocumentStructure metadata content images toc)) =
    list_sum (map (fun b => tokenCount (blk_text b)) content).
Proof.
  intros H. cbn [Parser.createDocumentStructure Parser.doc_stats
                  Parser.totalWords].
  rewrite fold_sum. cbn [Nat.add]. f_equal. apply map_ext_Forall.
  eapply Forall_impl; [exact H|]. intros b Hb.
  rewrite wordCount_counted. now apply counted_clean.
Qed.

(** X4: for the content of each of the three extractors, the totalWords of the
    built document is the number of whitespace-separated tokens of its
    blocks. *)
Theorem totalWords_of_extracted metadata images toc text html c i :
  let words content :=
    Parser.totalWords
      (Parser.doc_stats
         (Parser.createDocumentStructure metadata content images toc)) in
  let tokens content :=
    list_sum (map (fun b => tokenCount (blk_text b)) content) in
  words (fst (Txt.extractStructureFromText text)) =
    tokens (fst (Txt.extractStructureFromText text))
  /\ words (Pdf.extractParagraphs text) = tokens (Pdf.extractParagraphs text)
  /\ words (Epub.extractParagraphsFromHTML html c i) =
       tokens (Epub.extractParagraphsFromHTML html c i).
Proof.
  intros words tokens. subst words tokens. cbv beta.
  split; [|split]; apply totalWords_clean.
  - unfold Txt.extractStructureFromText. cbn [fst].
    eapply Forall_impl; [apply txt_flush_wf, txt_loop_wf, Forall_nil_2|].
    now intros b [_ Hc].
  - unfold Pdf.extractParagraphs.
    eapply Forall_impl;
      [apply pdf_flush_wf, pdf_loop_wf; split; [apply Forall_nil_2 | now left]|].
    now intros b [_ Hc].
  - eapply Forall_impl with (P := epub_wf).
    + unfold Epub.extractParagraphsFromHTML.
      destruct (Nat.eqb _ 0); [apply epub_fallback_wf|].
      apply epub_paragraphs_wf, epub_headings_wf, Forall_nil_2.
    + now intros b [Hc _].
Qed.

End Trimmed.

(** ** Position, type and identifier of a block *)

Module BlockShape.

(** A property of each element of a list and its position. *)
Definition at_each {A} (P : nat -> A -> Prop) (l : list A) : Prop :=
  forall i x, l !! i = Some x -> P i x.

Lemma at_each_nil {A} (P : nat -> A -> Prop) : at_each P [].
Proof. intros i x H. discriminate. Qed.

Lemma at_each_snoc {A} (P : nat -> A -> Prop) l x :
  at_each P l -> P (length l) x -> at_each P (l ++ [x]).
Proof.
  intros Hl Hx i y H. destruct (decide (i < length l)%nat) as [Hi|Hi].
  - rewrite lookup_app_l in H by exact Hi. now apply Hl.
  - rewrite lookup_app_r in H by lia.
    destruct (i - length l)%nat as [|k] eqn:E; [|discriminate].
    injection H as <-. now replace i with (length l) by lia.
Qed.

Lemma at_each_Forall2 {A} (P : nat -> A -> Prop) l :
  at_each P l -> Forall2 P (List.seq 0 (length l)) l.
Proof.
  intros H. apply Forall2_same_length_lookup_2.
  - now rewrite length_seq.
  - intros i n x Hn Hx. apply lookup_seq in Hn as [-> _]. now apply H.
Qed.

(** The word for a type of block in an identifier. *)
Definition type_word (t : block_type) : JS.jsstring :=
  match t with heading => JS.js "heading" | paragraph => JS.js "para" end.

(** A block of the plain-text and page-text extractors at position [i]:
    its identifier names its type and its position, it has a level
    exactly when it is a heading, and it carries no chapter. *)
Definition plain_shape (i : nat) (b : block) : Prop :=
  blk_id b = type_word (blk_type b) ++ JS.js "_" ++ JS.of_nat i
  /\ (blk_type b = heading <-> is_Some (blk_level b))
  /\ blk_chapter b = None /\ blk_chapterIndex b = None.

Lemma plain_paragraph i text :
  plain_shape i (Block (Txt.para_id i) paragraph text None None None).
Proof.
  split; [reflexivity|]. split; [|now split].
  split; [discriminate | intros [x [=]]].
Qed.

Lemma plain_heading i text level :
  plain_shape i (Block (Txt.heading_id i) heading text (Some level) None None).
Proof.
  split; [reflexivity|]. split; [|now split]. split; [now eexists | reflexivity].
Qed.

Definition txt_shaped (s : Txt.state) : Prop :=
  Txt.paragraphIndex s = length (Txt.paragraphs s)
  /\ at_each plain_shape (Txt.paragraphs s).

Lemma txt_flush_shape s : txt_shaped s -> txt_shaped (Txt.flush s).
Proof.
  intros [Hi H]. unfold Txt.flush. destruct (Nat.ltb 0 _); [|now split].
  split; cbn [Txt.paragraphIndex Txt.paragraphs].
  - rewrite length_app, Hi. cbn [length]. lia.
  - apply at_each_snoc; [exact H|]. rewrite Hi. apply plain_paragraph.
Qed.

Lemma txt_body_step_shape line next s :
  txt_shaped s -> txt_shaped (Txt.body_step line next s).
Proof.
  intros H. unfold Txt.body_step.
  destruct (Nat.eqb (length line) 0); [now apply txt_flush_shape|].
  destruct (Txt.isLikelyHeading line next); [|exact H].
  destruct (txt_flush_shape s H) as [Hi Hs].
  split; cbn [Txt.paragraphIndex Txt.paragraphs].
  - rewrite length_app, Hi. cbn [length]. lia.
  - apply at_each_snoc; [exact Hs|]. rewrite Hi. apply plain_heading.
Qed.

Lemma txt_step_shape raw next s : txt_shaped s -> txt_shaped (Txt.step raw next s).
Proof.
  intros H. unfold Txt.step. destruct (_ || _); [exact H|].
  destruct (if Txt.inTOCSection s then _ else _); [exact H|].
  now apply txt_body_step_shape.
Qed.

Lemma txt_loop_shape lines : forall s, txt_shaped s -> txt_shaped (Txt.loop lines s).
Proof.
  induction lines as [|raw rest IH]; intros s H; [exact H|].
  apply IH, txt_step_shape, H.
Qed.

Definition pdf_shaped (s : Pdf.state) : Prop :=
  Pdf.id s = length (Pdf.paragraphs s)
  /\ at_each plain_shape (Pdf.paragraphs s).

Lemma pdf_flush_shape s : pdf_shaped s -> pdf_shaped (Pdf.flush s).
Proof.
  intros [Hi H]. unfold Pdf.flush. destruct (JS.truthy _); [|now split].
  split; cbn [Pdf.id Pdf.paragraphs].
  - rewrite length_app, Hi. cbn [length]. lia.
  - apply at_each_snoc; [exact H|]. rewrite Hi. apply plain_paragraph.
Qed.

Lemma pdf_step_shape raw next s : pdf_shaped s -> pdf_shaped (Pdf.step raw next s).
Proof.
  intros H. unfold Pdf.step. destruct (negb _); [exact H|].
  destruct (Pdf.isHeading _ _); [|exact H].
  destruct (pdf_flush_shape s H) as [Hi Hs].
  split; cbn [Pdf.id Pdf.paragraphs].
  - rewrite length_app, Hi. cbn [length]. lia.
  - apply at_each_snoc; [exact Hs|]. rewrite Hi. apply plain_heading.
Qed.

Lemma pdf_loop_shape lines : forall s, pdf_shaped s -> pdf_shaped (Pdf.loop lines s).
Proof.
  induction lines as [|raw rest IH]; intros s H; [exact H|].
  apply IH, pdf_step_shape, H.
Qed.

(** X5: in the content of the plain-text segmenter and of the page-text
    extractor, the block at position i has the identifier para_i when it
    is a paragraph and heading_i when it is a heading, has a level exactly
    when it is a heading, and carries no chapter. *)
Theorem plain_blocks_numbered text :
  let txt := fst (Txt.extractStructureFromText text) in
  let pdf := Pdf.extractParagraphs text in
  Forall2 plain_shape (List.seq 0 (length txt)) txt
  /\ Forall2 plain_shape (List.seq 0 (length pdf)) pdf.
Proof.
  split; apply at_each_Forall2.
  - refine (proj2 (txt_flush_shape _ (txt_loop_shape _ _ _))).
    split; [reflexivity | apply at_each_nil].
  - refine (proj2 (pdf_flush_shape _ (pdf_loop_shape _ _ _))).
    split; [reflexivity | apply at_each_nil].
Qed.

(** A block of the markup extractor for the fragment [c] of index [idx],
    at position [i]. *)
Definition fragment_shape (c : JS.jsstring) (idx i : nat) (b : block) : Prop :=
  blk_id b = c ++ JS.js "_" ++ type_word (blk_type b) ++ JS.js "_" ++ JS.of_nat i
  /\ (blk_type b = heading <-> is_Some (blk_level b))
  /\ blk_chapter b = Some c /\ blk_chapterIndex b = Some idx.

Lemma fragment_headings c idx ms : forall acc,
  at_each (fragment_shape c idx) acc ->
  at_each (fragment_shape c idx) (fold_left (Epub.push_heading c idx) ms acc).
Proof.
  induction ms as [|m ms IH]; intros acc H; [exact H|].
  cbn [fold_left]. apply IH. unfold Epub.push_heading.
  apply at_each_snoc; [exact H|].
  split; [reflexivity|]. split; [|now split].
  split; [now eexists | reflexivity].
Qed.

Lemma fragment_paragraphs c idx ms : forall acc,
  at_each (fragment_shape c idx) acc ->
  at_each (fragment_shape c idx)
    (fold_left (Epub.push_paragraph c idx) ms acc).
Proof.
  induction ms as [|m ms IH]; intros acc H; [exact H|].
  cbn [fold_left]. apply IH. unfold Epub.push_paragraph.
  destruct (Nat.ltb 0 _); [|exact H].
  apply at_each_snoc; [exact H|].
  split; [reflexivity|]. split; [|now split].
  split; [discriminate | intros [x [=]]].
Qed.

Lemma fragment_fallback_from c idx lines : forall start,
  Forall (fun line => Nat.ltb 0 (length (JS.trim line)) = true) lines ->
  forall i b,
  flat_map (fun '(n, line) =>
              if Nat.ltb 0 (length (JS.trim line)) then
                [Block (Epub.para_id c n) paragraph (JS.trim line) None
                   (Some c) (Some idx)]
              else [])
    (combine (List.seq start (length lines)) lines) !! i = Some b ->
  fragment_shape c idx (start + i) b.
Proof.
  induction lines as [|l lines IH]; intros start H i b Hb; [discriminate|].
  apply Forall_cons in H as [Hl H].
  cbn [length List.seq combine flat_map] in Hb. rewrite Hl in Hb.
  destruct i as [|i]; cbn in Hb.
  - injection Hb as <-. rewrite Nat.add_0_r.
    split; [reflexivity|]. split; [|now split].
    split; [discriminate | intros [x [=]]].
  - replace (start + S i)%nat with (S start + i)%nat by lia.
    now apply (IH (S start) H).
Qed.

(** X6: every block of the markup extractor carries the identifier and the
    index of its fragment; the block at position i has the identifier
    <fragment>_para_i when it is a paragraph and <fragment>_heading_i when
    it is a heading, and it has a level exactly when it is a heading. *)
Theorem fragment_blocks_tagged html c idx :
  let blocks := Epub.extractParagraphsFromHTML html c idx in
  Forall2 (fragment_shape c idx) (List.seq 0 (length blocks)) blocks.
Proof.
  apply at_each_Forall2. unfold Epub.extractParagraphsFromHTML.
  destruct (Nat.eqb _ 0).
  - unfold Epub.fallback. intros i b H.
    apply (fragment_fallback_from c idx _ 0%nat) in H; [exact H|].
    apply Forall_forall. intros x Hx.
    apply list_elem_of_In, filter_In in Hx. tauto.
  - apply fragment_paragraphs, fragment_headings, at_each_nil.
Qed.

End BlockShape.

(** ** The chapters of an export *)

Module Chapters.
Import Parser.

(** A chapter with a name and a slug that are not empty. *)
Definition named (ch : chapter) : Prop := ch_name ch <> [] /\ ch_file ch <> [].

Lemma or_else_nonempty a b : b <> [] -> JS.or_else a b <> [].
Proof. unfold JS.or_else. destruct a; [now cbn | discriminate]. Qed.

Lemma label_nonempty (p : String.string) n :
  JS.js p <> [] -> JS.js p ++ JS.of_nat n <> [].
Proof. intros H E. now apply app_eq_nil in E as [E _]. Qed.

Lemma chapterOfToc_ok i t :
  ch_index (chapterOfToc i t) = S i /\ named (chapterOfToc i t).
Proof.
  split; [cbn; lia|].
  split; apply or_else_nonempty, label_nonempty; discriminate.
Qed.

Lemma imap_chapters l : forall k,
  map ch_index (imap (fun i => chapterOfToc (k + i)) l) =
    List.seq (S k) (length l)
  /\ Forall named (imap (fun i => chapterOfToc (k + i)) l).
Proof.
  induction l as [|t l IH]; intros k; [split; [reflexivity | apply Forall_nil_2]|].
  cbn [imap map length List.seq].
  destruct (chapterOfToc_ok (k + 0) t) as [Hi Hn].
  destruct (IH (S k)) as [IHi IHn].
  assert (E : imap ((fun i => chapterOfToc (k + i)) ∘ S) l =
              imap (fun i => chapterOfToc (S k + i)) l).
  { apply imap_ext. intros i x _. cbn. f_equal. lia. }
  rewrite E. split.
  - rewrite Hi, IHi. f_equal. lia.
  - apply Forall_cons. now split.
Qed.

Definition collected (chapterMap : list (JS.jsstring * chapter)) : Prop :=
  map (fun e => ch_index (snd e)) chapterMap = List.seq 1 (length chapterMap)
  /\ Forall (fun e => named (snd e)) chapterMap.

Lemma collectChapter_ok chapterMap item :
  collected chapterMap -> collected (collectChapter chapterMap item).
Proof.
  intros [Hi Hn]. unfold collectChapter.
  destruct (blk_chapter item) as [c|]; [|now split].
  destruct (_ && _); [|now split]. split.
  - rewrite map_app, length_app, seq_app, Hi. cbn. do 2 f_equal. lia.
  - apply Forall_app. split; [exact Hn|].
    apply Forall_cons. split; [|apply Forall_nil_2].
    split; apply or_else_nonempty, label_nonempty; discriminate.
Qed.

Lemma collect_ok content : forall chapterMap,
  collected chapterMap -> collected (fold_left collectChapter content chapterMap).
Proof.
  induction content as [|b content IH]; intros m H; [exact H|].
  apply IH, collectChapter_ok, H.
Qed.

Lemma validChapters_collected toc content :
  let chapters := validChapters toc content in
  chapters <> []
  /\ map ch_index chapters = List.seq 1 (length chapters)
  /\ Forall named chapters.
Proof.
  unfold validChapters.
  destruct (imap_chapters (List.filter isValidChapter toc) 0) as [Hi Hn].
  cbn [Nat.add] in Hi, Hn.
  assert (E : imap (fun i => chapterOfToc i) (List.filter isValidChapter toc) =
              imap chapterOfToc (List.filter isValidChapter toc)) by reflexivity.
  rewrite E in Hi, Hn. clear E.
  rewrite <- (length_imap chapterOfToc) in Hi.
  set (fromToc := imap chapterOfToc _) in *.
  destruct fromToc as [|ch rest] eqn:E1.
  - cbn [length Nat.eqb app].
    destruct (collect_ok content [] (conj eq_refl (Forall_nil_2 _))) as [Ci Cn].
    set (m := fold_left collectChapter content []) in *.
    destruct (map snd m) as [|ch' rest'] eqn:E2.
    + cbn. split; [discriminate|]. split; [reflexivity|].
      apply Forall_cons. split; [split; discriminate | apply Forall_nil_2].
    + cbn [length Nat.eqb]. split; [discriminate|].
      assert (L : length m = S (length rest'))
        by (rewrite <- (List.length_map snd m), E2; reflexivity).
      rewrite <- E2, <- L, map_map. split; [exact Ci|].
      apply Forall_fmap. exact Cn.
  - cbn [length Nat.eqb]. split; [discriminate|]. now split.
Qed.

(** X7: the chapters of an export are never none; they are numbered 1, 2, ...
    in order, and each has a name and a file slug that are not empty.
    This holds whether the chapters come from the table of contents, from
    the chapter identifiers of the content or from the default. *)
Theorem chapters_numbered toc content :
  let chapters := validChapters toc content in
  chapters <> []
  /\ map ch_index chapters = List.seq 1 (length chapters)
  /\ Forall (fun ch => ch_name ch <> [] /\ ch_file ch <> []) chapters.
Proof. exact (validChapters_collected toc content). Qed.

End Chapters.

(** ** The files and the entries of an export *)

Module ExportShape.
Import Parser.

(** The counter an identifier ends with. *)
Definition entry_counter (e : pageEntry) : N :=
  JS.parseInt (JS.slice_last 4 (entry_id e)).

Lemma slice_last_app (a b : JS.jsstring) n :
  length b = n -> JS.slice_last n (a ++ b) = b.
Proof.
  intros <-. unfold JS.slice_last. rewrite length_app.
  replace (length a + length b - length b)%nat with (length a) by lia.
  now rewrite drop_app_length.
Qed.

Lemma generated_counter timestamp c :
  JS.parseInt (JS.slice_last 4 (fst (generateUniqueId timestamp c))) =
    (c + 1) mod 10000.
Proof.
  cbn [generateUniqueId fst].
  destruct (Identifiers.counter_suffix ((c + 1) mod 10000)) as [Hl Hp];
    [now apply N.mod_lt|].
  now rewrite slice_last_app.
Qed.

(** The entries a run of the generator makes from the counter [c]: their
    counters are the [n] successors of [c], modulo 10000. *)
Definition counters_from (c : N) (n : nat) : list N :=
  map (fun k => (c + 1 + N.of_nat k) mod 10000) (List.seq 0 n).

Lemma counters_from_S c n :
  counters_from c (S n) = (c + 1) mod 10000 :: counters_from ((c + 1) mod 10000) n.
Proof.
  unfold counters_from. cbn [List.seq map]. f_equal.
  - f_equal. lia.
  - rewrite <- seq_shift, map_map. apply map_ext. intros k.
    rewrite <- !N.add_assoc, N.Div0.add_mod_idemp_l. f_equal. lia.
Qed.

Lemma counters_from_mod c n :
  counters_from (c mod 10000) n = counters_from c n.
Proof.
  unfold counters_from. apply map_ext. intros k.
  rewrite <- !N.add_assoc, N.Div0.add_mod_idemp_l. f_equal.
Qed.

Lemma counters_from_app c n m :
  counters_from c (n + m) =
    counters_from c n ++ counters_from (c + N.of_nat n) m.
Proof.
  unfold counters_from. rewrite seq_app, map_app. f_equal.
  cbn [Nat.add]. rewrite <- (Nat.add_0_r n) at 1.
  rewrite <- (fmap_add_seq n 0 m).
  change (map ?f (?g <$> ?l)) with (map f (map g l)). rewrite map_map.
  apply map_ext. intros k. f_equal. lia.
Qed.

Section Entries.
Variable now : nat -> N.

(** What the page loop adds for the blocks [items]. *)
Record added (items : list block) (st st' : idState) (new : list pageEntry)
  : Prop := Added {
  added_en :
    map en new =
      map (fun b => JS.trim (blk_text b))
        (List.filter DefaultChapter.has_text items);
  added_zh : Forall (fun e => zh e = []) new;
  added_counters :
    map entry_counter new = counters_from (idCounter st) (length new);
  added_state :
    idCounter st' mod 10000 =
      (idCounter st + N.of_nat (length new)) mod 10000
}.

Lemma pushEntry_added items : forall page st,
  exists new,
    (fold_left (pushEntry now) items (page, st)).1 = page ++ new
    /\ added items st (fold_left (pushEntry now) items (page, st)).2 new.
Proof.
  induction items as [|b items IH]; intros page st; cbn [fold_left].
  - exists []. split; [now rewrite app_nil_r|].
    split; [reflexivity | apply Forall_nil_2 | reflexivity |].
    cbn. now rewrite N.add_0_r.
  - unfold pushEntry at 2 4. rewrite DefaultChapter.page_test.
    destruct (DefaultChapter.has_text b) eqn:Eb.
    + pose proof (generated_counter (now (calls st)) (idCounter st)) as Hc.
      destruct (generateUniqueId _ _) as [id c] eqn:E.
      assert (Hc' : c = (idCounter st + 1) mod 10000)
        by (unfold generateUniqueId in E; now injection E as _ <-).
      cbn [fst] in Hc.
      destruct (IH (page ++ [PageEntry (JS.trim (blk_text b)) [] id])
                  (IdState c (S (calls st)))) as (new & Hp & [H1 H2 H3 H4]).
      exists (PageEntry (JS.trim (blk_text b)) [] id :: new).
      split; [now rewrite Hp, <- app_assoc|].
      cbn [idCounter] in H3, H4. split.
      * cbn [map en List.filter]. rewrite Eb. cbn [map]. now rewrite H1.
      * apply Forall_cons. now split.
      * cbn [map length]. rewrite counters_from_S, H3, <- Hc'.
        f_equal. unfold entry_counter. cbn [entry_id]. now rewrite Hc'.
      * rewrite H4, Hc'. cbn [length].
        rewrite N.Div0.add_mod_idemp_l. f_equal. lia.
    + destruct (IH page st) as (new & Hp & [H1 H2 H3 H4]).
      exists new. split; [exact Hp|].
      split; [|exact H2|exact H3|exact H4].
      cbn [List.filter]. now rewrite Eb.
Qed.

(** The page of a chapter. *)
Lemma chapterPages_added items st :
  exists page,
    (chapterPages now items st).1 = [page]
    /\ added items st (chapterPages now items st).2 page.
Proof.
  unfold chapterPages.
  destruct (pushEntry_added items [] st) as (new & Hp & Ha).
  destruct (fold_left (pushEntry now) items ([], st)) as [page st'].
  cbn [fst snd app] in *. subst page. exists new.
  split; [|exact Ha]. destruct new; reflexivity.
Qed.

(** What the file of a chapter holds, given the blocks of its bucket. *)
Definition chapter_file (byChapter : gmap (option JS.jsstring) (list block))
  (ch : chapter) (cd : chapterData) (page : list pageEntry) : Prop :=
  cd = ChapterData (ch_name ch) [] [page]
  /\ map en page =
       map (fun b => JS.trim (blk_text b))
         (List.filter DefaultChapter.has_text
            (default [] (byChapter !! ch_tocId ch)))
  /\ Forall (fun e => zh e = []) page.

Lemma writeChapter_fold dir byChapter chapters : forall files writes st,
  exists datas pagesl st',
    fold_left (writeChapter now dir byChapter) chapters (files, writes, st) =
      (files ++ map (ExportFiles.chapter_path dir) chapters,
       writes ++ combine (map (ExportFiles.chapter_path dir) chapters)
                   (map ChapterFile datas),
       st')
    /\ Forall3 (chapter_file byChapter) chapters datas pagesl
    /\ map entry_counter (concat pagesl) =
         counters_from (idCounter st) (length (concat pagesl)).
Proof.
  induction chapters as [|ch chapters IH]; intros files writes st;
    cbn [fold_left].
  - exists [], [], st. rewrite !app_nil_r.
    split; [reflexivity|]. split; [constructor | reflexivity].
  - unfold writeChapter at 2.
    destruct (chapterPages_added (default [] (byChapter !! ch_tocId ch)) st)
      as (page & Hp & [H1 H2 H3 H4]).
    destruct (chapterPages now _ st) as [pages st1]. cbn [fst snd] in *.
    subst pages.
    destruct (IH (files ++ [ExportFiles.chapter_path dir ch])
                (writes ++ [(ExportFiles.chapter_path dir ch,
                             ChapterFile (ChapterData (ch_name ch) [] [page]))])
                st1) as (datas & pagesl & st' & Hf & Hall & Hc).
    exists (ChapterData (ch_name ch) [] [page] :: datas), (page :: pagesl), st'.
    split; [|split].
    + unfold ExportFiles.chapter_path in *. rewrite Hf.
      cbn [map combine]. now rewrite <- !app_assoc.
    + constructor; [now split | exact Hall].
    + cbn [concat]. rewrite map_app, length_app, counters_from_app, H3, Hc.
      f_equal. rewrite <- counters_from_mod, H4, counters_from_mod.
      reflexivity.
Qed.

End Entries.

Lemma chapter_files_pages byChapter chapters datas pagesl :
  Forall3 (chapter_file byChapter) chapters datas pagesl ->
  Forall2 (fun ch cd =>
             cd_name cd = ch_name ch
             /\ exists page,
                  pages cd = [page]
                  /\ map en page =
                       map (fun b => JS.trim (blk_text b))
                         (List.filter DefaultChapter.has_text
                            (default [] (byChapter !! ch_tocId ch)))
                  /\ Forall (fun e => zh e = []) page)
    chapters datas.
Proof.
  induction 1 as [|ch cd page chs cds ps (-> & He & Hz) _ IH];
    constructor; [|exact IH].
  split; [reflexivity|]. now exists page.
Qed.

(** The entries of all the pages of the files of an export, in order of
    writing. *)
Definition exported_entries (r : exportResult) : list pageEntry :=
  flat_map (fun w => match snd w with
                     | ChapterFile cd => concat (pages cd)
                     | BookInfoFile _ => []
                     end) (written r).

(** X8: the layout of an export: the manifest bookinfo.json is written first
    and lists the chapters in order; then one file per chapter is written,
    in chapter order, at the paths returned; each chapter file has the
    name of its chapter and exactly one page, whose entries are the
    trimmed texts of the blocks of the chapter's bucket with non-empty
    trimmed text, each with an empty translation. *)
Theorem export_layout (now : nat -> N) (doc : document)
  (dir filePath uuid : JS.jsstring) (st : idState) :
  let r := generateBookInfoFiles now doc dir filePath uuid st in
  let chapters := validChapters (tableOfContents doc) (content doc) in
  let byChapter := contentByChapter chapters (content doc) in
  bookInfoPath r = path_join dir (JS.js "bookinfo.json")
  /\ chapterFiles r = map (ExportFiles.chapter_path dir) chapters
  /\ exists info datas,
       written r =
         (bookInfoPath r, BookInfoFile info)
           :: combine (chapterFiles r) (map ChapterFile datas)
       /\ bi_chapters info =
            map (fun ch => (ch_name ch, ch_file ch, ch_index ch, ch_zh ch))
              chapters
       /\ bi_bookId info = bookId r
       /\ Forall2 (fun ch cd =>
                     cd_name cd = ch_name ch
                     /\ exists page,
                          pages cd = [page]
                          /\ map en page =
                               map (fun b => JS.trim (blk_text b))
                                 (List.filter DefaultChapter.has_text
                                    (default [] (byChapter !! ch_tocId ch)))
                          /\ Forall (fun e => zh e = []) page)
            chapters datas.
Proof.
  intros r chapters byChapter. subst r. unfold generateBookInfoFiles.
  fold chapters. fold byChapter.
  destruct (writeChapter_fold now dir byChapter chapters []
              [(path_join dir (JS.js "bookinfo.json"),
                BookInfoFile
                  (BookInfo
                     (or_value (get (metadata doc) "title")
                        (VStr (JS.js "Untitled")))
                     [] (or_value (get (metadata doc) "description") (VStr []))
                     []
                     (map (fun ch => (ch_name ch, ch_file ch, ch_index ch,
                                      ch_zh ch)) chapters)
                     filePath (generateBookId uuid)))] st)
    as (datas & pagesl & st' & Hf & Hall & _).
  rewrite Hf. cbn [bookInfoPath chapterFiles written bookId app].
  split; [reflexivity|]. split; [reflexivity|].
  eexists _, datas. split; [reflexivity|]. split; [reflexivity|].
  split; [reflexivity|]. exact (chapter_files_pages _ _ _ _ Hall).
Qed.

(** The entries of an export, page by page. *)
Lemma exported_entries_pages (now : nat -> N) (doc : document)
  (dir filePath uuid : JS.jsstring) (st : idState) :
  let chapters := validChapters (tableOfContents doc) (content doc) in
  exists datas pagesl,
    exported_entries (generateBookInfoFiles now doc dir filePath uuid st) =
      concat pagesl
    /\ Forall3 (chapter_file (contentByChapter chapters (content doc)))
         chapters datas pagesl
    /\ map entry_counter (concat pagesl) =
         counters_from (idCounter st) (length (concat pagesl)).
Proof.
  intros chapters. unfold generateBookInfoFiles. fold chapters.
  match goal with
  | |- context [fold_left _ _ (_, ?w, _)] =>
      destruct (writeChapter_fold now dir
                  (contentByChapter chapters (content doc)) chapters [] w st)
        as (datas & pagesl & st' & Hf & Hall & Hc)
  end.
  rewrite Hf. exists datas, pagesl. split; [|now split].
  unfold exported_entries. cbn [written app flat_map snd].
  clear Hf Hc. induction Hall as [|ch cd page chs cds ps (-> & _) _ IH];
    [reflexivity|].
  cbn [map combine flat_map snd pages concat]. rewrite IH.
  now rewrite app_nil_r.
Qed.

(** X9: every entry of every page of an export has a text that is not empty
    and has no whitespace at either end, and an empty translation. *)
Theorem exported_entries_well_formed (now : nat -> N) (doc : document)
  (dir filePath uuid : JS.jsstring) (st : idState) :
  Forall (fun e => en e <> [] /\ JS.trim (en e) = en e /\ zh e = [])
    (exported_entries (generateBookInfoFiles now doc dir filePath uuid st)).
Proof.
  destruct (exported_entries_pages now doc dir filePath uuid st)
    as (datas & pagesl & -> & Hall & _).
  apply Forall_concat.
  induction Hall as [|ch cd page chs cds ps (_ & He & Hz) _ IH];
    constructor; [|exact IH].
  clear IH. revert He Hz.
  generalize (default [] (contentByChapter
                            (validChapters (tableOfContents doc) (content doc))
                            (content doc) !! ch_tocId ch)).
  intros items. revert items.
  induction page as [|e page IHp]; intros items He Hz; constructor.
  - apply Forall_cons in Hz as [Hz _]. cbn [map] in He.
    destruct (List.filter DefaultChapter.has_text items) as [|b bs] eqn:E;
      [discriminate|].
    injection He as He _.
    assert (Hb : DefaultChapter.has_text b = true).
    { assert (Hin : In b (List.filter DefaultChapter.has_text items))
        by (rewrite E; now left).
      now apply filter_In in Hin. }
    rewrite He. split; [|split; [apply Trimmed.trim_idempotent | exact Hz]].
    now apply Trimmed.nonempty_of_length.
  - apply Forall_cons in Hz as [_ Hz]. cbn [map] in He.
    destruct (List.filter DefaultChapter.has_text items) as [|b bs] eqn:E;
      [discriminate|].
    injection He as _ He.
    (* the rest of the page comes from the rest of the filtered blocks *)
    apply (IHp bs); [|exact Hz].
    rewrite He. f_equal. symmetry. apply forallb_filter_id.
    apply forallb_forall. intros x Hx.
    assert (Hin : In x (List.filter DefaultChapter.has_text items))
      by (rewrite E; now right).
    now apply filter_In in Hin.
Qed.

Lemma counters_NoDup c n : N.of_nat n <= 10000 -> NoDup (counters_from c n).
Proof.
  intros Hn. unfold counters_from.
  apply (NoDup_fmap_2_strong (fun k => (c + 1 + N.of_nat k) mod 10000)).
  - intros k1 k2 H1%elem_of_seq H2%elem_of_seq E.
    apply Nat2N.inj. zify. Z.to_euclidean_division_equations. lia.
  - apply NoDup_seq.
Qed.

(** X10: the identifiers of the entries of one export are pairwise distinct
    when the export has at most 10000 entries, whatever the clock reads
    and whatever the counter was before. *)
Theorem exported_ids_unique (now : nat -> N) (doc : document)
  (dir filePath uuid : JS.jsstring) (st : idState)
  (Hsize : N.of_nat
             (length (exported_entries
                        (generateBookInfoFiles now doc dir filePath uuid st)))
           <= 10000) :
  NoDup (map entry_id
           (exported_entries
              (generateBookInfoFiles now doc dir filePath uuid st))).
Proof.
  destruct (exported_entries_pages now doc dir filePath uuid st)
    as (datas & pagesl & E & _ & Hc).
  rewrite E in *. apply (NoDup_fmap_1 (fun i => JS.parseInt (JS.slice_last 4 i))).
  change (NoDup (map (fun i => JS.parseInt (JS.slice_last 4 i))
                   (map entry_id (concat pagesl)))).
  rewrite map_map. change (NoDup (map entry_counter (concat pagesl))).
  rewrite Hc. now apply counters_NoDup.
Qed.

Lemma exported_ids_unique_witness :
  NoDup (map entry_id
           (exported_entries
              (generateBookInfoFiles (fun _ => 1700000000000)
                 DefaultChapter.plain_doc (JS.js "/out") (JS.js "book.txt")
                 (JS.js "u-1") (IdState 9998 0)))).
Proof.
  apply exported_ids_unique. vm_compute. discriminate.
Defined.

End ExportShape.

(** ** What an export keeps of the content *)

Module ExportContent.
Import Parser ExportShape.

Lemma eqb_eq (a : JS.jsstring) : forall b, JS.eqb a b = true <-> a = b.
Proof.
  induction a as [|x a IH]; intros [|y b]; cbn; try (split; congruence).
  rewrite andb_true_iff, N.eqb_eq, IH. split; [intros [-> ->] | intros [= -> ->]]; auto.
Qed.

Lemma filter_permutation {A} (f : A -> bool) l l' :
  l ≡ₚ l' -> List.filter f l ≡ₚ List.filter f l'.
Proof.
  induction 1 as [|x l l' _ IH|x y l|l l' l'' _ IH1 _ IH2]; cbn.
  - reflexivity.
  - destruct (f x); [now constructor | exact IH].
  - destruct (f x), (f y); try reflexivity. apply perm_swap.
  - now transitivity (List.filter f l').
Qed.

Lemma filter_concat {A} (f : A -> bool) (ls : list (list A)) :
  List.filter f (concat ls) = concat (map (List.filter f) ls).
Proof.
  induction ls as [|l ls IH]; [reflexivity|].
  cbn. now rewrite List.filter_app, IH.
Qed.

Section Buckets.
Context {K : Type} `{EqDecision K}.
Variable key : block -> K.

(** The blocks of key [k], in order. *)
Definition of_key (l : list block) (k : K) : list block :=
  List.filter (fun b => bool_decide (key b = k)) l.

Lemma of_key_none l k : (forall b, In b l -> key b <> k) -> of_key l k = [].
Proof.
  induction l as [|b l IH]; intros H; [reflexivity|]. cbn.
  rewrite bool_decide_eq_false_2 by (apply H; now left).
  apply IH. intros b' Hb. apply H. now right.
Qed.

(** The buckets of pairwise distinct keys that cover the keys of the
    blocks hold each block once. *)
Lemma buckets_partition (keys : list K) : forall l,
  NoDup keys ->
  (forall b, In b l -> In (key b) keys) ->
  concat (map (of_key l) keys) ≡ₚ l.
Proof.
  intros l Hnd. induction l as [|x l IH]; intros Hin.
  - clear. induction keys as [|k keys IHk]; [reflexivity | exact IHk].
  - assert (Hx : In (key x) keys) by (apply Hin; now left).
    apply in_split in Hx as (k1 & k2 & E).
    assert (H1 : ~ In (key x) k1 /\ ~ In (key x) k2).
    { rewrite E in Hnd. apply NoDup_app in Hnd as (_ & Hd & Hn2).
      apply NoDup_cons in Hn2 as [Hn2 _]. split.
      - intros Hk. apply (Hd (key x)); [now apply list_elem_of_In | left].
      - intros Hk. apply Hn2. now apply list_elem_of_In. }
    destruct H1 as [Hk1 Hk2].
    specialize (IH (fun b Hb => Hin b (or_intror Hb))).
    rewrite E in IH |- *. rewrite map_app, concat_app in IH |- *.
    cbn [map concat] in IH |- *.
    assert (Hsame : forall ks, ~ In (key x) ks ->
              map (of_key (x :: l)) ks = map (of_key l) ks).
    { intros ks Hks. apply map_ext_in. intros k Hk. unfold of_key. cbn.
      rewrite bool_decide_eq_false_2; [reflexivity|].
      intros Heq. apply Hks. now rewrite Heq. }
    rewrite (Hsame k1 Hk1), (Hsame k2 Hk2).
    unfold of_key at 2. cbn [List.filter].
    rewrite bool_decide_eq_true_2 by reflexivity. fold (of_key l (key x)).
    cbn [app]. etransitivity; [symmetry; apply Permutation_middle|].
    now constructor.
Qed.

End Buckets.

(** The key of the bucket a block goes to, [keys] being the keys of the
    chapters and [first] the key of the first chapter. *)
Definition bucket_key (keys : list (option JS.jsstring))
  (first : option JS.jsstring) (item : block) : option JS.jsstring :=
  let chapterId :=
    Some (JS.or_else (default [] (blk_chapter item)) (JS.js "default")) in
  if decide (chapterId ∈ keys) then chapterId else first.

(** Chapters whose keys are strings that are not empty. *)
Definition keyed (chapters : list chapter) : Prop :=
  Forall (fun ch => exists id, ch_tocId ch = Some id /\ id <> []) chapters.

Lemma initial_buckets chapters :
  forall (m : gmap (option JS.jsstring) (list block)) k,
  fold_left (fun m ch => <[ch_tocId ch := []]> m) chapters m !! k =
    if decide (k ∈ map ch_tocId chapters) then Some [] else m !! k.
Proof.
  induction chapters as [|ch chapters IH]; intros m k; cbn [fold_left map].
  - case_decide as H; [|reflexivity]. now apply elem_of_nil in H.
  - rewrite IH. destruct (decide (k ∈ map ch_tocId chapters)) as [Hk|Hk].
    + rewrite decide_True by now right. reflexivity.
    + destruct (decide (k = ch_tocId ch)) as [->|Hne].
      * rewrite decide_True by now left. apply lookup_insert_eq.
      * rewrite decide_False by (intros [->|H]%elem_of_cons; tauto).
        now apply lookup_insert_ne.
Qed.

Lemma assigned_buckets ch0 chapters content :
  keyed (ch0 :: chapters) ->
  forall (m : gmap (option JS.jsstring) (list block)) k,
  let keys := map ch_tocId (ch0 :: chapters) in
  (forall k, m !! k = if decide (k ∈ keys) then Some [] else None) ->
  fold_left (assignItem (ch0 :: chapters)) content m !! k =
    if decide (k ∈ keys)
    then Some (of_key (bucket_key keys (ch_tocId ch0)) content k)
    else None.
Proof.
  intros Hkeyed m k keys Hm.
  enough (Hgen : forall done rest (m : gmap (option JS.jsstring) (list block)),
            (forall k, m !! k =
                 if decide (k ∈ keys)
                 then Some (of_key (bucket_key keys (ch_tocId ch0)) done k)
                 else None) ->
            forall k, fold_left (assignItem (ch0 :: chapters)) rest m !! k =
              if decide (k ∈ keys)
              then Some (of_key (bucket_key keys (ch_tocId ch0))
                           (done ++ rest) k)
              else None)
    by (apply (Hgen [] content m); intros k'; rewrite Hm; now case_decide).
  clear m Hm k. intros done rest. revert done.
  induction rest as [|item rest IH]; intros done m Hm k.
  - rewrite app_nil_r. apply Hm.
  - cbn [fold_left].
    replace (done ++ item :: rest) with ((done ++ [item]) ++ rest)
      by now rewrite <- app_assoc.
    apply IH. clear k. intros k.
    assert (Hfirst : ch_tocId ch0 ∈ keys) by (subst keys; now left).
    assert (Hdef : Some (JS.or_else (default [] (ch_tocId ch0))
                           (JS.js "default")) = ch_tocId ch0).
    { apply Forall_cons in Hkeyed as [(id & -> & Hid) _]. cbn.
      unfold JS.or_else. destruct id; [now contradict Hid | reflexivity]. }
    unfold assignItem. cbn [head]. rewrite Hdef.
    set (cid := Some (JS.or_else (default [] (blk_chapter item))
                        (JS.js "default"))).
    assert (Hkey : bucket_key keys (ch_tocId ch0) item =
                   if decide (cid ∈ keys) then cid else ch_tocId ch0)
      by reflexivity.
    unfold of_key. rewrite List.filter_app. cbn [List.filter].
    fold (of_key (bucket_key keys (ch_tocId ch0)) done k).
    rewrite (Hm cid). destruct (decide (cid ∈ keys)) as [Hc|Hc].
    + rewrite Hkey. destruct (decide (k = cid)) as [->|Hne].
      * rewrite lookup_insert_eq, decide_True by exact Hc.
        now rewrite bool_decide_eq_true_2.
      * rewrite lookup_insert_ne by congruence. rewrite Hm.
        case_decide; [|reflexivity].
        rewrite bool_decide_eq_false_2 by congruence.
        now rewrite app_nil_r.
    + rewrite Hkey, (Hm (ch_tocId ch0)), decide_True by exact Hfirst.
      cbn [default]. destruct (decide (k = ch_tocId ch0)) as [->|Hne].
      * rewrite lookup_insert_eq, decide_True by exact Hfirst.
        rewrite (Hm (ch_tocId ch0)), decide_True by exact Hfirst.
        cbn [default]. now rewrite bool_decide_eq_true_2.
      * rewrite lookup_insert_ne by congruence. rewrite Hm.
        case_decide; [|reflexivity].
        rewrite bool_decide_eq_false_2 by congruence.
        now rewrite app_nil_r.
Qed.

Lemma bucket_key_in keys first item :
  first ∈ keys -> In (bucket_key keys first item) keys.
Proof.
  intros H. unfold bucket_key. apply list_elem_of_In. now case_decide.
Qed.

(** The keys of the chapters made from the table of contents. *)
Lemma toc_chapter_keys l : forall k,
  map ch_tocId (imap (fun i => chapterOfToc (k + i)) l) = map toc_id l.
Proof.
  induction l as [|t l IH]; intros k; [reflexivity|].
  cbn [imap map]. f_equal. rewrite <- (IH (S k)). f_equal.
  apply imap_ext. intros i x _. cbn. f_equal. lia.
Qed.

Lemma toc_chapters_keyed l : forall k,
  Forall (fun t => exists id, toc_id t = Some id /\ id <> []) l ->
  keyed (imap (fun i => chapterOfToc (k + i)) l).
Proof.
  induction l as [|t l IH]; intros k H; [apply Forall_nil_2|].
  apply Forall_cons in H as [Ht H]. cbn [imap].
  apply Forall_cons. split; [exact Ht|].
  specialize (IH (S k) H). unfold keyed in *.
  erewrite imap_ext; [exact IH|]. intros i x _. cbn. f_equal. lia.
Qed.

(** The chapters found on the content have keys that are pairwise
    distinct strings, none empty. *)
Definition derived (chapterMap : list (JS.jsstring * chapter)) : Prop :=
  NoDup (map fst chapterMap)
  /\ Forall (fun e => ch_tocId (snd e) = Some (fst e) /\ fst e <> [])
       chapterMap.

Lemma has_spec chapterMap key :
  chapterMap_has chapterMap key = true <-> key ∈ map fst chapterMap.
Proof.
  unfold chapterMap_has. rewrite existsb_exists, list_elem_of_In, in_map_iff.
  split; intros (e & H1 & H2); exists e.
  - apply eqb_eq in H2. now split.
  - split; [exact H2 | now apply eqb_eq].
Qed.

Lemma collectChapter_derived chapterMap item :
  derived chapterMap -> derived (collectChapter chapterMap item).
Proof.
  intros [Hnd Hk]. unfold collectChapter.
  destruct (blk_chapter item) as [c|]; [|now split].
  destruct (JS.truthy c) eqn:Ec; [|now split].
  destruct (chapterMap_has chapterMap c) eqn:Eh; [now split|].
  cbn [andb negb]. split.
  - rewrite map_app. cbn [map fst]. apply NoDup_app.
    split; [exact Hnd|]. split; [|apply NoDup_singleton].
    intros x Hx ->%list_elem_of_singleton.
    apply has_spec in Hx. congruence.
  - apply Forall_app. split; [exact Hk|].
    apply Forall_cons. split; [|apply Forall_nil_2].
    split; [reflexivity|]. cbn [fst]. now destruct c.
Qed.

Lemma collect_derived content : forall chapterMap,
  derived chapterMap -> derived (fold_left collectChapter content chapterMap).
Proof.
  induction content as [|b content IH]; intros m H; [exact H|].
  apply IH, collectChapter_derived, H.
Qed.

(** The valid entries of a table of contents have pairwise distinct
    identifiers, none absent or empty. *)
Definition distinct_ids (valid : list tocEntry) : Prop :=
  Forall (fun t => exists id, toc_id t = Some id /\ id <> []) valid
  /\ NoDup (map toc_id valid).

Lemma chapters_keyed toc content :
  List.filter isValidChapter toc = []
  \/ distinct_ids (List.filter isValidChapter toc) ->
  keyed (validChapters toc content)
  /\ NoDup (map ch_tocId (validChapters toc content)).
Proof.
  intros H. unfold validChapters.
  destruct (List.filter isValidChapter toc) as [|t valid] eqn:E.
  - cbn [imap length Nat.eqb app].
    destruct (collect_derived content [] (conj (NoDup_nil_2) (Forall_nil_2 _)))
      as [Hnd Hk].
    set (m := fold_left collectChapter content []) in *.
    destruct (map snd m) as [|ch rest] eqn:Em.
    + cbn. split.
      * apply Forall_cons. split; [|apply Forall_nil_2].
        eexists. split; [reflexivity | discriminate].
      * apply NoDup_singleton.
    + cbn [length Nat.eqb]. rewrite <- Em. split.
      * apply Forall_fmap. eapply Forall_impl; [exact Hk|].
        intros e [He Hn]. now exists (fst e).
      * rewrite map_map.
        replace (map (fun x => ch_tocId (snd x)) m) with (map Some (map fst m)).
        -- apply (NoDup_fmap_2 Some), Hnd.
        -- rewrite map_map. apply map_ext_Forall.
           eapply Forall_impl; [exact Hk|]. now intros e [-> _].
  - destruct H as [H|[Hk Hnd]]; [discriminate|].
    pose proof (toc_chapter_keys (t :: valid) 0) as Hkeys.
    pose proof (toc_chapters_keyed (t :: valid) 0 Hk) as Hkd.
    cbn [Nat.add] in Hkeys, Hkd.
    change (fun i => chapterOfToc i) with chapterOfToc in Hkeys, Hkd.
    destruct (imap chapterOfToc (t :: valid)) as [|ch chs] eqn:Ei;
      [discriminate Hkeys|].
    cbn [length Nat.eqb]. split; [exact Hkd|]. now rewrite Hkeys.
Qed.

Lemma map_en_pages byChapter chapters datas pagesl :
  Forall3 (chapter_file byChapter) chapters datas pagesl ->
  map en (concat pagesl) =
    concat (map (fun ch =>
                   map (fun b => JS.trim (blk_text b))
                     (List.filter DefaultChapter.has_text
                        (default [] (byChapter !! ch_tocId ch))))
              chapters).
Proof.
  induction 1 as [|ch cd page chs cds ps (_ & He & _) _ IH]; [reflexivity|].
  cbn [concat map]. now rewrite map_app, He, IH.
Qed.

Lemma keeps_content (now : nat -> N) (doc : document)
  (dir filePath uuid : JS.jsstring) (st : idState)
  (Hids : List.filter isValidChapter (tableOfContents doc) = []
          \/ distinct_ids (List.filter isValidChapter (tableOfContents doc))) :
  map en (exported_entries (generateBookInfoFiles now doc dir filePath uuid st))
    ≡ₚ map (fun b => JS.trim (blk_text b))
         (List.filter DefaultChapter.has_text (content doc)).
Proof.
  destruct (exported_entries_pages now doc dir filePath uuid st)
    as (datas & pagesl & -> & Hall & _).
  destruct (chapters_keyed _ (content doc) Hids) as [Hk Hnd].
  rewrite (map_en_pages _ _ _ _ Hall). clear Hall.
  destruct (validChapters (tableOfContents doc) (content doc))
    as [|ch0 chapters] eqn:Ev.
  { now destruct (Chapters.validChapters_collected (tableOfContents doc)
                    (content doc)) as [Hne _]. }
  set (keys := map ch_tocId (ch0 :: chapters)) in *.
  set (key := bucket_key keys (ch_tocId ch0)).
  assert (Hb : forall ch, In ch (ch0 :: chapters) ->
            default [] (contentByChapter (ch0 :: chapters) (content doc)
                          !! ch_tocId ch) =
              of_key key (content doc) (ch_tocId ch)).
  { intros ch Hch. unfold contentByChapter.
    rewrite (assigned_buckets ch0 chapters (content doc) Hk).
    - rewrite decide_True; [reflexivity|].
      apply list_elem_of_In, in_map, Hch.
    - intros k. rewrite initial_buckets. now case_decide. }
  rewrite (map_ext_in _ (fun ch => map (fun b => JS.trim (blk_text b))
                           (List.filter DefaultChapter.has_text
                              (of_key key (content doc) (ch_tocId ch)))))
    by (intros ch Hch; now rewrite (Hb ch Hch)).
  rewrite <- (map_map ch_tocId
                (fun k => map (fun b => JS.trim (blk_text b))
                            (List.filter DefaultChapter.has_text
                               (of_key key (content doc) k)))).
  fold keys.
  rewrite <- (map_map (fun k => List.filter DefaultChapter.has_text
                                  (of_key key (content doc) k))
                (map (fun b => JS.trim (blk_text b)))).
  rewrite <- concat_map.
  rewrite <- (map_map (of_key key (content doc))
                (List.filter DefaultChapter.has_text)).
  rewrite <- filter_concat.
  apply Permutation_map, filter_permutation, buckets_partition;
    [exact Hnd|].
  intros b _. apply bucket_key_in. subst keys. now left.
Qed.

(** The files a run of writes leaves behind: a path holds what was
    written to it last. *)
Definition files_after (writes : list (JS.jsstring * fileData))
  : gmap JS.jsstring fileData :=
  fold_left (fun files w => <[w.1 := w.2]> files) writes ∅.

(** The entries of the pages of a file. *)
Definition file_entries (w : JS.jsstring * fileData) : list pageEntry :=
  match snd w with
  | ChapterFile cd => concat (pages cd)
  | BookInfoFile _ => []
  end.

(** The entries of the pages of the files an export leaves behind. *)
Definition stored_entries (r : exportResult) : list pageEntry :=
  flat_map file_entries (map_to_list (files_after (written r))).

Lemma writes_kept (ws : list (JS.jsstring * fileData)) :
  forall files : gmap JS.jsstring fileData,
  NoDup ws.*1 ->
  (forall k, k ∈ ws.*1 -> files !! k = None) ->
  map_to_list (fold_left (fun files w => <[w.1 := w.2]> files) ws files)
    ≡ₚ ws ++ map_to_list files.
Proof.
  induction ws as [|[k v] ws IH]; intros files Hnd Hnew; [reflexivity|].
  cbn [fold_left fst snd]. apply NoDup_cons in Hnd as [Hk Hnd].
  rewrite IH; [|exact Hnd|].
  - rewrite map_to_list_insert by (apply Hnew; now left).
    cbn [app]. symmetry. apply Permutation_middle.
  - intros k' Hk'. rewrite lookup_insert_ne by (intros ->; contradiction).
    apply Hnew. now right.
Qed.

Lemma write_overwritten (ws : list (JS.jsstring * fileData)) k v :
  forall files : gmap JS.jsstring fileData,
  k ∈ ws.*1 ->
  fold_left (fun files w => <[w.1 := w.2]> files) ws (<[k := v]> files) =
    fold_left (fun files w => <[w.1 := w.2]> files) ws files.
Proof.
  induction ws as [|[k' v'] ws IH]; intros files Hk.
  - now apply elem_of_nil in Hk.
  - cbn [fold_left fst snd]. destruct (decide (k' = k)) as [->|Hne].
    + now rewrite insert_insert_eq.
    + rewrite insert_insert_ne by congruence. apply IH.
      apply elem_of_cons in Hk as [Hk|Hk]; [cbn in Hk; congruence | exact Hk].
Qed.

(** When the paths of the chapter files are pairwise distinct, the files
    left behind hold the entries of all the writes: the manifest holds
    none. *)
Lemma stored_exported p0 info (cws : list (JS.jsstring * fileData)) :
  NoDup cws.*1 ->
  flat_map file_entries
    (map_to_list (files_after ((p0, BookInfoFile info) :: cws)))
    ≡ₚ flat_map file_entries ((p0, BookInfoFile info) :: cws).
Proof.
  intros Hnd. unfold files_after. cbn [fold_left fst snd flat_map].
  unfold file_entries at 3. cbn [snd app].
  destruct (decide (p0 ∈ cws.*1)) as [Hin|Hout].
  - rewrite write_overwritten by exact Hin.
    rewrite writes_kept; [|exact Hnd|intros k _; apply lookup_empty].
    now rewrite map_to_list_empty, app_nil_r.
  - rewrite writes_kept; [|exact Hnd|].
    + rewrite map_to_list_insert by apply lookup_empty.
      rewrite map_to_list_empty, flat_map_app. cbn [flat_map].
      unfold file_entries at 2. cbn [snd app]. now rewrite app_nil_r.
    + intros k Hk. rewrite lookup_insert_ne by (intros ->; contradiction).
      apply lookup_empty.
Qed.

Section Paths.
Variable now : nat -> N.

Lemma writeChapter_paths dir byChapter chapters : forall files writes st,
  (fold_left (writeChapter now dir byChapter) chapters
     (files, writes, st)).1.2.*1 =
    writes.*1 ++ map (ExportFiles.chapter_path dir) chapters.
Proof.
  induction chapters as [|ch chapters IH]; intros files writes st;
    cbn [fold_left map].
  - now rewrite app_nil_r.
  - unfold writeChapter at 2.
    destruct (chapterPages now _ st) as [pages st'].
    rewrite IH, fmap_app, <- app_assoc. reflexivity.
Qed.

(** The writes of an export: the manifest, then the chapter files at the
    paths of the chapters. *)
Lemma written_paths doc dir filePath uuid st :
  exists info cws,
    written (generateBookInfoFiles now doc dir filePath uuid st) =
      (path_join dir (JS.js "bookinfo.json"), BookInfoFile info) :: cws
    /\ cws.*1 =
         map (ExportFiles.chapter_path dir)
           (validChapters (tableOfContents doc) (content doc)).
Proof.
  unfold generateBookInfoFiles.
  match goal with
  | |- context [fold_left ?f ?l (?a, ?w, ?s)] =>
      pose proof (writeChapter_paths dir
                    (contentByChapter
                       (validChapters (tableOfContents doc) (content doc))
                       (content doc)) l a w s) as Hp;
      destruct (ExportShape.writeChapter_fold now dir
                  (contentByChapter
                     (validChapters (tableOfContents doc) (content doc))
                     (content doc)) l a w s)
        as (datas & pagesl & st' & Hf & _)
  end.
  rewrite Hf in Hp |- *. cbn [fst snd written app fmap list_fmap] in Hp |- *.
  eexists _, _. split; [reflexivity|].
  now injection Hp as Hp.
Qed.

End Paths.

Lemma chapter_paths_NoDup dir chapters :
  NoDup (map ch_file chapters) ->
  NoDup (map (ExportFiles.chapter_path dir) chapters).
Proof.
  intros H. unfold ExportFiles.chapter_path.
  rewrite <- (map_map ch_file (fun f => path_join dir (f ++ JS.js ".json"))).
  assert (Hinj : Inj eq eq (fun f => path_join dir (f ++ JS.js ".json"))).
  { intros a b E. apply ExportFiles.path_join_inj in E.
    now apply app_inv_tail in E. }
  now apply (NoDup_fmap_2 _).
Qed.

Lemma stored_kept (now : nat -> N) (doc : document)
  (dir filePath uuid : JS.jsstring) (st : idState) :
  NoDup (map ch_file (validChapters (tableOfContents doc) (content doc))) ->
  stored_entries (generateBookInfoFiles now doc dir filePath uuid st)
    ≡ₚ exported_entries (generateBookInfoFiles now doc dir filePath uuid st).
Proof.
  intros Hslugs. unfold stored_entries, exported_entries.
  destruct (written_paths now doc dir filePath uuid st)
    as (info & cws & -> & Hp).
  apply stored_exported. rewrite Hp. now apply chapter_paths_NoDup.
Qed.

(** X11: when the file slugs of the chapters are pairwise distinct and the
    valid entries of the table of contents have pairwise distinct
    identifiers, none absent or empty, or there is no valid entry (the
    chapters then come from the content, or are the default chapter), the
    files the export leaves behind keep every content block with
    non-empty trimmed text exactly once: the texts of the entries of
    their pages are, up to their order, the trimmed texts of these
    blocks. Without the first condition a chapter file is written over
    another one and its entries are lost. *)
Theorem export_keeps_content (now : nat -> N) (doc : document)
  (dir filePath uuid : JS.jsstring) (st : idState)
  (Hslugs : NoDup (map ch_file
                     (validChapters (tableOfContents doc) (content doc))))
  (Hids : List.filter isValidChapter (tableOfContents doc) = []
          \/ distinct_ids (List.filter isValidChapter (tableOfContents doc))) :
  map en (stored_entries (generateBookInfoFiles now doc dir filePath uuid st))
    ≡ₚ map (fun b => JS.trim (blk_text b))
         (List.filter DefaultChapter.has_text (content doc)).
Proof.
  rewrite (stored_kept now doc dir filePath uuid st Hslugs).
  exact (keeps_content now doc dir filePath uuid st Hids).
Qed.

(** A document of two fragments whose table of contents names them. *)
Definition two_chapters : document :=
  createDocumentStructure ∅
    (Epub.extractParagraphsFromHTML
       (JS.js "<h1>One</h1><p>First.</p>") (JS.js "ch1") 0
     ++ Epub.extractParagraphsFromHTML
          (JS.js "<h1>Two</h1><p>Second.</p>") (JS.js "ch2") 1)
    []
    [TocEntry (JS.js "One") None 1 (Some (JS.js "ch1")) (Some 0%nat);
     TocEntry (JS.js "Two") None 1 (Some (JS.js "ch2")) (Some 1%nat)].

Lemma export_keeps_content_witness :
  map en (stored_entries
            (generateBookInfoFiles (fun _ => 1700000000000) two_chapters
               (JS.js "/out") (JS.js "book.epub") (JS.js "u-1")
               (IdState 0 0)))
    ≡ₚ map JS.js ["One"; "First."; "Two"; "Second."]%string.
Proof.
  apply (export_keeps_content (fun _ => 1700000000000) two_chapters
           (JS.js "/out") (JS.js "book.epub") (JS.js "u-1") (IdState 0 0)).
  - vm_compute. apply NoDup_cons. split; [|apply NoDup_singleton].
    intros H. apply list_elem_of_singleton in H. discriminate H.
  - right. split.
    + repeat (apply Forall_cons; split;
              [eexists; split; [reflexivity | discriminate]|]).
      apply Forall_nil_2.
    + apply NoDup_cons. split; [|apply NoDup_singleton].
      intros H. apply list_elem_of_singleton in H. discriminate H.
Defined.

(** Two chapters with one slug: the second file is written over the
    first, and the files left behind hold the entries of the second
    chapter only. *)
Example twin_chapters_overwritten :
  let doc :=
    createDocumentStructure ∅
      [Block (JS.js "a_para_0") paragraph (JS.js "First.") None
         (Some (JS.js "part1")) (Some 0%nat);
       Block (JS.js "b_para_0") paragraph (JS.js "Second.") None
         (Some (JS.js "part2")) (Some 1%nat)]
      [] ExportFiles.twin_toc in
  let r := generateBookInfoFiles (fun _ => 1700000000000) doc
             (JS.js "/out") (JS.js "book.epub") (JS.js "u-1") (IdState 0 0) in
  map en (exported_entries r) = [JS.js "First."; JS.js "Second."]
  /\ map en (stored_entries r) = [JS.js "Second."].
Proof. vm_compute. split; reflexivity. Qed.

End ExportContent.

(** ** What a match is made of *)

Module Matching.
Import Re.

Section Invariant.
(** A property of matcher states kept by reading a unit and by recording
    a group among those of [G]. *)
Variable I : mstate -> Prop.
Variable G : nat -> Prop.
Hypothesis I_read : forall st c t,
  I st -> rest st = c :: t -> I (MState (S (pos st)) t (caps st)).
Hypothesis I_group : forall st st1 i,
  G i -> I st -> I st1 ->
  I (MState (pos st1) (rest st1)
       (<[i := Some (firstn (pos st1 - pos st) (rest st))]> (caps st1))).

(** The groups of a pattern are among those of [G]. *)
Fixpoint allowed (r : regex) : Prop :=
  match r with
  | Seq a b | Alt a b => allowed a /\ allowed b
  | Rep _ _ _ a => allowed a
  | Grp i a => G i /\ allowed a
  | _ => True
  end.

Definition passes (body : mstate -> (mstate -> option mstate) -> option mstate)
  : Prop :=
  forall st k res, body st k = Some res -> I st ->
    exists st', I st' /\ k st' = Some res.

Lemma rep_loop_passes body greedy lo hi k fuel :
  passes body ->
  forall n st res,
  rep_loop body greedy lo hi k fuel n st = Some res -> I st ->
  exists st', I st' /\ k st' = Some res.
Proof.
  intros Hb. induction fuel as [|fuel IH]; intros n st res H HI.
  - cbn [rep_loop] in H. unfold or_try in H.
    destruct (Nat.leb lo n), greedy; try discriminate;
      exists st; (split; [exact HI|]);
      destruct (k st); (discriminate || exact H).
  - rewrite Stats.rep_loop_step in H. cbv zeta in H.
    assert (Hstop : (if Nat.leb lo n then k st else None) = Some res ->
              exists st', I st' /\ k st' = Some res).
    { destruct (Nat.leb lo n); [|discriminate]. intros Hk. now exists st. }
    assert (Hmore :
      (if match hi with Some h => Nat.leb h n | None => false end
       then None
       else body st (fun st1 =>
              if Nat.leb lo n && Nat.eqb (pos st1) (pos st) then None
              else rep_loop body greedy lo hi k fuel (S n) st1)) = Some res ->
      exists st', I st' /\ k st' = Some res).
    { destruct (match hi with Some h => Nat.leb h n | None => false end);
        [discriminate|].
      intros Hm. destruct (Hb _ _ _ Hm HI) as (st1 & HI1 & Hk).
      destruct (_ && _); [discriminate|]. now apply (IH (S n) st1). }
    destruct greedy; unfold or_try in H.
    + match type of H with
      | match ?a with _ => _ end = _ => destruct a eqn:E
      end; [apply Hmore | apply Hstop]; congruence.
    + match type of H with
      | match ?a with _ => _ end = _ => destruct a eqn:E
      end; [apply Hstop | apply Hmore]; congruence.
Qed.

(** When a match succeeds, what follows it was run on a state that
    satisfies the property. *)
Lemma rmatch_passes r : allowed r -> passes (rmatch r).
Proof.
  induction r as [|p|r1 IH1 r2 IH2|r1 IH1 r2 IH2|greedy lo hi r IH|i r IH| |];
    intros Ha st k res H HI; cbn [rmatch] in H; cbn [allowed] in Ha.
  - now exists st.
  - destruct (rest st) as [|c t] eqn:E; [discriminate|].
    destruct (p c); [|discriminate].
    eexists. split; [|exact H]. now apply (I_read st c t).
  - destruct Ha as [Ha1 Ha2].
    destruct (IH1 Ha1 _ _ _ H HI) as (st1 & HI1 & H1).
    now apply (IH2 Ha2 st1 k).
  - destruct Ha as [Ha1 Ha2].
    unfold or_try in H. destruct (rmatch r1 st k) eqn:E.
    + apply (IH1 Ha1 st k); [now rewrite E | exact HI].
    + now apply (IH2 Ha2 st k).
  - now apply (rep_loop_passes _ _ _ _ _ _ (IH Ha) _ _ _ H).
  - destruct Ha as [Hi Ha].
    destruct (IH Ha _ _ _ H HI) as (st1 & HI1 & H1).
    eexists. split; [|exact H1]. now apply I_group.
  - destruct (Nat.eqb (pos st) 0); [|discriminate]. now exists st.
  - destruct (rest st); [|discriminate]. now exists st.
Qed.

End Invariant.

Lemma allowed_all r : allowed (fun _ => True) r.
Proof. induction r; cbn; auto. Qed.

Lemma in_take {A} (x : A) n l : In x (firstn n l) -> In x l.
Proof.
  intros H. rewrite <- (firstn_skipn n l). apply in_or_app. now left.
Qed.

Lemma in_drop {A} (x : A) n l : In x (skipn n l) -> In x l.
Proof.
  intros H. rewrite <- (firstn_skipn n l). apply in_or_app. now right.
Qed.

(** The units read and the groups recorded come from the input [s0]. *)
Definition within (s0 : JS.jsstring) (st : mstate) : Prop :=
  (forall x, In x (rest st) -> In x s0)
  /\ (forall i c x, caps st !! i = Some (Some c) -> In x c -> In x s0).

Lemma within_read s0 st c t :
  within s0 st -> rest st = c :: t -> within s0 (MState (S (pos st)) t (caps st)).
Proof.
  intros [Hr Hc] E. split; [|exact Hc].
  intros x Hx. apply Hr. rewrite E. now right.
Qed.

Lemma within_group s0 st st1 i :
  True -> within s0 st -> within s0 st1 ->
  within s0 (MState (pos st1) (rest st1)
               (<[i := Some (firstn (pos st1 - pos st) (rest st))]> (caps st1))).
Proof.
  intros _ [Hr _] [Hr1 Hc1]. split; [exact Hr1|]. cbn [caps].
  intros j c x Hj Hx. destruct (decide (i = j)) as [<-|Hne].
  - destruct (decide (i < length (caps st1))%nat) as [Hi|Hi].
    + rewrite list_lookup_insert_eq in Hj by exact Hi. injection Hj as <-.
      apply Hr. eapply in_take, Hx.
    + rewrite list_insert_ge in Hj by lia. now apply (Hc1 i c).
  - rewrite list_lookup_insert_ne in Hj by exact Hne. now apply (Hc1 j c).
Qed.

(** The groups of a match hold units of the input only. *)
Lemma match_at_groups r i s m :
  match_at r i s = Some m ->
  forall j x, In x (group j m) -> In x s.
Proof.
  unfold match_at.
  destruct (rmatch r _ Some) as [st|] eqn:E; [|discriminate].
  intros [= <-] j x Hx.
  destruct (rmatch_passes (within s) (fun _ => True) (within_read s)
              (within_group s) r (allowed_all r) _ _ _ E) as (st' & [Hr Hc] & [= ->]).
  - split; [now cbn|]. cbn [caps]. intros j' c x' Hj.
    apply list_elem_of_lookup_2, list_elem_of_In, repeat_spec in Hj.
    discriminate Hj.
  - unfold group in Hx. cbn [m_groups] in Hx.
    destruct (_ !! j) as [[c|]|] eqn:Ej; try now destruct Hx.
    destruct j as [|j].
    + destruct (caps st) as [|c0 cs]; [discriminate|].
      cbn in Ej. injection Ej as <-. eapply in_take, Hx.
    + rewrite list_lookup_insert_ne in Ej by discriminate.
      now apply (Hc (S j) c).
Qed.

Lemma search_from_groups r s : forall i m,
  search_from r i s = Some m ->
  forall j x, In x (group j m) -> In x s.
Proof.
  induction s as [|c t IH]; intros i m H j x Hx; cbn [search_from] in H.
  - destruct (match_at r i []) eqn:E; [|discriminate].
    injection H as ->. now apply (match_at_groups r i [] m E j).
  - destruct (match_at r i (c :: t)) eqn:E.
    + injection H as ->. now apply (match_at_groups r i _ m E j).
    + right. now apply (IH (S i) m H j).
Qed.

Lemma match_at_index r i s m : match_at r i s = Some m -> m_index m = i.
Proof.
  unfold match_at. destruct (rmatch r _ Some); [|discriminate].
  now intros [= <-].
Qed.

(** *** Replacing all the matches of a pattern by a constant *)

Section Replace.
(** The pattern [r] matches at the head of [s] over [mlen s] units, and
    does not match there when [mlen s] is 0. *)
Variable r : regex.
Variable mlen : JS.jsstring -> nat.
Hypothesis mlen_spec : forall i s,
  match match_at r i s with
  | Some m => mlen s <> 0%nat /\ m_end m = (i + mlen s)%nat
  | None => mlen s = 0%nat
  end.
Hypothesis mlen_le : forall s, (mlen s <= length s)%nat.
Variable rep : JS.jsstring.

(** The text with the matches replaced, from left to right. *)
Inductive replaced : JS.jsstring -> JS.jsstring -> Prop :=
| replaced_nil : replaced [] []
| replaced_keep c t o :
    mlen (c :: t) = 0%nat -> replaced t o -> replaced (c :: t) (c :: o)
| replaced_match s n o :
    mlen s = S n -> replaced (skipn (S n) s) o -> replaced s (rep ++ o).

Lemma search_spec s : forall i m,
  search_from r i s = Some m ->
  exists k, m_index m = (i + k)%nat /\ (m_index m < m_end m)%nat.
Proof.
  induction s as [|c t IH]; intros i m H; cbn [search_from] in H.
  - pose proof (mlen_spec i []) as Hs. pose proof (mlen_le []) as Hl.
    destruct (match_at r i []); [|discriminate]. cbn in Hl. lia.
  - pose proof (mlen_spec i (c :: t)) as Hs.
    destruct (match_at r i (c :: t)) as [m'|] eqn:E.
    + injection H as ->. apply match_at_index in E. exists 0%nat. lia.
    + destruct (IH (S i) m H) as (k & Hk & Hlt). exists (S k). lia.
Qed.

Lemma replace_keep c t i fuel :
  mlen (c :: t) = 0%nat ->
  replace_matches (fun _ => rep) i (c :: t) (matchAll_from fuel r i (c :: t)) =
    c :: replace_matches (fun _ => rep) (S i) t (matchAll_from fuel r (S i) t).
Proof.
  intros H0. destruct fuel as [|fuel]; [reflexivity|].
  cbn [matchAll_from search_from].
  pose proof (mlen_spec i (c :: t)) as Hs.
  destruct (match_at r i (c :: t)); [lia|]. clear Hs.
  destruct (search_from r (S i) t) as [m|] eqn:E; [|reflexivity].
  destruct (search_spec t (S i) m E) as (k & Hk & Hlt).
  replace (Nat.eqb (m_end m) (m_index m)) with false
    by (symmetry; apply Nat.eqb_neq; lia).
  replace (i + length (c :: t))%nat with (S i + length t)%nat by (cbn; lia).
  cbn [replace_matches].
  replace (m_end m - i)%nat with (S (m_end m - S i)) by lia.
  replace (m_index m - i)%nat with (S (m_index m - S i)) by lia.
  reflexivity.
Qed.

Lemma replaced_matches n : forall s i fuel,
  (length s <= n)%nat -> (length s < fuel)%nat ->
  replaced s (replace_matches (fun _ => rep) i s (matchAll_from fuel r i s)).
Proof.
  induction n as [|n IH]; intros s i fuel Hn Hf.
  - destruct s; [|cbn in Hn; lia]. destruct fuel as [|fuel]; [lia|].
    cbn [matchAll_from search_from].
    pose proof (mlen_spec i []) as Hs. pose proof (mlen_le []) as Hl.
    destruct (match_at r i []); [cbn in Hl; lia|]. constructor.
  - destruct s as [|c t].
    { destruct fuel as [|fuel]; [lia|]. cbn [matchAll_from search_from].
      pose proof (mlen_spec i []) as Hs. pose proof (mlen_le []) as Hl.
      destruct (match_at r i []); [cbn in Hl; lia|]. constructor. }
    destruct (mlen (c :: t)) as [|len] eqn:El.
    + rewrite replace_keep by exact El. constructor; [exact El|].
      apply IH; cbn in *; lia.
    + destruct fuel as [|fuel]; [lia|]. cbn [matchAll_from search_from].
      pose proof (mlen_spec i (c :: t)) as Hs.
      pose proof (mlen_le (c :: t)) as Hl.
      destruct (match_at r i (c :: t)) as [m|] eqn:E; [|lia].
      destruct Hs as [_ He]. apply match_at_index in E. rewrite El in He, Hl.
      replace (Nat.eqb (m_end m) (m_index m)) with false
        by (symmetry; apply Nat.eqb_neq; lia).
      replace (Nat.ltb (i + length (c :: t)) (m_end m)) with false
        by (symmetry; apply Nat.ltb_ge; lia).
      cbn [replace_matches].
      replace (m_index m - i)%nat with 0%nat by lia.
      replace (m_end m - i)%nat with (S len) by lia.
      cbn [firstn app]. apply (replaced_match _ len); [exact El|].
      apply IH.
      * rewrite length_skipn. cbn in *. lia.
      * rewrite length_skipn. cbn in *. lia.
Qed.

Lemma replace_all_replaced s :
  replaced s (replace_all r (fun _ => rep) s).
Proof.
  unfold replace_all, matchAll. apply (replaced_matches (length s)); lia.
Qed.

End Replace.

(** *** The matches of a class and of a run of whitespace *)

Definition class_len (p : N -> bool) (s : JS.jsstring) : nat :=
  match s with c :: _ => if p c then 1%nat else 0%nat | [] => 0%nat end.

Lemma class_len_spec p i s :
  match match_at (Cls p) i s with
  | Some m => class_len p s <> 0%nat /\ m_end m = (i + class_len p s)%nat
  | None => class_len p s = 0%nat
  end.
Proof.
  unfold match_at. cbn [rmatch rest pos caps].
  destruct s as [|c t]; [reflexivity|]. cbn [class_len].
  destruct (p c); [|reflexivity]. cbn [m_end pos]. split; lia.
Qed.

Lemma class_len_le p s : (class_len p s <= length s)%nat.
Proof. destruct s as [|c t]; cbn; [lia | destruct (p c); lia]. Qed.

(** [s.replace(/[class]/g, rep)]: each unit of the class becomes [rep],
    the others stay. *)
Lemma replace_all_class p rep s :
  replace_all (Cls p) (fun _ => rep) s =
    flat_map (fun c => if p c then rep else [c]) s.
Proof.
  pose proof (replace_all_replaced (Cls p) (class_len p) (class_len_spec p)
                (class_len_le p) rep s) as H.
  induction H as [|c t o Hl _ IH|s n o Hl _ IH]; [reflexivity| |].
  - cbn in Hl |- *. destruct (p c); [discriminate|]. now rewrite IH.
  - destruct s as [|c t]; [discriminate|]. cbn in Hl.
    destruct (p c) eqn:E; [|discriminate]. injection Hl as <-.
    cbn [skipn flat_map] in *. now rewrite E, IH.
Qed.

Lemma spaces_len_spec i s :
  match match_at (plus space) i s with
  | Some m => Stats.lead s <> 0%nat /\ m_end m = (i + Stats.lead s)%nat
  | None => Stats.lead s = 0%nat
  end.
Proof. exact (Stats.match_at_spaces i s). Qed.

(** [s.replace(/\s+/g, rep)] leaves no whitespace of [s]: every unit of
    the result is a unit of [s] that is not whitespace, or a unit of
    [rep]. *)
Lemma replace_all_spaces rep s x :
  In x (replace_all (plus space) (fun _ => rep) s) ->
  (In x s /\ JS.is_space x = false) \/ In x rep.
Proof.
  pose proof (replace_all_replaced (plus space) Stats.lead spaces_len_spec
                Stats.lead_le_length rep s) as H.
  induction H as [|c t o Hl _ IH|s n o Hl _ IH]; intros Hx.
  - destruct Hx.
  - cbn in Hl. destruct (JS.is_space c) eqn:E; [discriminate|].
    destruct Hx as [<-|Hx]; [left; split; [now left | exact E]|].
    destruct (IH Hx) as [[Hi Hs]|Hr]; [left; split; [now right | exact Hs]|].
    now right.
  - apply in_app_or in Hx as [Hx|Hx]; [now right|].
    destruct (IH Hx) as [[Hi Hs]|Hr]; [|now right].
    left. split; [|exact Hs]. eapply in_drop, Hi.
Qed.

End Matching.

(** ** File slugs *)

Module Slug.
Import Re Parser Matching.

(** A unit of a slug: a to z, 0 to 9 or the underscore. *)
Definition slug_unit (c : N) : bool :=
  JS.is_lower c || JS.is_digit c || (c =? 95).

Definition safe (s : JS.jsstring) : Prop :=
  forall x, In x s -> slug_unit x = true.

Lemma safe_app a b : safe a -> safe b -> safe (a ++ b).
Proof. intros Ha Hb x Hx. apply in_app_or in Hx as [Hx|Hx]; auto. Qed.

Lemma safe_digits n : safe (JS.of_nat n).
Proof.
  intros x Hx. pose proof (Ids.of_nat_digits n) as H.
  rewrite Forall_forall in H. apply list_elem_of_In, H in Hx.
  unfold slug_unit. now rewrite Hx, orb_true_r.
Qed.

Lemma safe_literal (s : String.string) :
  forallb slug_unit (JS.js s) = true -> safe (JS.js s).
Proof. intros H x Hx. rewrite forallb_forall in H. now apply H. Qed.

Lemma slug_safe name : safe (chapterNameToFileName name).
Proof.
  unfold chapterNameToFileName, JS.slice.
  intros x Hx. apply in_take in Hx. cbn [skipn] in Hx. revert x Hx.
  change (safe (replace_first
                  (seq [Bol; lit_i (JS.js "chapter"); star space;
                        Grp 1 (plus digit)])
                  (fun m => JS.js "chapter_" ++ group 1 m)
                  (replace_all (plus space) (fun _ => JS.js "_")
                     (replace_all
                        (Cls (fun c => negb (JS.is_lower c || JS.is_digit c
                                             || JS.is_space c)))
                        (fun _ => []) (JS.toLowerCase name))))).
  set (t1 := replace_all (Cls _) _ _).
  assert (H1 : forall x, In x t1 ->
            JS.is_lower x || JS.is_digit x || JS.is_space x = true).
  { intros x Hx. subst t1. rewrite replace_all_class in Hx.
    apply in_flat_map in Hx as (c & _ & Hc).
    destruct (JS.is_lower c || JS.is_digit c || JS.is_space c) eqn:E;
      cbn in Hc; [|destruct Hc].
    destruct Hc as [<-|[]]. exact E. }
  set (t2 := replace_all (plus space) _ t1).
  assert (H2 : safe t2).
  { intros x Hx. subst t2. apply replace_all_spaces in Hx as [[Hx Hs]|Hx].
    - apply H1 in Hx. unfold slug_unit. rewrite Hs, orb_false_r in Hx.
      now rewrite Hx.
    - destruct Hx as [<-|[]]. reflexivity. }
  unfold replace_first. destruct (exec _ t2) as [m|] eqn:E; [|exact H2].
  apply safe_app; [intros x Hx; eapply H2, in_take, Hx|].
  apply safe_app; [|intros x Hx; eapply H2, in_drop, Hx].
  apply safe_app; [now apply safe_literal|].
  intros x Hx. apply H2. exact (search_from_groups _ _ _ _ E 1%nat x Hx).
Qed.

Lemma safe_Forall s : safe s -> Forall (fun c => slug_unit c = true) s.
Proof.
  intros H. apply Forall_forall. intros x Hx. now apply H, list_elem_of_In.
Qed.

(** X12: the slug of a name is at most 50 units long and is made of the units
    a to z, 0 to 9 and the underscore only. *)
Theorem chapterNameToFileName_safe name :
  (length (chapterNameToFileName name) <= 50)%nat
  /\ Forall (fun c => slug_unit c = true) (chapterNameToFileName name).
Proof.
  split; [apply firstn_le_length | apply safe_Forall, slug_safe].
Qed.

(** X13: the file slug of every chapter of an export is not empty and is made
    of the units a to z, 0 to 9 and the underscore only, whether it comes
    from the name of the chapter or is the positional chapter_<index>. *)
Theorem chapter_files_safe toc content :
  Forall (fun ch => ch_file ch <> []
                    /\ Forall (fun c => slug_unit c = true) (ch_file ch))
    (validChapters toc content).
Proof.
  destruct (Chapters.validChapters_collected toc content) as (_ & _ & Hn).
  apply Forall_forall. intros ch Hch.
  rewrite Forall_forall in Hn. split; [now apply Hn|].
  assert (Hslug : forall name n,
            Forall (fun c => slug_unit c = true)
              (JS.or_else (chapterNameToFileName name)
                 (JS.js "chapter_" ++ JS.of_nat n))).
  { intros name n. unfold JS.or_else.
    destruct (JS.truthy _); [apply safe_Forall, slug_safe|].
    apply Forall_forall. intros x Hx. apply list_elem_of_In in Hx.
    revert x Hx. apply safe_app; [now apply safe_literal | apply safe_digits]. }
  revert ch Hch. apply Forall_forall. unfold validChapters.
  assert (Htoc : forall l k,
            Forall (fun ch => Forall (fun c => slug_unit c = true) (ch_file ch))
              (imap (fun i => chapterOfToc (k + i)) l)).
  { induction l as [|t l IH]; intros k; [apply Forall_nil_2|].
    cbn [imap]. apply Forall_cons. split; [apply Hslug|].
    erewrite imap_ext; [apply (IH (S k))|]. intros i x _. cbn. f_equal. lia. }
  assert (Hcol : forall content m,
            Forall (fun e => Forall (fun c => slug_unit c = true)
                               (ch_file (snd e))) m ->
            Forall (fun e => Forall (fun c => slug_unit c = true)
                               (ch_file (snd e)))
              (fold_left collectChapter content m)).
  { clear. intros content.
    induction content as [|b content IH]; intros m Hm; [exact Hm|].
    apply IH. unfold collectChapter.
    destruct (blk_chapter b); [|exact Hm]. destruct (_ && _); [|exact Hm].
    apply Forall_app. split; [exact Hm|].
    apply Forall_cons. split; [|apply Forall_nil_2]. cbn [snd ch_file].
    unfold JS.or_else at 1.
    destruct (JS.truthy (chapterNameToFileName _));
      [apply safe_Forall, slug_safe|].
    apply Forall_forall. intros x Hx. apply list_elem_of_In in Hx.
    revert x Hx. apply safe_app; [now apply safe_literal | apply safe_digits]. }
  specialize (Htoc (List.filter isValidChapter toc) 0%nat).
  cbn [Nat.add] in Htoc.
  change (fun i => chapterOfToc i) with chapterOfToc in Htoc.
  destruct (imap chapterOfToc (List.filter isValidChapter toc)) as [|ch chs].
  - cbn [length Nat.eqb app].
    specialize (Hcol content [] (Forall_nil_2 _)).
    destruct (map snd (fold_left collectChapter content [])) as [|c cs] eqn:E.
    + cbn. apply Forall_cons. split; [|apply Forall_nil_2].
      apply Forall_forall. intros x Hx. apply list_elem_of_In in Hx.
      revert x Hx. now apply safe_literal.
    + cbn [length Nat.eqb]. rewrite <- E. now apply Forall_fmap.
  - exact Htoc.
Qed.

End Slug.

(** ** Page numbers as doubles *)

Module Doubles.

(** An integer below 2^53 is its own double. *)
Lemma to_double_exact n : n < 2 ^ 53 -> JS.to_double n = JS.Finite n.
Proof.
  intros Hn. unfold JS.to_double.
  assert (Hs : N.size n <= 53).
  { pose proof (N.size_le n) as Hle. rewrite N.succ_double_spec in Hle.
    apply N.lt_succ_r. apply (N.pow_lt_mono_r_iff 2); [lia|].
    rewrite N.pow_succ_r'. lia. }
  replace (N.size n - 53) with 0 by lia.
  cbn [N.ltb N.compare andb]. rewrite N.shiftr_0_r, N.shiftl_0_r.
  destruct (2 ^ 1024 <=? n) eqn:E; [|reflexivity].
  apply N.leb_le in E.
  assert (2 ^ 53 < 2 ^ 1024) by (apply N.pow_lt_mono_r; lia). lia.
Qed.

(** Past 2^53 the integers between two doubles go to the nearer one, a
    tie to the one with the even significand; 10^23 is not a double; the
    largest double is the last before Infinity. *)
Example to_double_rounds :
  JS.to_double (2 ^ 53 + 1) = JS.Finite (2 ^ 53)
  /\ JS.to_double (2 ^ 53 + 2) = JS.Finite (2 ^ 53 + 2)
  /\ JS.to_double (2 ^ 53 + 3) = JS.Finite (2 ^ 53 + 4)
  /\ JS.to_double (2 ^ 54 + 1) = JS.Finite (2 ^ 54)
  /\ JS.to_double (2 ^ 54 + 2) = JS.Finite (2 ^ 54)
  /\ JS.to_double (2 ^ 54 + 3) = JS.Finite (2 ^ 54 + 4)
  /\ JS.to_double (2 ^ 54 + 6) = JS.Finite (2 ^ 54 + 8)
  /\ JS.to_double (10 ^ 22) = JS.Finite (10 ^ 22)
  /\ JS.to_double (10 ^ 23) = JS.Finite 99999999999999991611392
  /\ JS.to_double (2 ^ 1024 - 2 ^ 970 - 1) = JS.Finite (2 ^ 1024 - 2 ^ 971)
  /\ JS.to_double (2 ^ 1024 - 2 ^ 970) = JS.Infinity
  /\ JS.to_double (10 ^ 309) = JS.Infinity.
Proof. vm_compute. repeat split. Qed.

Example parseInt_double_page :
  JS.parseInt_double (JS.js "12") = JS.Finite 12
  /\ JS.parseInt_double (JS.js "9007199254740993")
     = JS.Finite 9007199254740992.
Proof. vm_compute. split; reflexivity. Qed.

End Doubles.

(** ** The page-text extractor: headings and the table of contents *)

Module PdfOutline.
Import Re Pdf.

(** A line before nothing, or before a blank line, is a heading. *)
Lemma isHeading_alone line : isHeading line [] = true.
Proof.
  unfold isHeading.
  destruct (test re_marker line); [reflexivity|].
  destruct (_ && _); [reflexivity|].
  now destruct (test re_numbered line).
Qed.

Lemma split_from_nonempty r s : forall p q w skip,
  split_from r p q w skip s <> [].
Proof.
  induction s as [|c t IH]; intros p q w skip; [discriminate|].
  cbn [split_from]. destruct skip; [|apply IH].
  destruct (match_at r q (c :: t)); [|apply IH].
  destruct (Nat.eqb _ p); [apply IH|].
  destruct (Nat.eqb _ q); discriminate.
Qed.

Lemma lines_nonempty text : split re_newline text <> [].
Proof.
  destruct text as [|c t]; [vm_compute; discriminate|].
  apply split_from_nonempty.
Qed.

Lemma split_nonempty r s : s <> [] -> split r s <> [].
Proof. destruct s; [congruence|]. intros _. apply split_from_nonempty. Qed.


(** What one line adds to the table of contents. *)
Definition entry_of (line : JS.jsstring) (e : tocEntry) : Prop :=
  toc_id e = None /\ toc_order e = None
  /\ toc_level e = estimateHeadingLevel (toc_title e)
  /\ match toc_page e with
     | None => toc_title e = JS.trim line
     | Some page =>
         exists m, exec re_toc (JS.trim line) = Some m
                   /\ toc_title e = group 1 m
                   /\ page = JS.parseInt_double (group 2 m)
     end.

Lemma toc_step_adds toc0 line :
  exists e, toc_step toc0 line = toc0 ++ [e] /\ entry_of line e.
Proof.
  unfold toc_step. cbn zeta.
  destruct (exec re_toc (JS.trim line)) as [m|] eqn:Em.
  - eexists. split; [reflexivity|]. repeat split. cbn. now exists m.
  - rewrite isHeading_alone. eexists. split; [reflexivity|]. now repeat split.
Qed.

Lemma toc_steps lines : forall toc0,
  exists added, fold_left toc_step lines toc0 = toc0 ++ added
                /\ Forall2 entry_of lines added.
Proof.
  induction lines as [|line lines IH]; intros toc0.
  - exists []. split; [now rewrite app_nil_r | constructor].
  - cbn [fold_left]. destruct (toc_step_adds toc0 line) as (e & -> & He).
    destruct (IH (toc0 ++ [e])) as (added & -> & H).
    exists (e :: added). rewrite <- app_assoc. split; [reflexivity|].
    now constructor.
Qed.

(** X14: the table of contents of a page text has exactly one entry for each
    line of the text, blank lines included, so it is never empty: a line
    that is not a dotted entry with a page number is taken as a title,
    because it is tested as a heading before an empty next line. The
    page of a dotted entry is the double nearest to the number its
    digits denote. *)
Theorem toc_entry_per_line text :
  Forall2 entry_of (split re_newline text) (extractTOC text)
  /\ extractTOC text <> [].
Proof.
  unfold extractTOC.
  destruct (toc_steps (split re_newline text) []) as (added & -> & H).
  cbn [app]. split; [exact H|].
  intros ->. apply Forall2_nil_inv_r in H. now apply lines_nonempty in H.
Qed.

(** *** Paragraphs stand before headings *)

Definition nonblank (raw : JS.jsstring) : bool := JS.truthy (JS.trim raw).

(** Every paragraph of the list is directly followed by a heading. *)
Definition headed (l : list block) : Prop :=
  forall i b, l !! i = Some b -> blk_type b = paragraph ->
    exists h, l !! S i = Some h /\ blk_type h = heading.

Lemma headed_nil : headed [].
Proof. intros i b H. now rewrite lookup_nil in H. Qed.

Lemma headed_heading l h :
  headed l -> blk_type h = heading -> headed (l ++ [h]).
Proof.
  intros Hl Hh i b Hi Hb.
  destruct (lookup_app_Some l [h] i b) as [[Hi'|[Hge Hi']] _]; [exact Hi| |].
  - destruct (Hl i b Hi' Hb) as (h' & H1 & H2). exists h'.
    split; [|exact H2]. now apply lookup_app_l_Some.
  - apply list_lookup_singleton_Some in Hi' as [_ <-]. congruence.
Qed.

Lemma headed_paragraph l p h :
  headed l -> blk_type h = heading -> headed ((l ++ [p]) ++ [h]).
Proof.
  intros Hl Hh i b Hi Hb. rewrite <- app_assoc in Hi |- *. cbn [app] in *.
  destruct (lookup_app_Some l [p; h] i b) as [[Hi'|[Hge Hi']] _]; [exact Hi| |].
  - destruct (Hl i b Hi' Hb) as (h' & H1 & H2). exists h'.
    split; [|exact H2]. now apply lookup_app_l_Some.
  - destruct (i - length l)%nat as [|[|k]] eqn:E; cbn in Hi'.
    + exists h. split; [|exact Hh].
      replace (S i) with (length l + 1)%nat by lia.
      rewrite lookup_app_r by lia.
      now replace (length l + 1 - length l)%nat with 1%nat by lia.
    + congruence.
    + discriminate.
Qed.

Lemma flush_current s : current (flush s) = [].
Proof. unfold flush. destruct s as [p [|c t] n]; reflexivity. Qed.

Lemma step_headed raw next s : headed (paragraphs s) ->
  headed (paragraphs (step raw next s)).
Proof.
  intros H. unfold step. cbn zeta.
  destruct (negb _); [exact H|].
  destruct (isHeading _ _); [|exact H]. unfold flush.
  destruct (JS.truthy (current s)); cbn [paragraphs id current].
  - now apply headed_paragraph.
  - now apply headed_heading.
Qed.

Lemma loop_headed lines : forall s,
  headed (paragraphs s) -> headed (paragraphs (loop lines s)).
Proof.
  induction lines as [|raw rest IH]; intros s H; [exact H|].
  apply IH, step_headed, H.
Qed.

(** Nothing is pending after the loop: the last line that is not blank
    stands before a blank line or before nothing, so it is a heading. *)
Lemma loop_current lines : forall s,
  current s = [] \/ existsb nonblank lines = true ->
  current (loop lines s) = [].
Proof.
  induction lines as [|raw rest IH]; intros s H.
  - destruct H as [H|H]; [exact H | discriminate].
  - cbn [loop]. apply IH. unfold step. cbn zeta.
    cbn [existsb] in H. unfold nonblank at 1 in H.
    destruct (JS.truthy (JS.trim raw)); cbn [negb orb] in *; [|exact H].
    destruct (isHeading _ _) eqn:E.
    + left. cbn [current]. apply flush_current.
    + right. destruct rest as [|n rest']; cbn [head] in E;
        [now rewrite isHeading_alone in E|].
      cbn [existsb]. unfold nonblank at 1.
      destruct (JS.trim n); [now rewrite isHeading_alone in E | reflexivity].
Qed.

(** X15: in the blocks of a page text every paragraph is directly followed by a
    heading: the extractor never ends on a paragraph and never gives two
    paragraphs in a row. *)
Theorem paragraphs_before_headings text :
  forall i b, extractParagraphs text !! i = Some b ->
    blk_type b = paragraph ->
    exists h, extractParagraphs text !! S i = Some h /\ blk_type h = heading.
Proof.
  unfold extractParagraphs.
  set (s := loop _ _).
  assert (Hc : current s = []) by (apply loop_current; now left).
  assert (Hh : headed (paragraphs s)) by (apply loop_headed, headed_nil).
  unfold flush. rewrite Hc. exact Hh.
Qed.

(** Two lines: the first is body text, the second, the last, a heading. *)
Definition two_lines : JS.jsstring := JS.js "some text" ++ [10] ++ JS.js "the end".

Lemma paragraphs_before_headings_witness :
  exists h, extractParagraphs two_lines !! 1%nat = Some h
            /\ blk_type h = heading.
Proof.
  apply (paragraphs_before_headings two_lines 0%nat
           (Block (JS.js "para_0") paragraph (JS.js "some text")
              None None None)).
  - vm_compute. reflexivity.
  - reflexivity.
Defined.

End PdfOutline.

(** ** The table of contents of the reading order *)

Module EpubOutline.
Import Epub.

(** An entry made from the item at position [k] of the flow. *)
Definition entry_at (flow : list flowItem) (k : nat) (e : tocEntry) : Prop :=
  exists item,
    flow !! k = Some item
    /\ fl_title item = Some (toc_title e)
    /\ toc_title e <> []
    /\ toc_order e = Some k
    /\ toc_page e = None
    /\ (1 <= toc_level e)%nat
    /\ exists id, toc_id e = Some id /\ id <> [].

Lemma toc_item_entry toc index item :
  (toc_item toc index item = toc
   /\ JS.truthy (default [] (fl_title item)) = false)
  \/ exists e, toc_item toc index item = toc ++ [e]
               /\ fl_title item = Some (toc_title e)
               /\ toc_title e <> []
               /\ toc_order e = Some index
               /\ toc_page e = None
               /\ (1 <= toc_level e)%nat
               /\ exists id, toc_id e = Some id /\ id <> [].
Proof.
  unfold toc_item. destruct (fl_title item) as [[|c t]|]; cbn [default JS.truthy];
    [now left| |now left].
  right. eexists. split; [reflexivity|]. cbn.
  repeat split; try discriminate.
  - destruct (fl_level item) as [[|n]|]; lia.
  - eexists. split; [reflexivity|].
    unfold JS.or_else. destruct (fl_id item) as [[|c' t']|]; cbn; discriminate.
Qed.

(** The positions from [index] on of the items of [flow] with a title that
    is not empty. *)
Fixpoint titled (flow : list flowItem) (index : nat) : list nat :=
  match flow with
  | [] => []
  | item :: rest =>
      (if JS.truthy (default [] (fl_title item)) then [index] else [])
        ++ titled rest (S index)
  end.

Lemma toc_loop_entries rest : forall done toc,
  exists added,
    toc_loop rest (length done) toc = toc ++ added
    /\ Forall2 (entry_at (done ++ rest)) (titled rest (length done)) added.
Proof.
  induction rest as [|item rest IH]; intros done toc.
  - exists []. rewrite app_nil_r. split; [reflexivity | constructor].
  - cbn [toc_loop titled].
    destruct (IH (done ++ [item]) (toc_item toc (length done) item))
      as (added & E & H).
    rewrite length_app, Nat.add_1_r in E, H. cbn [length] in E.
    rewrite <- app_assoc in H. cbn [app] in H.
    destruct (toc_item_entry toc (length done) item)
      as [[E1 Ht]|(e & E1 & Ht & Hn & Ho & Hp & Hl & Hi)]; rewrite E1 in E.
    + exists added. rewrite Ht, E1. cbn [app]. now split.
    + exists (e :: added). rewrite <- app_assoc in E. rewrite E1. split; [exact E|].
      rewrite Ht. cbn [default JS.truthy].
      destruct (toc_title e) as [|c t] eqn:Et; [congruence|].
      cbn [JS.truthy app]. constructor; [|exact H].
      exists item. rewrite Et. split; [|now repeat split].
      rewrite lookup_app_r by lia. now rewrite Nat.sub_diag.
Qed.

(** X16: the table of contents of a flow has exactly one entry for each item
    with a title that is not empty, in the order of the flow: the entry
    has the title of the item, the position of the item as its order, no
    page, a level of at least 1 and an identifier that is not empty. A
    flow that is not an array gives the empty table. *)
Theorem flow_toc_entries (flow : list flowItem) :
  extractTOC None = []
  /\ Forall2 (entry_at flow) (titled flow 0) (extractTOC (Some flow)).
Proof.
  split; [reflexivity|].
  destruct (toc_loop_entries flow [] []) as (added & E & H).
  cbn [length app] in E, H. cbn [extractTOC]. now rewrite E.
Qed.

End EpubOutline.

(** ** Tables of contents without identifiers *)

Module LostContent.
Import Parser.

(** The assignment of the blocks only ever writes under keys that are
    strings: the bucket of the key [undefined] is never written. *)
Lemma assignItem_undefined (chapters : list chapter)
  (m : gmap (option JS.jsstring) (list block)) (item : block) :
  assignItem chapters m item !! None = m !! None.
Proof.
  unfold assignItem. cbv zeta.
  destruct (m !! Some _) as [items|].
  - now rewrite lookup_insert_ne by discriminate.
  - destruct (head chapters) as [ch|].
    + rewrite lookup_insert_ne by discriminate.
      destruct (m !! Some _); [reflexivity|].
      now rewrite lookup_insert_ne by discriminate.
    + rewrite lookup_insert_ne by discriminate.
      destruct (m !! Some _); [reflexivity|].
      now rewrite lookup_insert_ne by discriminate.
Qed.

Lemma assign_undefined (chapters : list chapter) (content : list block) :
  forall m : gmap (option JS.jsstring) (list block),
  fold_left (assignItem chapters) content m !! None = m !! None.
Proof.
  induction content as [|b content IH]; intros m; [reflexivity|].
  cbn [fold_left]. now rewrite IH, assignItem_undefined.
Qed.

(** Chapters whose key is [undefined]. *)
Definition keyless (chapters : list chapter) : Prop :=
  Forall (fun ch => ch_tocId ch = None) chapters.

Lemma keyless_bucket chapters content ch :
  keyless chapters -> In ch chapters ->
  default [] (contentByChapter chapters content !! ch_tocId ch) = [].
Proof.
  intros Hk Hin. unfold contentByChapter.
  assert (Hch : ch_tocId ch = None).
  { unfold keyless in Hk. rewrite Forall_forall in Hk.
    now apply Hk, list_elem_of_In. }
  rewrite Hch, assign_undefined, ExportContent.initial_buckets.
  rewrite decide_True; [reflexivity|].
  apply list_elem_of_In, in_map_iff. now exists ch.
Qed.

Section Empty.
Variable now : nat -> N.

(** A chapter whose bucket is empty is written with one empty page, and
    no identifier is drawn for it. *)
Lemma writeChapter_empty dir byChapter chapters : forall files writes st,
  Forall (fun ch => default [] (byChapter !! ch_tocId ch) = []) chapters ->
  fold_left (writeChapter now dir byChapter) chapters (files, writes, st) =
    (files ++ map (ExportFiles.chapter_path dir) chapters,
     writes ++ map (fun ch => (ExportFiles.chapter_path dir ch,
                               ChapterFile (ChapterData (ch_name ch) [] [[]])))
                 chapters,
     st).
Proof.
  induction chapters as [|ch chapters IH]; intros files writes st H;
    cbn [fold_left map].
  - now rewrite !app_nil_r.
  - apply Forall_cons in H as [Hch H].
    unfold writeChapter at 2. rewrite Hch.
    cbn [chapterPages fold_left length Nat.ltb Nat.leb].
    rewrite (IH _ _ _ H). unfold ExportFiles.chapter_path.
    now rewrite <- !app_assoc.
Qed.

Lemma keyless_export doc dir filePath uuid st :
  let chapters := validChapters (tableOfContents doc) (content doc) in
  keyless chapters ->
  let r := generateBookInfoFiles now doc dir filePath uuid st in
  map snd (tail (written r)) =
    map (fun ch => ChapterFile (ChapterData (ch_name ch) [] [[]])) chapters
  /\ final r = st.
Proof.
  intros chapters Hk r. subst r. unfold generateBookInfoFiles.
  fold chapters.
  rewrite writeChapter_empty.
  - cbn [written final app tail]. split; [|reflexivity].
    rewrite map_map. reflexivity.
  - apply Forall_forall. intros ch Hch.
    apply keyless_bucket; [exact Hk | now apply list_elem_of_In].
Qed.

End Empty.

(** The chapters come from the table of contents as soon as it has a
    valid entry. *)
Lemma chapters_of_toc toc content :
  List.filter isValidChapter toc <> [] ->
  validChapters toc content = imap chapterOfToc (List.filter isValidChapter toc).
Proof.
  intros H. unfold validChapters.
  destruct (List.filter isValidChapter toc) as [|t l]; [congruence|].
  reflexivity.
Qed.

Lemma idless_keyless toc content :
  List.filter isValidChapter toc <> [] ->
  Forall (fun t => toc_id t = None) (List.filter isValidChapter toc) ->
  keyless (validChapters toc content).
Proof.
  intros Hv Hi. rewrite chapters_of_toc by exact Hv.
  unfold keyless. apply Forall_forall. intros ch Hch.
  apply list_elem_of_In in Hch.
  pose proof (ExportContent.toc_chapter_keys
                (List.filter isValidChapter toc) 0) as Hkeys.
  cbn [Nat.add] in Hkeys.
  change (fun i => chapterOfToc i) with chapterOfToc in Hkeys.
  assert (Hin : In (ch_tocId ch)
                  (map toc_id (List.filter isValidChapter toc)))
    by (rewrite <- Hkeys; now apply in_map).
  apply in_map_iff in Hin as (t & <- & Ht).
  rewrite Forall_forall in Hi. now apply Hi, list_elem_of_In.
Qed.

(** X17: when the table of contents has a valid entry and its valid entries
    carry no identifier, the export keeps none of the content, whatever
    the content is: every block goes to the bucket "default", which no
    chapter reads, so every chapter file is written with one empty page
    and no identifier is drawn. *)
Theorem idless_toc_drops_content (now : nat -> N) (doc : document)
  (dir filePath uuid : JS.jsstring) (st : idState)
  (Hvalid : List.filter isValidChapter (tableOfContents doc) <> [])
  (Hids : Forall (fun t => toc_id t = None)
            (List.filter isValidChapter (tableOfContents doc))) :
  let r := generateBookInfoFiles now doc dir filePath uuid st in
  map snd (tail (written r)) =
    map (fun ch => ChapterFile (ChapterData (ch_name ch) [] [[]]))
      (validChapters (tableOfContents doc) (content doc))
  /\ final r = st.
Proof.
  apply keyless_export, idless_keyless; assumption.
Qed.

Definition outline_doc : document :=
  createDocumentStructure ∅
    [Block (JS.js "heading_0") heading (JS.js "Intro") (Some 1%nat) None None;
     Block (JS.js "para_1") paragraph (JS.js "Some text.") None None None]
    [] [TocEntry (JS.js "Intro") None 1 None None].

Lemma idless_toc_drops_content_witness :
  let r := generateBookInfoFiles (fun _ => 1700000000000) outline_doc
             (JS.js "/out") (JS.js "book.pdf") (JS.js "u-1") (IdState 0 0) in
  map snd (tail (written r)) =
    map (fun ch => ChapterFile (ChapterData (ch_name ch) [] [[]]))
      (validChapters (tableOfContents outline_doc) (content outline_doc))
  /\ final r = IdState 0 0.
Proof.
  apply idless_toc_drops_content.
  - vm_compute. discriminate.
  - vm_compute. repeat constructor.
Defined.

(** *** Page texts and plain texts *)

Lemma txt_flush_toc s : Txt.toc (Txt.flush s) = Txt.toc s.
Proof. unfold Txt.flush. now destruct (Nat.ltb _ _). Qed.

Lemma txt_step_idless raw next s :
  Forall (fun t => toc_id t = None) (Txt.toc s) ->
  Forall (fun t => toc_id t = None) (Txt.toc (Txt.step raw next s)).
Proof.
  intros H. unfold Txt.step. cbv zeta.
  destruct (_ || _); [exact H|].
  destruct (if Txt.inTOCSection s then _ else _) as [m|].
  - cbn [Txt.toc]. apply Forall_app. split; [exact H|].
    apply Forall_cons. split; [reflexivity | apply Forall_nil_2].
  - unfold Txt.body_step.
    destruct (Nat.eqb _ 0); [now rewrite txt_flush_toc|].
    destruct (Txt.isLikelyHeading _ _); cbn [Txt.toc];
      [now rewrite txt_flush_toc | exact H].
Qed.

Lemma txt_loop_idless lines : forall s,
  Forall (fun t => toc_id t = None) (Txt.toc s) ->
  Forall (fun t => toc_id t = None) (Txt.toc (Txt.loop lines s)).
Proof.
  induction lines as [|raw rest IH]; intros s H; [exact H|].
  apply IH, txt_step_idless, H.
Qed.

Lemma txt_toc_idless text :
  Forall (fun t => toc_id t = None) (Txt.extractStructureFromText text).2.
Proof.
  unfold Txt.extractStructureFromText. cbn [snd].
  rewrite txt_flush_toc. apply txt_loop_idless, Forall_nil_2.
Qed.

Lemma pdf_toc_idless text :
  Forall (fun t => toc_id t = None) (Pdf.extractTOC text).
Proof.
  destruct (PdfOutline.toc_steps (Re.split Pdf.re_newline text) [])
    as (added & E & H).
  unfold Pdf.extractTOC. rewrite E. cbn [app].
  clear E. induction H as [|line e lines es (He & _) _ IH]; constructor;
    assumption.
Qed.

(** The document of a page text or of a plain text. *)
Inductive text_document (text : JS.jsstring) : document -> Prop :=
| of_page_text metadata images :
    text_document text
      (createDocumentStructure metadata (Pdf.extractParagraphs text) images
         (Pdf.extractTOC text))
| of_plain_text metadata images :
    text_document text
      (createDocumentStructure metadata
         (Txt.extractStructureFromText text).1 images
         (Txt.extractStructureFromText text).2).

(** X18: the export of the document of a page text or of a plain text whose
    table of contents has a valid entry keeps none of its blocks: the
    entries of these tables carry no identifier. *)
Theorem text_export_empty (now : nat -> N) (text : JS.jsstring)
  (doc : document) (dir filePath uuid : JS.jsstring) (st : idState)
  (Hdoc : text_document text doc)
  (Hvalid : existsb isValidChapter (tableOfContents doc) = true) :
  let r := generateBookInfoFiles now doc dir filePath uuid st in
  Forall (fun w => match snd w with
                   | ChapterFile cd => pages cd = [[]]
                   | BookInfoFile _ => True
                   end) (written r)
  /\ final r = st.
Proof.
  assert (Hv : List.filter isValidChapter (tableOfContents doc) <> []).
  { apply existsb_exists in Hvalid as (t & Ht & Hok). intros E.
    assert (Hin : In t (List.filter isValidChapter (tableOfContents doc)))
      by now apply filter_In.
    now rewrite E in Hin. }
  assert (Hi : Forall (fun t => toc_id t = None) (tableOfContents doc)).
  { destruct Hdoc; cbn [createDocumentStructure tableOfContents];
      [apply pdf_toc_idless | apply txt_toc_idless]. }
  assert (Hk : keyless (validChapters (tableOfContents doc) (content doc))).
  { apply idless_keyless; [exact Hv|].
    apply Forall_forall. intros t Ht. rewrite Forall_forall in Hi.
    apply Hi. apply list_elem_of_In in Ht. apply filter_In in Ht as [Ht _].
    now apply list_elem_of_In. }
  destruct (keyless_export now doc dir filePath uuid st Hk) as [Hw Hf].
  cbv zeta. split; [|exact Hf].
  set (r := generateBookInfoFiles now doc dir filePath uuid st) in *.
  assert (Hhead : exists b ws, written r = (bookInfoPath r, BookInfoFile b) :: ws).
  { subst r. unfold generateBookInfoFiles.
    rewrite writeChapter_empty.
    - cbn [written app bookInfoPath]. eauto.
    - apply Forall_forall. intros ch Hch.
      apply keyless_bucket; [exact Hk | now apply list_elem_of_In]. }
  destruct Hhead as (b & ws & E). rewrite E in *. cbn [tail] in Hw.
  apply Forall_cons. split; [exact I|].
  apply Forall_forall. intros w Hin. apply list_elem_of_In in Hin.
  assert (Hs : In (snd w) (map snd ws)) by now apply in_map.
  rewrite Hw in Hs. apply in_map_iff in Hs as (ch & <- & _). reflexivity.
Qed.

Lemma text_export_empty_witness :
  let doc := createDocumentStructure ∅
               (Pdf.extractParagraphs (JS.js "Hello"))
               [] (Pdf.extractTOC (JS.js "Hello")) in
  let r := generateBookInfoFiles (fun _ => 1700000000000) doc
             (JS.js "/out") (JS.js "book.pdf") (JS.js "u-1") (IdState 0 0) in
  Forall (fun w => match snd w with
                   | ChapterFile cd => pages cd = [[]]
                   | BookInfoFile _ => True
                   end) (written r)
  /\ final r = IdState 0 0.
Proof.
  apply (text_export_empty _ (JS.js "Hello")).
  - apply of_page_text.
  - vm_compute. reflexivity.
Defined.

End LostContent.

(** ** What the dates and the book identifier are read from *)

Module Digits.
Import Re Matching.

Lemma class_removed p s :
  replace_all (Cls p) (fun _ => []) s = List.filter (fun c => negb (p c)) s.
Proof.
  rewrite replace_all_class. induction s as [|c t IH]; [reflexivity|].
  cbn [flat_map List.filter]. rewrite IH. now destruct (p c).
Qed.

(** X19: the book identifier is the UUID without its hyphens: the other units
    are kept, in order. *)
Theorem generateBookId_no_hyphen uuid :
  Parser.generateBookId uuid = List.filter (fun c => negb (c =? 45)) uuid
  /\ ~ In 45 (Parser.generateBookId uuid).
Proof.
  assert (E : Parser.generateBookId uuid =
              List.filter (fun c => negb (c =? 45)) uuid).
  { unfold Parser.generateBookId, chr. rewrite class_removed.
    apply filter_ext. intros c. now rewrite N.eqb_sym. }
  split; [exact E|]. rewrite E. intros H. apply filter_In in H as [_ H].
  discriminate H.
Qed.

(** A pattern that starts with [^] matches at index 0 only. *)
Lemma bol_later r s : forall i, i <> 0%nat ->
  search_from (Seq Bol r) i s = None.
Proof.
  induction s as [|c t IH]; intros i Hi; cbn [search_from].
  - unfold match_at. cbn [rmatch pos].
    destruct i; [congruence | reflexivity].
  - replace (match_at (Seq Bol r) i (c :: t)) with (@None rmatch_result).
    + now apply IH.
    + unfold match_at. cbn [rmatch pos]. destruct i; [congruence | reflexivity].
Qed.

(** [/^D:/] removes a leading "D:" and nothing else. *)
Lemma prefix_removed s :
  let t := replace_first (seq [Bol; lit (JS.js "D:")]) (fun _ => []) s in
  t = s \/ s = 68 :: 58 :: t.
Proof.
  cbv zeta. unfold replace_first, exec.
  change (seq [Bol; lit (JS.js "D:")])
    with (Seq Bol (Seq (Seq (Cls (N.eqb 68)) (Cls (N.eqb 58))) Eps)).
  destruct s as [|c [|d t]].
  - left. reflexivity.
  - left. cbn [search_from]. unfold match_at.
    cbn [rmatch rest pos caps Nat.eqb].
    destruct (68 =? c); reflexivity.
  - cbn [search_from]. unfold match_at at 1.
    cbn [rmatch rest pos caps Nat.eqb].
    destruct (68 =? c) eqn:Ec; [destruct (58 =? d) eqn:Ed|].
    + right. apply N.eqb_eq in Ec, Ed. subst. reflexivity.
    + left. now rewrite bol_later.
    + left. now rewrite bol_later.
Qed.

(** The first 14 digits of a string. *)
Definition digits_of (s : JS.jsstring) : JS.jsstring :=
  firstn 14 (List.filter JS.is_digit s).

Lemma cleaned_digits s :
  PdfDate.cleaned s = JS.padEnd 14 48 (List.filter JS.is_digit s).
Proof.
  unfold PdfDate.cleaned. rewrite class_removed. f_equal.
  erewrite filter_ext by (intros c; apply negb_involutive).
  destruct (prefix_removed s) as [->|E]; [reflexivity|].
  rewrite E at 2. reflexivity.
Qed.

Lemma padEnd_take d :
  firstn 14 (JS.padEnd 14 48 d) = JS.padEnd 14 48 (firstn 14 d).
Proof.
  unfold JS.padEnd. destruct (le_lt_dec 14 (length d)) as [H|H].
  - replace (14 - length d)%nat with 0%nat by lia.
    rewrite length_firstn.
    replace (14 - Nat.min 14 (length d))%nat with 0%nat by lia.
    cbn [repeat]. now rewrite !app_nil_r.
  - rewrite (firstn_all2 (n := 14) d) by lia.
    apply firstn_all2. rewrite length_app, repeat_length. lia.
Qed.

Lemma slice_take a b c :
  (b <= 14)%nat -> JS.slice a b c = JS.slice a b (firstn 14 c).
Proof.
  intros H. unfold JS.slice. rewrite skipn_firstn_comm, firstn_firstn.
  f_equal. lia.
Qed.

Lemma iso_digits s :
  PdfDate.iso s = PdfDate.iso (digits_of s).
Proof.
  assert (E : firstn 14 (PdfDate.cleaned s) =
              firstn 14 (PdfDate.cleaned (digits_of s))).
  { rewrite !cleaned_digits, !padEnd_take. unfold digits_of.
    replace (List.filter JS.is_digit (firstn 14 (List.filter JS.is_digit s)))
      with (firstn 14 (List.filter JS.is_digit s));
      [now rewrite firstn_firstn|].
    symmetry. apply forallb_filter_id.
    apply forallb_forall. intros x Hx. apply in_take in Hx.
    now apply filter_In in Hx. }
  unfold PdfDate.iso.
  rewrite !(slice_take _ _ (PdfDate.cleaned s)) by lia.
  rewrite !(slice_take _ _ (PdfDate.cleaned (digits_of s))) by lia.
  now rewrite E.
Qed.

Lemma safeParseDate_digitless s :
  digits_of s = [] -> PdfDate.safeParseDate (VStr s) = Normal VNull.
Proof.
  intros H. unfold PdfDate.safeParseDate.
  destruct s as [|c t]; [reflexivity|].
  cbn [truthy JS.truthy negb bind]. rewrite iso_digits, H. reflexivity.
Qed.

(** X20: the date read from a string depends on its first 14 digits only:
    every other unit, a time-zone offset included, is ignored. *)
Theorem safeParseDate_first_digits (s1 s2 : JS.jsstring)
  (Hdigits : firstn 14 (List.filter JS.is_digit s1) =
             firstn 14 (List.filter JS.is_digit s2)) :
  PdfDate.safeParseDate (VStr s1) = PdfDate.safeParseDate (VStr s2).
Proof.
  fold (digits_of s1) in Hdigits. fold (digits_of s2) in Hdigits.
  destruct s1 as [|c1 t1].
  - symmetry. apply safeParseDate_digitless. now rewrite <- Hdigits.
  - destruct s2 as [|c2 t2].
    + apply safeParseDate_digitless. now rewrite Hdigits.
    + unfold PdfDate.safeParseDate. cbn [truthy JS.truthy negb bind].
      now rewrite (iso_digits (c1 :: t1)), (iso_digits (c2 :: t2)), Hdigits.
Qed.

Lemma safeParseDate_first_digits_witness :
  PdfDate.safeParseDate (VStr (JS.js "D:20240115102030+08'00'")) =
  PdfDate.safeParseDate (VStr (JS.js "2024-01-15 10:20:30")).
Proof.
  apply safeParseDate_first_digits. vm_compute. reflexivity.
Defined.

End Digits.

(** ** The table of contents of a plain text *)

Module TxtOutline.
Import Re Txt.

(** A line that opens the contents section. *)
Definition marker (raw : JS.jsstring) : bool :=
  test re_toc_marker1 (JS.trim raw) || test re_toc_marker2 (JS.trim raw).

Lemma flush_toc s :
  toc (flush s) = toc s /\ inTOCSection (flush s) = inTOCSection s.
Proof. unfold flush. now destruct (Nat.ltb _ _). Qed.

Lemma body_step_toc line next s :
  toc (body_step line next s) = toc s
  /\ inTOCSection (body_step line next s) = inTOCSection s.
Proof.
  unfold body_step. destruct (Nat.eqb _ 0); [apply flush_toc|].
  destruct (isLikelyHeading _ _); [|now split].
  cbn [toc inTOCSection]. apply flush_toc.
Qed.

Lemma step_closed raw next s :
  marker raw = false ->
  toc s = [] /\ inTOCSection s = false ->
  toc (step raw next s) = [] /\ inTOCSection (step raw next s) = false.
Proof.
  intros Hm [Ht Hi]. unfold step. cbv zeta. unfold marker in Hm.
  rewrite Hm, Hi. cbn [andb].
  destruct (body_step_toc (JS.trim raw) next
              (State (paragraphs s) (toc s) (currentParagraph s)
                 (paragraphIndex s) false)) as [-> ->].
  now split.
Qed.

Lemma loop_closed lines : forall s,
  forallb (fun raw => negb (marker raw)) lines = true ->
  toc s = [] /\ inTOCSection s = false ->
  toc (loop lines s) = [].
Proof.
  induction lines as [|raw rest IH]; intros s Hl H; [apply H|].
  cbn [forallb] in Hl. apply andb_prop in Hl as [Hm Hl].
  apply negb_true_iff in Hm. cbn [loop].
  apply IH; [exact Hl|]. now apply step_closed.
Qed.

(** X21: a plain text with no line that opens a contents section (a line that
    reads, once trimmed, as one or two of the characters of the word for
    contents) has an empty table of contents. *)
Theorem toc_needs_marker (text : JS.jsstring)
  (Hlines : forallb (fun raw => negb (marker raw)) (JS.split_char 10 text)
            = true) :
  (extractStructureFromText text).2 = [].
Proof.
  unfold extractStructureFromText. cbn [snd].
  rewrite (proj1 (flush_toc _)). now apply loop_closed.
Qed.

(** A text in English, contents lines included, has no table of contents. *)
Definition english : JS.jsstring :=
  JS.js "Contents" ++ [10]%N ++ JS.js "1. First ...... 3" ++ [10; 10]%N
    ++ JS.js "Some text.".

Lemma toc_needs_marker_witness :
  (extractStructureFromText english).2 = [].
Proof. apply toc_needs_marker. vm_compute. reflexivity. Defined.

End TxtOutline.

(** ** Reading the chapters of the flow *)

Module Reading.
Import Epub.

(** The chapters of the flow that can be read, with their markup. *)
Definition readable (getChapter : JS.jsstring -> option JS.jsstring)
  (flow : list JS.jsstring) : list (JS.jsstring * JS.jsstring) :=
  flat_map (fun c => match getChapter c with
                     | Some text => [(c, text)]
                     | None => []
                     end) flow.

(** The blocks of the readable chapters, the [k]-th of them (from [base])
    extracted with chapter index [base + k]. *)
Definition fragments (base : nat) (l : list (JS.jsstring * JS.jsstring))
  : list block :=
  concat (imap (fun k ct => extractParagraphsFromHTML ct.2 ct.1 (base + k)) l).

Lemma fragments_cons base c text l :
  fragments base ((c, text) :: l) =
    extractParagraphsFromHTML text c base ++ fragments (S base) l.
Proof.
  unfold fragments. cbn [imap concat fst snd]. rewrite Nat.add_0_r. f_equal.
  f_equal. apply imap_ext. intros i x _. cbn. f_equal. lia.
Qed.

Lemma extractContent_loop_spec getChapter flow : forall content chapterIndex,
  extractContent_loop getChapter flow content chapterIndex =
    match last flow with
    | None => Some content
    | Some c =>
        match getChapter c with
        | None => None
        | Some _ =>
            Some (content ++ fragments chapterIndex (readable getChapter flow))
        end
    end.
Proof.
  induction flow as [|c rest IH]; intros content idx.
  - reflexivity.
  - cbn [extractContent_loop readable flat_map].
    fold (readable getChapter rest).
    destruct rest as [|c' rest'].
    + cbn [last]. destruct (getChapter c) as [text|]; [|reflexivity].
      cbn [extractContent_loop readable flat_map app].
      rewrite fragments_cons. unfold fragments. cbn [imap concat].
      now rewrite app_nil_r.
    + rewrite last_cons_cons.
      destruct (getChapter c) as [text|].
      * rewrite IH. destruct (last (c' :: rest')) as [d|] eqn:E;
          [|apply last_None in E; discriminate E].
        destruct (getChapter d); [|reflexivity].
        cbn [app]. now rewrite fragments_cons, <- app_assoc.
      * rewrite IH. reflexivity.
Qed.

(** The chapter at a position of the flow and its markup, when its
    callback runs without error. *)
Definition chapter_at (getChapter : JS.jsstring -> option JS.jsstring)
  (flow : list JS.jsstring) (index : nat)
  : option (JS.jsstring * JS.jsstring) :=
  match flow !! index with
  | Some c =>
      match getChapter c with Some text => Some (c, text) | None => None end
  | None => None
  end.

(** The chapters whose callbacks run without error, with their markup, in
    the order of the schedule. *)
Fixpoint read (getChapter : JS.jsstring -> option JS.jsstring)
  (flow : list JS.jsstring) (schedule : list nat)
  : list (JS.jsstring * JS.jsstring) :=
  match schedule with
  | [] => []
  | index :: rest =>
      match chapter_at getChapter flow index with
      | Some chapter => chapter :: read getChapter flow rest
      | None => read getChapter flow rest
      end
  end.

(** The schedule up to the first callback of position [index]. *)
Fixpoint until (index : nat) (schedule : list nat) : list nat :=
  match schedule with
  | [] => []
  | i :: rest => if Nat.eqb i index then [i] else i :: until index rest
  end.

(** Whether the callback of the last position runs, and without error. *)
Definition last_read (getChapter : JS.jsstring -> option JS.jsstring)
  (flow : list JS.jsstring) (schedule : list nat) : bool :=
  existsb (Nat.eqb (length flow - 1)) schedule
  && match chapter_at getChapter flow (length flow - 1) with
     | Some _ => true
     | None => false
     end.

Lemma callback_read getChapter flow st i c text :
  chapter_at getChapter flow i = Some (c, text) ->
  EpubCallbacks.callback getChapter flow st i =
    EpubCallbacks.State
      (EpubCallbacks.content st
         ++ extractParagraphsFromHTML text c (EpubCallbacks.chapterIndex st))
      (S (EpubCallbacks.chapterIndex st))
      (match EpubCallbacks.resolved st with
       | Some seen => Some seen
       | None =>
           if Nat.eqb i (length flow - 1)
           then Some (EpubCallbacks.content st
                        ++ extractParagraphsFromHTML text c
                             (EpubCallbacks.chapterIndex st))
           else None
       end).
Proof.
  unfold chapter_at, EpubCallbacks.callback.
  destruct (flow !! i) as [c'|]; [|discriminate].
  destruct (getChapter c') as [text'|]; [|discriminate].
  now intros [= -> ->].
Qed.

Lemma callback_failed getChapter flow st i :
  chapter_at getChapter flow i = None ->
  EpubCallbacks.callback getChapter flow st i = st.
Proof.
  unfold chapter_at, EpubCallbacks.callback.
  destruct (flow !! i) as [c'|]; [|reflexivity].
  now destruct (getChapter c').
Qed.

Lemma fragments_one base c text :
  fragments base [(c, text)] = extractParagraphsFromHTML text c base.
Proof.
  rewrite fragments_cons. unfold fragments. cbn [imap concat].
  apply app_nil_r.
Qed.

Lemma callbacks_spec getChapter flow schedule : forall st,
  let st' := fold_left (EpubCallbacks.callback getChapter flow) schedule st in
  EpubCallbacks.content st' =
    EpubCallbacks.content st
      ++ fragments (EpubCallbacks.chapterIndex st)
           (read getChapter flow schedule)
  /\ EpubCallbacks.resolved st' =
       match EpubCallbacks.resolved st with
       | Some seen => Some seen
       | None =>
           if last_read getChapter flow schedule
           then Some (EpubCallbacks.content st
                        ++ fragments (EpubCallbacks.chapterIndex st)
                             (read getChapter flow
                                (until (length flow - 1) schedule)))
           else None
       end.
Proof.
  induction schedule as [|i rest IH]; intros st; cbv zeta.
  - cbn [fold_left read until]. unfold fragments. cbn [imap concat].
    rewrite app_nil_r. split; [reflexivity|].
    now destruct (EpubCallbacks.resolved st).
  - cbn [fold_left]. destruct (IH (EpubCallbacks.callback getChapter flow st i))
      as [Hc Hr]. rewrite Hc, Hr. clear Hc Hr IH.
    unfold last_read. cbn [existsb until read].
    rewrite (Nat.eqb_sym (length flow - 1) i).
    destruct (chapter_at getChapter flow i) as [[c text]|] eqn:Ei.
    + rewrite (callback_read _ _ _ _ _ _ Ei).
      cbn [EpubCallbacks.content EpubCallbacks.chapterIndex
           EpubCallbacks.resolved].
      rewrite fragments_cons, <- app_assoc. split; [reflexivity|].
      destruct (EpubCallbacks.resolved st) as [seen|]; [reflexivity|].
      destruct (Nat.eqb i (length flow - 1)) eqn:El.
      * apply Nat.eqb_eq in El. rewrite <- El, Ei. cbn [orb andb read].
        rewrite Ei. now rewrite fragments_one.
      * cbn [orb read]. rewrite Ei.
        destruct (existsb _ rest && _); [|reflexivity].
        now rewrite fragments_cons, <- app_assoc.
    + rewrite (callback_failed _ _ _ _ Ei). split; [reflexivity|].
      destruct (EpubCallbacks.resolved st) as [seen|]; [reflexivity|].
      destruct (Nat.eqb i (length flow - 1)) eqn:El.
      * apply Nat.eqb_eq in El. rewrite <- El, Ei.
        now rewrite andb_false_r.
      * cbn [orb read]. rewrite Ei. reflexivity.
Qed.

(** X22: the callbacks of [extractContent] fill the array in the order in
    which they run, whatever that order is: in the end it holds the blocks
    of the chapters read without error, in the order of the schedule, the
    chapter index counting them from 0 in that order. The promise resolves
    exactly when the flow is empty or the callback of the last chapter of
    the flow runs without error, and the array then holds the blocks of
    the chapters read up to that callback only: a failure on the last
    chapter leaves the promise pending for ever, and a chapter read after
    the last one is missing when the promise resolves. *)
Theorem extractContent_result getChapter flow schedule :
  let r := EpubCallbacks.extractContent getChapter flow schedule in
  EpubCallbacks.content r = fragments 0 (read getChapter flow schedule)
  /\ EpubCallbacks.resolved r =
       match flow with
       | [] => Some []
       | _ :: _ =>
           if last_read getChapter flow schedule
           then Some (fragments 0
                        (read getChapter flow
                           (until (length flow - 1) schedule)))
           else None
       end.
Proof.
  cbv zeta. unfold EpubCallbacks.extractContent.
  destruct (callbacks_spec getChapter flow schedule
              (EpubCallbacks.State [] 0 None)) as [Hc Hr].
  cbv zeta in Hc, Hr. cbn [EpubCallbacks.content EpubCallbacks.chapterIndex
                           EpubCallbacks.resolved app] in Hc, Hr.
  destruct flow as [|c flow'].
  - cbn [length Nat.eqb EpubCallbacks.content EpubCallbacks.resolved].
    rewrite Hc. split; [reflexivity|]. f_equal.
    assert (E : read getChapter [] schedule = []).
    { clear. induction schedule as [|i rest IH]; [reflexivity|].
      cbn [read]. unfold chapter_at at 1.
      rewrite lookup_nil. exact IH. }
    now rewrite E.
  - cbn [length Nat.eqb]. now split.
Qed.

(** *** Callbacks that run in the order of the flow *)

Lemma read_in_order getChapter flow : forall before,
  read getChapter (before ++ flow) (List.seq (length before) (length flow)) =
    readable getChapter flow.
Proof.
  induction flow as [|c flow IH]; intros before; [reflexivity|].
  cbn [length List.seq read readable flat_map]. unfold chapter_at at 1.
  rewrite lookup_app_r, Nat.sub_diag by lia. cbn [lookup list_lookup].
  specialize (IH (before ++ [c])).
  rewrite <- app_assoc, length_app, Nat.add_1_r in IH. cbn [app length] in IH.
  rewrite IH. now destruct (getChapter c).
Qed.

Lemma until_in_order m : forall k,
  until (k + m) (List.seq k (S m)) = List.seq k (S m).
Proof.
  induction m as [|m IH]; intros k.
  - cbn [List.seq until]. now rewrite Nat.add_0_r, Nat.eqb_refl.
  - cbn [List.seq until].
    replace (Nat.eqb k (k + S m)) with false
      by (symmetry; apply Nat.eqb_neq; lia).
    f_equal. replace (k + S m)%nat with (S k + m)%nat by lia. apply IH.
Qed.

(** When the callbacks run in the order of the flow, the promise resolves
    with what [Epub.extractContent] gives, or stays pending with it. *)
Lemma resolved_in_order getChapter flow :
  EpubCallbacks.resolved
    (EpubCallbacks.extractContent getChapter flow
       (List.seq 0 (length flow))) =
    extractContent getChapter flow.
Proof.
  unfold extractContent. rewrite extractContent_loop_spec.
  destruct flow as [|c flow']; [reflexivity|].
  unfold EpubCallbacks.extractContent. cbn [length Nat.eqb].
  destruct (callbacks_spec getChapter (c :: flow')
              (List.seq 0 (S (length flow'))) (EpubCallbacks.State [] 0 None))
    as [_ Hr].
  cbv zeta in Hr. cbn [EpubCallbacks.content EpubCallbacks.chapterIndex
                       EpubCallbacks.resolved app length] in Hr.
  rewrite Hr. clear Hr.
  change (S (length flow')) with (length (c :: flow')).
  set (flow := c :: flow').
  assert (Hlen : length flow = S (length flow')) by reflexivity.
  rewrite last_lookup. unfold last_read, chapter_at.
  replace (length flow - 1)%nat with (pred (length flow)) by lia.
  assert (Hin : existsb (Nat.eqb (pred (length flow)))
                  (List.seq 0 (length flow)) = true).
  { apply existsb_exists. exists (pred (length flow)).
    split; [apply in_seq; lia | apply Nat.eqb_refl]. }
  rewrite Hin. cbn [andb].
  destruct (lookup_lt_is_Some_2 flow (pred (length flow)) ltac:(lia))
    as [d Hd].
  rewrite Hd.
  destruct (getChapter d); [|reflexivity].
  cbn [app]. do 2 f_equal.
  pose proof (until_in_order (length flow') 0) as Hu.
  cbn [Nat.add] in Hu. rewrite <- Hlen in Hu.
  replace (length flow') with (pred (length flow)) in Hu at 1 by (rewrite Hlen; reflexivity).
  rewrite Hu. apply (read_in_order getChapter flow []).
Qed.

(** Two chapters whose callbacks run in the other order: the promise
    resolves at the first callback, with the blocks of the second chapter
    only, extracted with chapter index 0; the first chapter comes after
    it in the array, with chapter index 1. *)
Example last_chapter_read_first :
  let getChapter c :=
    if JS.eqb c (JS.js "ch1") then Some (JS.js "<p>One.</p>")
    else Some (JS.js "<p>Two.</p>") in
  let r :=
    EpubCallbacks.extractContent getChapter [JS.js "ch1"; JS.js "ch2"]
      [1; 0]%nat in
  EpubCallbacks.resolved r =
    Some (extractParagraphsFromHTML (JS.js "<p>Two.</p>") (JS.js "ch2") 0)
  /\ EpubCallbacks.content r =
       extractParagraphsFromHTML (JS.js "<p>Two.</p>") (JS.js "ch2") 0
       ++ extractParagraphsFromHTML (JS.js "<p>One.</p>") (JS.js "ch1") 1.
Proof. vm_compute. split; reflexivity. Qed.

End Reading.

(** ** Valid dates *)

Module ValidDate.
Import JSDate SafeDate.
Local Open Scope Z_scope.

(** The number of days of a month (1 to 12) of a year. *)
Definition days_in_month (y m : Z) : Z :=
  if m =? 2 then (if InLeapYear y then 29 else 28)
  else if (m =? 4) || (m =? 6) || (m =? 9) || (m =? 11) then 30
  else 31.

(** The civil date of the day number of a date is the date, checked on
    the 400 years of an era. *)
Definition civil_ok (y : Z) : bool :=
  forallb (fun m =>
    all_from (fun d =>
                let '(y', m', d') := civil (MakeDay y (m - 1) d) in
                (y' =? y) && (m' =? m) && (d' =? d))
      (Z.to_nat (days_in_month y m)) 1)
    [1; 2; 3; 4; 5; 6; 7; 8; 9; 10; 11; 12].

Lemma civil_checked : all_from civil_ok 400 0 = true.
Proof. vm_compute. reflexivity. Qed.

Lemma civil_era y m d :
  0 <= y < 400 -> 1 <= m <= 12 -> 1 <= d <= days_in_month y m ->
  civil (MakeDay y (m - 1) d) = (y, m, d).
Proof.
  intros Hy Hm Hd.
  pose proof (all_from_spec _ _ _ civil_checked y ltac:(lia)) as H.
  unfold civil_ok in H. rewrite forallb_forall in H.
  assert (Hin : In m [1; 2; 3; 4; 5; 6; 7; 8; 9; 10; 11; 12])
    by (cbn [In]; lia).
  specialize (H m Hin).
  pose proof (all_from_spec _ _ _ H d ltac:(lia)) as Hc. cbv beta in Hc.
  destruct (civil (MakeDay y (m - 1) d)) as [[y' m'] d'].
  repeat (apply andb_prop in Hc as [Hc ?]).
  f_equal; [f_equal|]; lia.
Qed.

(** Years 400 apart have the same calendar, 146097 days apart. *)
Lemma leap_shift y k : InLeapYear (y + 400 * k) = InLeapYear y.
Proof.
  unfold InLeapYear.
  replace ((y + 400 * k) mod 4) with (y mod 4)
    by (Z.div_mod_to_equations; lia).
  replace ((y + 400 * k) mod 100) with (y mod 100)
    by (Z.div_mod_to_equations; lia).
  replace ((y + 400 * k) mod 400) with (y mod 400)
    by (Z.div_mod_to_equations; lia).
  reflexivity.
Qed.

Lemma MakeDay_shift y k m d :
  MakeDay (y + 400 * k) m d = MakeDay y m d + 146097 * k.
Proof.
  unfold MakeDay. rewrite leap_shift. unfold DayFromYear.
  Z.div_mod_to_equations. lia.
Qed.

Lemma civil_shift day k :
  civil (day + 146097 * k) =
    let '(y, m, d) := civil day in (y + 400 * k, m, d).
Proof.
  unfold civil.
  replace ((day + 146097 * k + 719468) mod 146097)
    with ((day + 719468) mod 146097) by (Z.div_mod_to_equations; lia).
  replace ((day + 146097 * k + 719468) / 146097)
    with ((day + 719468) / 146097 + k) by (Z.div_mod_to_equations; lia).
  destruct (from_doe _) as [[yoe m] d]. f_equal. f_equal. lia.
Qed.

Lemma days_in_month_shift y k m :
  days_in_month (y + 400 * k) m = days_in_month y m.
Proof. unfold days_in_month. now rewrite leap_shift. Qed.

(** The civil date of the day number of a date is the date. *)
Lemma civil_MakeDay y m d :
  0 <= y -> 1 <= m <= 12 -> 1 <= d <= days_in_month y m ->
  civil (MakeDay y (m - 1) d) = (y, m, d).
Proof.
  intros Hy Hm Hd.
  assert (E : y = y mod 400 + 400 * (y / 400))
    by (Z.div_mod_to_equations; lia).
  rewrite E in Hd |- *. rewrite days_in_month_shift in Hd.
  rewrite MakeDay_shift, civil_shift, civil_era;
    [reflexivity | Z.div_mod_to_equations; lia | exact Hm | exact Hd].
Qed.

(** Two and four digits are padded to themselves. *)
Definition pad2_exact (v : Z) : bool :=
  JS.eqb (pad 2 v) [Z.to_N (48 + v / 10); Z.to_N (48 + v mod 10)].
Definition pad4_exact (v : Z) : bool :=
  JS.eqb (pad 4 v)
    [Z.to_N (48 + v / 1000); Z.to_N (48 + v / 100 mod 10);
     Z.to_N (48 + v / 10 mod 10); Z.to_N (48 + v mod 10)].

Lemma pad2_exact_checked : all_from pad2_exact 100 0 = true.
Proof. vm_compute. reflexivity. Qed.
Lemma pad4_exact_checked : all_from pad4_exact (N.to_nat 10000) 0 = true.
Proof. vm_compute. reflexivity. Qed.

Lemma digit_unit c v :
  JS.is_digit c = true -> v = digit_value c -> Z.to_N (48 + v) = c.
Proof.
  intros Hc ->. apply digit_value_range in Hc. unfold digit_value in *. lia.
Qed.

Lemma pad2_two a b :
  JS.is_digit a = true -> JS.is_digit b = true -> pad 2 (two a b) = [a; b].
Proof.
  intros Ha Hb.
  pose proof (digit_value_range a Ha) as Ra.
  pose proof (digit_value_range b Hb) as Rb.
  pose proof (all_from_spec _ _ _ pad2_exact_checked (two a b)) as H.
  unfold pad2_exact in H. unfold two in *.
  specialize (H ltac:(lia)). apply ExportContent.eqb_eq in H. rewrite H.
  f_equal; [|f_equal]; apply digit_unit; try assumption;
    Z.div_mod_to_equations; lia.
Qed.

Lemma pad4_two a b c d :
  JS.is_digit a = true -> JS.is_digit b = true ->
  JS.is_digit c = true -> JS.is_digit d = true ->
  pad 4 (100 * two a b + two c d) = [a; b; c; d].
Proof.
  intros Ha Hb Hc Hd.
  pose proof (digit_value_range a Ha) as Ra.
  pose proof (digit_value_range b Hb) as Rb.
  pose proof (digit_value_range c Hc) as Rc.
  pose proof (digit_value_range d Hd) as Rd.
  pose proof (all_from_spec _ _ _ pad4_exact_checked
                (100 * two a b + two c d)) as H.
  unfold pad4_exact in H. unfold two in *.
  specialize (H ltac:(lia)). apply ExportContent.eqb_eq in H. rewrite H.
  f_equal; [|f_equal; [|f_equal; [|f_equal]]]; apply digit_unit;
    try assumption; Z.div_mod_to_equations; lia.
Qed.

Lemma month_start_range leap m :
  0 <= m <= 11 -> 0 <= month_start leap m <= 335.
Proof.
  intros Hm. unfold month_start.
  assert (Hc : m = 0 \/ m = 1 \/ m = 2 \/ m = 3 \/ m = 4 \/ m = 5 \/ m = 6
               \/ m = 7 \/ m = 8 \/ m = 9 \/ m = 10 \/ m = 11) by lia.
  destruct leap;
    repeat (destruct Hc as [->|Hc]; [split; apply Z.leb_le; reflexivity|]);
    subst; split; apply Z.leb_le; reflexivity.
Qed.

(** The string of the time value of a date and a time of day. *)
Lemma toISOString_fields y m d h mi s :
  0 <= y <= 9999 -> 1 <= m <= 12 -> 1 <= d <= days_in_month y m ->
  0 <= h <= 23 -> 0 <= mi <= 59 -> 0 <= s <= 59 ->
  toISOString (Some (MakeDate (MakeDay y (m - 1) d) (MakeTime h mi s 0))) =
    Normal (pad 4 y ++ JS.js "-" ++ pad 2 m ++ JS.js "-" ++ pad 2 d
              ++ JS.js "T" ++ pad 2 h ++ JS.js ":" ++ pad 2 mi ++ JS.js ":"
              ++ pad 2 s ++ JS.js ".000Z").
Proof.
  intros Hy Hm Hd Hh Hmi Hs. unfold toISOString.
  set (day := MakeDay y (m - 1) d).
  set (time := MakeTime h mi s 0).
  assert (Ht : 0 <= time < msPerDay /\ time = h * 3600000 + mi * 60000 + s * 1000)
    by (unfold time, MakeTime, msPerDay; lia).
  destruct Ht as [Ht Et].
  assert (E1 : MakeDate day time / msPerDay = day).
  { unfold MakeDate. unfold msPerDay in *. Z.div_mod_to_equations. lia. }
  assert (E2 : MakeDate day time mod msPerDay = time).
  { unfold MakeDate. unfold msPerDay in *. Z.div_mod_to_equations. lia. }
  rewrite E1, E2. unfold day. rewrite civil_MakeDay by lia.
  unfold year_string. replace ((0 <=? y) && (y <=? 9999)) with true by lia.
  replace (time / 3600000) with h by (Z.div_mod_to_equations; lia).
  replace (time / 60000 mod 60) with mi by (Z.div_mod_to_equations; lia).
  replace (time / 1000 mod 60) with s by (Z.div_mod_to_equations; lia).
  replace (time mod 1000) with 0 by (Z.div_mod_to_equations; lia).
  reflexivity.
Qed.

(** The ISO string built from 14 digits. *)
Lemma iso_of_digits y1 y2 y3 y4 m1 m2 a1 a2 h1 h2 n1 n2 s1 s2 :
  forallb JS.is_digit [y1; y2; y3; y4; m1; m2; a1; a2; h1; h2; n1; n2; s1; s2]
    = true ->
  PdfDate.iso [y1; y2; y3; y4; m1; m2; a1; a2; h1; h2; n1; n2; s1; s2] =
    [y1; y2; y3; y4; 45; m1; m2; 45; a1; a2; 84; h1; h2; 58; n1; n2; 58;
     s1; s2; 90]%N.
Proof.
  intros H. unfold PdfDate.iso. rewrite Digits.cleaned_digits.
  rewrite forallb_filter_id by exact H. reflexivity.
Qed.

(** X23: a string whose first 14 digits are a valid date and time of day, in
    the order year, month, day, hour, minute, second, is read as that
    instant of universal time: the result is the same fields in the ISO
    layout, with no milliseconds. *)
Theorem safeParseDate_valid (s : JS.jsstring)
  (y1 y2 y3 y4 m1 m2 a1 a2 h1 h2 n1 n2 s1 s2 : N)
  (Hs : firstn 14 (List.filter JS.is_digit s) =
        [y1; y2; y3; y4; m1; m2; a1; a2; h1; h2; n1; n2; s1; s2])
  (Hmonth : 1 <= two m1 m2 <= 12)
  (Hday : 1 <= two a1 a2
          <= days_in_month (100 * two y1 y2 + two y3 y4) (two m1 m2))
  (Hhour : two h1 h2 <= 23)
  (Hmin : two n1 n2 <= 59)
  (Hsec : two s1 s2 <= 59) :
  PdfDate.safeParseDate (VStr s) =
    Normal (VStr ([y1; y2; y3; y4] ++ JS.js "-" ++ [m1; m2] ++ JS.js "-"
                    ++ [a1; a2] ++ JS.js "T" ++ [h1; h2] ++ JS.js ":"
                    ++ [n1; n2] ++ JS.js ":" ++ [s1; s2] ++ JS.js ".000Z")).
Proof.
  assert (Hd : forallb JS.is_digit
                 [y1; y2; y3; y4; m1; m2; a1; a2; h1; h2; n1; n2; s1; s2]
               = true).
  { rewrite <- Hs. apply forallb_forall. intros x Hx.
    apply Matching.in_take in Hx. now apply filter_In in Hx. }
  assert (Hne : s <> []) by (intros ->; discriminate Hs).
  unfold PdfDate.safeParseDate. destruct s as [|c0 t0]; [congruence|].
  cbn [truthy JS.truthy negb bind].
  rewrite Digits.iso_digits. unfold Digits.digits_of. rewrite Hs.
  rewrite iso_of_digits by exact Hd.
  pose proof Hd as Hd'. cbn [forallb] in Hd'.
  repeat (apply andb_prop in Hd' as [? Hd']).
  repeat match goal with
         | H : JS.is_digit ?c = true |- _ =>
             pose proof (digit_value_range c H); revert H
         end.
  intros. unfold parse.
  replace (JS.eqb [45; 45; 84; 58; 58; 90]%N (JS.js "--T::Z")) with true
    by reflexivity.
  rewrite Hd. cbn [andb].
  set (year := 100 * two y1 y2 + two y3 y4) in *.
  set (month := two m1 m2) in *. set (day := two a1 a2) in *.
  set (hour := two h1 h2) in *. set (mi := two n1 n2) in *.
  set (sec := two s1 s2) in *.
  assert (Hy : 0 <= year <= 9999) by (unfold year, two; lia).
  assert (Hh : 0 <= hour) by (unfold hour, two; lia).
  assert (Hmi : 0 <= mi) by (unfold mi, two; lia).
  assert (Hse : 0 <= sec) by (unfold sec, two; lia).
  assert (Hdm : days_in_month year month <= 31).
  { unfold days_in_month. destruct (month =? 2); [destruct (InLeapYear year); lia|].
    destruct (_ || _); lia. }
  match goal with
  | |- context [if ?c then TimeClip _ else None] =>
      replace c with true by lia
  end.
  unfold TimeClip.
  match goal with
  | |- context [if ?c then Some ?t else None] =>
      replace c with true
  end.
  - cbn [try_catch bind].
    rewrite toISOString_fields by lia.
    unfold year, month, day, hour, mi, sec.
    rewrite pad4_two, !pad2_two by assumption. reflexivity.
  - symmetry. apply Z.leb_le.
    pose proof (month_start_range (InLeapYear year) (month - 1) ltac:(lia)).
    unfold MakeDate, MakeDay, MakeTime, DayFromYear, msPerDay.
    Z.div_mod_to_equations. lia.
Qed.

Lemma safeParseDate_valid_witness :
  PdfDate.safeParseDate (VStr (JS.js "D:20240229235959+08'00'")) =
    Normal (VStr (JS.js "2024-02-29T23:59:59.000Z")).
Proof.
  apply (safeParseDate_valid (JS.js "D:20240229235959+08'00'")
           50 48 50 52 48 50 50 57 50 51 53 57 53 57)%N;
    [vm_compute; reflexivity
    | vm_compute; split; discriminate
    | vm_compute; split; discriminate
    | vm_compute; discriminate ..].
Defined.

End ValidDate.

(** ** Collisions of the standalone generator *)

Module Collisions.

(** X24: two identifiers of the standalone generator drawn in the same
    millisecond are equal exactly when the same digit is drawn: there are
    ten identifiers for a millisecond. *)
Theorem standalone_collide_iff (timestamp r1 r2 : N)
  (H1 : r1 < 10) (H2 : r2 < 10) :
  UniqueId.generateUniqueId timestamp r1 = UniqueId.generateUniqueId timestamp r2
  <-> r1 = r2.
Proof.
  split; [|now intros ->].
  unfold UniqueId.generateUniqueId. intros E. apply app_inv_head in E.
  rewrite !N.mod_small in E by lia.
  destruct (Identifiers.counter_suffix (r1 + 1)) as [_ P1]; [lia|].
  destruct (Identifiers.counter_suffix (r2 + 1)) as [_ P2]; [lia|].
  rewrite E in P1. lia.
Qed.

Lemma standalone_collide_iff_witness :
  UniqueId.generateUniqueId 1700000000000 3 =
    UniqueId.generateUniqueId 1700000000000 3
  <-> 3 = 3.
Proof. apply standalone_collide_iff; reflexivity. Defined.

End Collisions.

(** ** What is left to the paragraphs of a plain text *)

Module Prose.
Import Stats Trimmed.

(** A text of at least 50 units, or with a Chinese full stop or comma. *)
Definition prosaic (s : JS.jsstring) : Prop :=
  (50 <= length s)%nat \/ In U.juhao s \/ In U.douhao s.

Lemma includes_unit s c : JS.includes s [c] = true -> In c s.
Proof.
  induction s as [|y s IH]; cbn [JS.includes JS.starts_with]; [discriminate|].
  destruct (c =? y) eqn:E.
  - apply N.eqb_eq in E. subst. now left.
  - cbn [andb orb]. intros H. right. now apply IH.
Qed.

(** A line that is not taken as a heading is prosaic. *)
Lemma body_line_prosaic line next :
  Txt.isLikelyHeading line next = false -> prosaic line.
Proof.
  unfold Txt.isLikelyHeading, prosaic.
  destruct (Nat.ltb 100 (length line)) eqn:E100.
  - apply Nat.ltb_lt in E100. left. lia.
  - destruct (_ && _ && _); [discriminate|].
    destruct (Re.test Txt.re_numbered line); [discriminate|].
    destruct (Re.test Txt.re_chapter line); [discriminate|].
    destruct (match next with Some _ => _ | None => _ end); [discriminate|].
    destruct (Nat.ltb (length line) 50) eqn:E50;
      [|apply Nat.ltb_ge in E50; now left].
    destruct (JS.includes line [U.juhao]) eqn:Ej;
      [right; left; now apply includes_unit|].
    destruct (JS.includes line [U.douhao]) eqn:Ed;
      [right; right; now apply includes_unit|].
    discriminate.
Qed.

Lemma prosaic_app_r a b : prosaic b -> prosaic (a ++ b).
Proof.
  intros [H|[H|H]]; [left|right; left|right; right].
  - rewrite length_app. lia.
  - apply in_or_app. now right.
  - apply in_or_app. now right.
Qed.

(** The pending paragraph is empty, or clean and prosaic; the paragraphs
    pushed are prosaic. *)
Definition prose (s : Txt.state) : Prop :=
  (Txt.currentParagraph s = []
   \/ (clean (Txt.currentParagraph s) /\ prosaic (Txt.currentParagraph s)))
  /\ Forall (fun b => blk_type b = paragraph -> prosaic (blk_text b))
       (Txt.paragraphs s).

Lemma flush_prose s :
  prose s -> prose (Txt.flush s) /\ Txt.currentParagraph (Txt.flush s) = [].
Proof.
  intros [Hc Hp]. unfold Txt.flush.
  destruct (Nat.ltb 0 _) eqn:E.
  - cbn [Txt.currentParagraph Txt.paragraphs].
    split; [|reflexivity]. split; [now left|].
    apply Forall_app. split; [exact Hp|].
    apply Forall_cons. split; [|apply Forall_nil_2]. intros _. cbn [blk_text].
    destruct Hc as [Hc|[Hc Hpr]]; [rewrite Hc in E; discriminate E|].
    now rewrite clean_trim.
  - split; [now split|].
    destruct Hc as [Hc|[Hc _]]; [exact Hc|].
    rewrite clean_trim in E by exact Hc.
    destruct (Txt.currentParagraph s); [reflexivity | discriminate E].
Qed.

Lemma body_step_prose line next s :
  clean line -> prose s -> prose (Txt.body_step line next s).
Proof.
  intros Hl H. unfold Txt.body_step.
  destruct (Nat.eqb (length line) 0) eqn:E0; [now apply flush_prose|].
  destruct (Txt.isLikelyHeading line next) eqn:Eh.
  - destruct (flush_prose s H) as [[_ Hp] Hc].
    split; cbn [Txt.currentParagraph Txt.paragraphs]; [now left|].
    apply Forall_app. split; [exact Hp|].
    apply Forall_cons. split; [|apply Forall_nil_2]. discriminate.
  - destruct H as [Hc Hp]. split; [|exact Hp].
    cbn [Txt.currentParagraph]. right.
    assert (Hne : line <> []) by (intros ->; discriminate E0).
    pose proof (body_line_prosaic line next Eh) as Hpr.
    destruct Hc as [->|[Hc _]]; [now split|].
    destruct (Txt.currentParagraph s) as [|c t] eqn:Ec; [now split|].
    cbn [JS.truthy]. split.
    + apply clean_join; [discriminate | exact Hne | exact Hc | exact Hl].
    + apply prosaic_app_r. now apply (prosaic_app_r [32]).
Qed.

Lemma step_prose raw next s : prose s -> prose (Txt.step raw next s).
Proof.
  intros H. unfold Txt.step. cbv zeta.
  destruct (_ || _); [exact H|].
  destruct (if Txt.inTOCSection s then _ else _); [exact H|].
  apply body_step_prose; [apply trim_clean | exact H].
Qed.

Lemma loop_prose lines : forall s, prose s -> prose (Txt.loop lines s).
Proof.
  induction lines as [|raw rest IH]; intros s H; [exact H|].
  apply IH, step_prose, H.
Qed.

(** X25: every paragraph of a plain text is at least 50 units long or holds a
    Chinese full stop or comma: a shorter line without them is taken as a
    heading, whatever it says. *)
Theorem txt_paragraphs_prosaic text :
  Forall (fun b => blk_type b = paragraph ->
                   (50 <= length (blk_text b))%nat
                   \/ In U.juhao (blk_text b) \/ In U.douhao (blk_text b))
    (Txt.extractStructureFromText text).1.
Proof.
  unfold Txt.extractStructureFromText. cbn [fst].
  refine (proj2 (proj1 (flush_prose _ (loop_prose _ _ _)))).
  split; [now left | apply Forall_nil_2].
Qed.

End Prose.

(** ** The levels of the headings of a fragment *)

Module Levels.
Import Re Epub Matching.

(** A match found by a search is a match at some index. *)
Lemma search_from_match r s : forall i m,
  search_from r i s = Some m -> exists j s', match_at r j s' = Some m.
Proof.
  induction s as [|c t IH]; intros i m H; cbn [search_from] in H.
  - destruct (match_at r i []) eqn:E; [|discriminate].
    injection H as ->. now exists i, [].
  - destruct (match_at r i (c :: t)) eqn:E.
    + injection H as ->. now exists i, (c :: t).
    + now apply (IH (S i)).
Qed.

Lemma matchAll_from_Forall (P : rmatch_result -> Prop) r :
  (forall j s m, match_at r j s = Some m -> P m) ->
  forall fuel i s, Forall P (matchAll_from fuel r i s).
Proof.
  intros HP. induction fuel as [|fuel IH]; intros i s; cbn [matchAll_from];
    [apply Forall_nil_2|].
  destruct (search_from r i s) as [m|] eqn:E; [|apply Forall_nil_2].
  apply Forall_cons. split.
  - destruct (search_from_match _ _ _ _ E) as (j & s' & Hm). exact (HP _ _ _ Hm).
  - destruct (Nat.ltb _ _); [apply Forall_nil_2 | apply IH].
Qed.

(** What follows the digit in the pattern of the headings. *)
Definition after_digit : regex :=
  seq [star (none_of [gt]); chr gt; Grp 2 (lazy_star dot);
       lit (JS.js "</"); chr_i 104; Cls (JS.in_range 49 54); chr gt].

Lemma after_digit_allowed : allowed (fun i => i <> 1%nat) after_digit.
Proof. vm_compute. repeat split; intros H; discriminate H. Qed.

(** Group 1 of a heading match is one digit from 1 to 6. *)
Lemma heading_digit i s m :
  match_at re_heading i s = Some m ->
  exists d, group 1 m = [d] /\ JS.in_range 49 54 d = true.
Proof.
  unfold match_at.
  change (rmatch re_heading)
    with (rmatch (Seq (chr lt)
                    (Seq (chr_i 104)
                       (Seq (Grp 1 (Cls (JS.in_range 49 54))) after_digit)))).
  change (ngroups re_heading) with 2%nat.
  destruct (rmatch _ _ Some) as [st'|] eqn:E; [|discriminate].
  intros [= <-]. unfold chr, chr_i in E.
  destruct s as [|c1 [|c2 [|c3 t]]]; cbn [rmatch rest pos caps] in E;
    try discriminate E;
    destruct (lt =? c1); try discriminate E;
    destruct (_ || _ || _); try discriminate E.
  destruct (JS.in_range 49 54 c3) eqn:Ed; [|discriminate E].
  exists c3. split; [|exact Ed].
  replace (S (S (S i)) - S (S i))%nat with 1%nat in E by lia.
  cbn [firstn repeat] in E.
  destruct (rmatch_passes
              (fun st => caps st !! 1%nat = Some (Some [c3]))
              (fun i => i <> 1%nat)
              ltac:(intros st c t' H _; exact H)
              ltac:(intros st st1 j Hj _ H; cbn [caps];
                    now rewrite list_lookup_insert_ne by congruence)
              after_digit after_digit_allowed
              _ _ _ E eq_refl) as (st1 & H1 & [= ->]).
  unfold group. cbn [m_groups].
  rewrite list_lookup_insert_ne by discriminate. now rewrite H1.
Qed.

Definition leveled (b : block) : Prop :=
  blk_type b = heading ->
  exists n, blk_level b = Some n /\ (1 <= n <= 6)%nat.

Lemma digit_level d :
  JS.in_range 49 54 d = true -> (1 <= N.to_nat (JS.parseInt [d]) <= 6)%nat.
Proof.
  unfold JS.in_range, JS.parseInt. cbn [fold_left].
  intros H. apply andb_prop in H as [H1%N.leb_le H2%N.leb_le]. lia.
Qed.

Lemma headings_leveled c i ms : forall acc,
  Forall (fun m => exists d, group 1 m = [d] /\ JS.in_range 49 54 d = true) ms ->
  Forall leveled acc ->
  Forall leveled (fold_left (push_heading c i) ms acc).
Proof.
  induction ms as [|m ms IH]; intros acc Hm Ha; [exact Ha|].
  apply Forall_cons in Hm as [(d & Hd & Hr) Hm]. cbn [fold_left].
  apply IH; [exact Hm|]. unfold push_heading.
  apply Forall_app. split; [exact Ha|].
  apply Forall_cons. split; [|apply Forall_nil_2].
  intros _. cbn [blk_level]. eexists. split; [reflexivity|].
  rewrite Hd. now apply digit_level.
Qed.

Lemma paragraphs_leveled c i ms : forall acc,
  Forall leveled acc -> Forall leveled (fold_left (push_paragraph c i) ms acc).
Proof.
  induction ms as [|m ms IH]; intros acc Ha; [exact Ha|].
  cbn [fold_left]. apply IH. unfold push_paragraph. cbv zeta.
  destruct (Nat.ltb 0 _); [|exact Ha].
  apply Forall_app. split; [exact Ha|].
  apply Forall_cons. split; [|apply Forall_nil_2]. discriminate.
Qed.


End Levels.

(** ** The export of a flow *)

Module FlowExport.
Import Parser ExportShape ExportContent Epub.

(** The items of a flow have identifiers that are strings, none empty. *)
Definition identified (flow : list flowItem) : Prop :=
  Forall (fun item => exists id, fl_id item = Some id /\ id <> []) flow.

Lemma toc_loop_ids rest : forall index toc,
  identified rest ->
  exists added,
    toc_loop rest index toc = toc ++ added
    /\ sublist (map toc_id added) (map fl_id rest)
    /\ Forall (fun t => exists id, toc_id t = Some id /\ id <> []) added.
Proof.
  induction rest as [|item rest IH]; intros index toc H.
  - exists []. rewrite app_nil_r. repeat split; constructor.
  - apply Forall_cons in H as [(id & Hid & Hne) H]. cbn [toc_loop map].
    destruct (IH (S index) (toc_item toc index item) H)
      as (added & -> & Hs & Hf).
    unfold toc_item. destruct (JS.truthy _).
    + eexists (_ :: added). rewrite <- app_assoc. split; [reflexivity|].
      cbn [map toc_id]. rewrite Hid. cbn [default]. unfold JS.or_else.
      destruct id as [|c t]; [congruence|]. cbn [JS.truthy].
      split; [now constructor|].
      apply Forall_cons. split; [|exact Hf]. eexists. now split.
    + exists added. split; [reflexivity|]. split; [|exact Hf].
      now constructor.
Qed.

Lemma flow_toc_distinct flow :
  identified flow -> NoDup (map fl_id flow) ->
  distinct_ids (List.filter isValidChapter (extractTOC (Some flow))).
Proof.
  intros Hi Hnd. cbn [extractTOC].
  destruct (toc_loop_ids flow 0 [] Hi) as (added & -> & Hs & Hf).
  cbn [app]. split.
  - apply Forall_forall. intros t Ht. rewrite Forall_forall in Hf.
    apply Hf. apply list_elem_of_In in Ht. apply filter_In in Ht as [Ht _].
    now apply list_elem_of_In.
  - eapply sublist_NoDup; [exact Hnd|].
    etransitivity; [|exact Hs].
    change (map toc_id ?l) with (toc_id <$> l). apply fmap_sublist.
    clear. induction added as [|t l IH]; [constructor|].
    cbn [List.filter]. destruct (isValidChapter t); now constructor.
Qed.

(** X27: when the items of the reading order have pairwise distinct
    identifiers, none absent or empty, and the file slugs of the chapters
    are pairwise distinct, the files left behind by the export of a
    document whose table of contents is that of the reading order keep
    every content block with non-empty trimmed text exactly once. *)
Theorem flow_export_keeps_content (now : nat -> N) (flow : list flowItem)
  (metadata : gmap JS.jsstring value) (blocks : list block)
  (images : list imageRef) (dir filePath uuid : JS.jsstring) (st : idState)
  (Hids : identified flow) (Hdistinct : NoDup (map fl_id flow))
  (Hslugs : NoDup (map ch_file
                     (validChapters (extractTOC (Some flow)) blocks))) :
  let doc :=
    createDocumentStructure metadata blocks images (extractTOC (Some flow)) in
  map en (stored_entries (generateBookInfoFiles now doc dir filePath uuid st))
    ≡ₚ map (fun b => JS.trim (blk_text b))
         (List.filter DefaultChapter.has_text blocks).
Proof.
  intros doc.
  rewrite (stored_kept now doc dir filePath uuid st Hslugs).
  apply (keeps_content now doc dir filePath uuid st).
  right. now apply flow_toc_distinct.
Qed.

(** A flow of two chapters and the blocks of its fragments. *)
Definition two_items : list flowItem :=
  [FlowItem (Some (JS.js "ch1")) (Some (JS.js "One")) None;
   FlowItem (Some (JS.js "ch2")) (Some (JS.js "Two")) (Some 2%nat)].
Definition two_fragments : list block :=
  Epub.extractParagraphsFromHTML
    (JS.js "<h1>One</h1><p>First.</p>") (JS.js "ch1") 0
  ++ Epub.extractParagraphsFromHTML
       (JS.js "<h1>Two</h1><p>Second.</p>") (JS.js "ch2") 1.

Lemma flow_export_keeps_content_witness :
  map en (stored_entries
            (generateBookInfoFiles (fun _ => 1700000000000)
               (createDocumentStructure ∅ two_fragments []
                  (extractTOC (Some two_items)))
               (JS.js "/out") (JS.js "book.epub") (JS.js "u-1")
               (IdState 0 0)))
    ≡ₚ map (fun b => JS.trim (blk_text b))
         (List.filter DefaultChapter.has_text two_fragments).
Proof.
  apply (flow_export_keeps_content (fun _ => 1700000000000) two_items).
  - repeat (apply Forall_cons; split;
            [eexists; split; [reflexivity | discriminate]|]).
    apply Forall_nil_2.
  - apply NoDup_cons. split; [|apply NoDup_singleton].
    intros H. apply list_elem_of_singleton in H. discriminate H.
  - vm_compute. apply NoDup_cons. split; [|apply NoDup_singleton].
    intros H. apply list_elem_of_singleton in H. discriminate H.
Defined.

End FlowExport.

(** ** The identifiers of the blocks, whatever the order of the callbacks *)

Module CallbackIds.
Import Epub Reading Ids.

(** The identifiers of the blocks of fragments name their fragments. *)
Lemma fragments_id_of l : forall base,
  Forall (fun x => exists c, In c (map fst l) /\ id_of c x)
    (map blk_id (fragments base l)).
Proof.
  induction l as [|[c text] l IH]; intros base; [apply Forall_nil_2|].
  rewrite fragments_cons, map_app. apply Forall_app. split.
  - eapply Forall_impl; [apply fragment_id_of|].
    intros x Hx. exists c. split; [now left | exact Hx].
  - eapply Forall_impl; [apply IH|].
    intros x (c' & Hc' & Hx). exists c'. split; [now right | exact Hx].
Qed.

Lemma fragments_NoDup l : forall base,
  NoDup (map fst l) -> NoDup (map blk_id (fragments base l)).
Proof.
  induction l as [|[c text] l IH]; intros base Hnd; [apply NoDup_nil_2|].
  cbn [map fst] in Hnd. apply NoDup_cons in Hnd as [Hc Hnd].
  rewrite fragments_cons, map_app. apply NoDup_app.
  split; [apply epub_fragment_NoDup|]. split; [|now apply IH].
  intros x Hx Hx'.
  pose proof (fragment_id_of text c base) as Hf.
  rewrite Forall_forall in Hf. specialize (Hf x Hx).
  pose proof (fragments_id_of l (S base)) as Hl.
  rewrite Forall_forall in Hl. destruct (Hl x Hx') as (c' & Hc' & Hid).
  rewrite (id_of_fragment _ _ _ Hf Hid) in Hc.
  apply Hc. now apply list_elem_of_In.
Qed.

(** The chapters read are chapters of the flow at positions of the
    schedule. *)
Lemma read_positions getChapter flow schedule c :
  In c (map fst (read getChapter flow schedule)) ->
  exists i, In i schedule /\ flow !! i = Some c.
Proof.
  induction schedule as [|i rest IH]; cbn [read]; [intros []|].
  unfold chapter_at at 1.
  destruct (flow !! i) as [c'|] eqn:Ei.
  - destruct (getChapter c') as [text|].
    + cbn [map fst]. intros [<-|H].
      * exists i. split; [now left | exact Ei].
      * destruct (IH H) as (j & Hj & Hc). exists j. split; [now right | exact Hc].
    + intros H. destruct (IH H) as (j & Hj & Hc).
      exists j. split; [now right | exact Hc].
  - intros H. destruct (IH H) as (j & Hj & Hc).
    exists j. split; [now right | exact Hc].
Qed.

Lemma read_NoDup getChapter flow schedule :
  NoDup flow -> NoDup schedule ->
  NoDup (map fst (read getChapter flow schedule)).
Proof.
  intros Hflow. induction schedule as [|i rest IH]; intros Hs;
    [apply NoDup_nil_2|].
  apply NoDup_cons in Hs as [Hi Hs]. cbn [read].
  destruct (chapter_at getChapter flow i) as [[c text]|] eqn:Ei;
    [|now apply IH].
  cbn [map fst]. apply NoDup_cons. split; [|now apply IH].
  intros Hin. apply list_elem_of_In, read_positions in Hin as (j & Hj & Hc).
  assert (Hic : flow !! i = Some c).
  { unfold chapter_at in Ei. destruct (flow !! i) as [c'|]; [|discriminate].
    destruct (getChapter c'); [|discriminate]. now injection Ei as -> _. }
  rewrite (NoDup_lookup flow i j c Hflow Hic Hc) in Hi.
  apply Hi. now apply list_elem_of_In.
Qed.

Lemma until_NoDup index schedule : NoDup schedule -> NoDup (until index schedule).
Proof.
  induction schedule as [|i rest IH]; intros Hs; [exact Hs|].
  apply NoDup_cons in Hs as [Hi Hs]. cbn [until].
  destruct (Nat.eqb i index); [apply NoDup_singleton|].
  apply NoDup_cons. split; [|now apply IH].
  intros Hin. apply Hi. clear -Hin.
  induction rest as [|j rest IH]; [exact Hin|]. cbn [until] in Hin.
  destruct (Nat.eqb j index).
  - apply list_elem_of_singleton in Hin as ->. now left.
  - apply elem_of_cons in Hin as [->|Hin]; [now left | right; now apply IH].
Qed.

(** X28: when the identifiers of the chapters of the flow are pairwise
    distinct and the callback of each chapter runs at most once, the
    identifiers of the blocks of the content array are pairwise distinct,
    whatever the order in which the callbacks run: in the array in the
    end, and in what it holds when the promise resolves. *)
Theorem callback_ids_unique (getChapter : JS.jsstring -> option JS.jsstring)
  (flow : list JS.jsstring) (schedule : list nat)
  (Hflow : NoDup flow) (Hschedule : NoDup schedule) :
  let r := EpubCallbacks.extractContent getChapter flow schedule in
  NoDup (map blk_id (EpubCallbacks.content r))
  /\ NoDup (map blk_id (default [] (EpubCallbacks.resolved r))).
Proof.
  cbv zeta. unfold EpubCallbacks.extractContent.
  destruct (callbacks_spec getChapter flow schedule
              (EpubCallbacks.State [] 0 None)) as [Hc Hr].
  cbv zeta in Hc, Hr. cbn [EpubCallbacks.content EpubCallbacks.chapterIndex
                           EpubCallbacks.resolved app] in Hc, Hr.
  assert (H1 : NoDup (map blk_id (fragments 0 (read getChapter flow schedule))))
    by now apply fragments_NoDup, read_NoDup.
  destruct (Nat.eqb (length flow) 0);
    cbn [EpubCallbacks.content EpubCallbacks.resolved default];
    rewrite Hc; [now split|].
  split; [exact H1|]. rewrite Hr.
  destruct (last_read getChapter flow schedule); [|apply NoDup_nil_2].
  cbn [default]. now apply fragments_NoDup, read_NoDup, until_NoDup.
Qed.

Lemma callback_ids_unique_witness :
  let r :=
    EpubCallbacks.extractContent sample_getChapter sample_flow [1; 0]%nat in
  NoDup (map blk_id (EpubCallbacks.content r))
  /\ NoDup (map blk_id (default [] (EpubCallbacks.resolved r))).
Proof.
  apply callback_ids_unique.
  - apply NoDup_cons. split; [|apply NoDup_singleton].
    intros H. apply list_elem_of_singleton in H. discriminate H.
  - apply NoDup_cons. split; [|apply NoDup_singleton].
    intros H. apply list_elem_of_singleton in H. discriminate H.
Defined.

End CallbackIds.
